(** * gocosmos: the document statements of the database/sql driver

    A shallow embedding of [stmt_document.go] (INSERT / DELETE / SELECT /
    UPDATE statements of the Cosmos DB driver) and the properties of its
    executors, its SELECT parser and its value lexer.

    Conventions
    - Go [string]s are byte strings: Rocq [string] (a list of 8-bit [ascii]).
    - Go [int] is 64 bits wide; it is held as [Z], and the places where the
      width matters ([strconv.Atoi]) write the bound out.
    - a Go [map] is a stdpp [gmap]; a slice is a [list].
    - a call of a function returns [Returned v], or [Panicked p] when the Go
      runtime panics (index out of range, nil dereference).
    - the REST client is a collaborator of the statements: it is a record of
      operations over an abstract remote state [W]; every executor threads
      the remote state and logs the calls it issues. *)

From Stdlib Require Import ZArith Ascii String List Lia Bool QArith Qabs.
From Stdlib Require Import DecimalString FinFun.
From stdpp Require Import base gmap strings list sorting.

Local Open Scope Z_scope.

(** ** Go values *)

(** What an [interface{}] (or a [driver.Value]) holds in this program.
    A [float64] is held by the exact rational its literal denotes; integers
    of magnitude below 2^53, such as 123, are exact in binary64. *)
#[local] Unset Elimination Schemes.
Inductive GoValue : Type :=
| GNil
| GBool (b : bool)
| GInt64 (n : Z)
| GFloat64 (q : Q)
| GString (s : string)
| GBytes (s : string)
| GSlice (l : list GoValue)
| GMap (m : gmap string GoValue).
#[local] Set Elimination Schemes.

(** [error] values of the package. The three sentinels are declared next to
    the driver; [errorString] is what [errors.New] and [fmt.Errorf] build;
    [transportError] is an error handed back by the REST client, with its
    text. *)
Inductive error : Type :=
| ErrForbidden
| ErrNotFound
| ErrConflict
| errorString (msg : string)
| transportError (msg : string).

Inductive panic : Type :=
| IndexOutOfRange
| NilDereference.

Inductive outcome (A : Type) : Type :=
| Returned (a : A)
| Panicked (p : panic).
Arguments Returned {A} a.
Arguments Panicked {A} p.

(** [fmt.Sprintf("%d", n)] *)
Definition itoa (n : Z) : string := NilEmpty.string_of_int (Z.to_int n).

(** [len(l)] as a Go int *)
Definition len {A} (l : list A) : Z := Z.of_nat (length l).

(** [l[i]] for a Go int [i]; [None] is the runtime's index-out-of-range. *)
Definition index {A} (l : list A) (i : Z) : option A :=
  if i <? 0 then None else l !! Z.to_nat i.

(** ** Strings *)

Module Str.

(** [strings.HasPrefix(s, p)] *)
Fixpoint HasPrefix (s p : string) : bool :=
  match p, s with
  | EmptyString, _ => true
  | String a p', String b s' => if Ascii.eqb a b then HasPrefix s' p' else false
  | String _ _, EmptyString => false
  end.

(** [strings.Index(s, sub) >= 0] *)
Fixpoint Contains (s sub : string) : bool :=
  HasPrefix s sub ||
  match s with
  | EmptyString => false
  | String _ s' => Contains s' sub
  end.

Fixpoint drop (n : nat) (s : string) : string :=
  match n, s with
  | O, _ => s
  | S n', String _ s' => drop n' s'
  | S _, EmptyString => EmptyString
  end.

Fixpoint take (n : nat) (s : string) : string :=
  match n, s with
  | O, _ => EmptyString
  | S n', String c s' => String c (take n' s')
  | S _, EmptyString => EmptyString
  end.

Fixpoint rev_append (s acc : string) : string :=
  match s with
  | EmptyString => acc
  | String c s' => rev_append s' (String c acc)
  end.
Definition rev (s : string) : string := rev_append s EmptyString.

(** [strings.HasSuffix(s, p)] *)
Definition HasSuffix (s p : string) : bool := HasPrefix (rev s) (rev p).

(** [s[i:j]] for [0 <= i <= j <= len(s)] *)
Definition slice (s : string) (i j : nat) : string := take (j - i) (drop i s).

(** The first of [seqs] that [s] starts with. *)
Definition startsWithAny (seqs : list string) (s : string) : option string :=
  List.find (HasPrefix s) seqs.

Fixpoint trimLeftSeqs (seqs : list string) (fuel : nat) (s : string) : string :=
  match fuel with
  | O => s
  | S fuel' =>
      match startsWithAny seqs s with
      | Some q =>
          if (0 <? String.length q)%nat
          then trimLeftSeqs seqs fuel' (drop (String.length q) s)
          else s
      | None => s
      end
  end.

(** [strings.TrimFunc(s, f)] for a predicate [f] on runes that holds of
    finitely many runes, given by their UTF-8 encodings [seqs]: leading
    runes are decoded from the front and trailing ones from the back, so a
    rune is trimmed exactly when its encoding is a prefix (a suffix) of
    what is left. *)
Definition TrimFunc (seqs : list string) (s : string) : string :=
  let l := trimLeftSeqs seqs (String.length s) s in
  rev (trimLeftSeqs (List.map rev seqs) (String.length l) (rev l)).

(** The runes of [unicode.IsSpace], UTF-8 encoded. *)
Definition unicodeSpaces : list string :=
  [ String "009" ""; String "010" ""; String "011" ""; String "012" "";
    String "013" ""; " ";
    String "194" (String "133" "");                 (* U+0085 *)
    String "194" (String "160" "");                 (* U+00A0 *)
    String "225" (String "154" (String "128" ""));  (* U+1680 *)
    String "226" (String "128" (String "128" ""));  (* U+2000 .. U+200A *)
    String "226" (String "128" (String "129" ""));
    String "226" (String "128" (String "130" ""));
    String "226" (String "128" (String "131" ""));
    String "226" (String "128" (String "132" ""));
    String "226" (String "128" (String "133" ""));
    String "226" (String "128" (String "134" ""));
    String "226" (String "128" (String "135" ""));
    String "226" (String "128" (String "136" ""));
    String "226" (String "128" (String "137" ""));
    String "226" (String "128" (String "138" ""));
    String "226" (String "128" (String "168" ""));  (* U+2028 *)
    String "226" (String "128" (String "169" ""));  (* U+2029 *)
    String "226" (String "128" (String "175" ""));  (* U+202F *)
    String "226" (String "129" (String "159" ""));  (* U+205F *)
    String "227" (String "128" (String "128" "")) ] (* U+3000 *).

(** [strings.TrimSpace(s)] *)
Definition TrimSpace (s : string) : string := TrimFunc unicodeSpaces s.

(** [strings.ReplaceAll(s, old, new)]: the occurrences of [old] are found
    from the left and do not overlap; [skip] counts the bytes of the
    occurrence being replaced that are still to be passed over. The text
    the statements replace is a match of a pattern that takes at least two
    bytes; for an empty [old], where Go inserts [new] around every rune,
    [ReplaceAll] below gives back [s]. *)
Fixpoint replaceFrom (skip : nat) (s old new : string) : string :=
  match s with
  | EmptyString => EmptyString
  | String c s' =>
      match skip with
      | S n => replaceFrom n s' old new
      | O =>
          if HasPrefix s old
          then new +:+ replaceFrom (String.length old - 1) s' old new
          else String c (replaceFrom O s' old new)
      end
  end.

Definition ReplaceAll (s old new : string) : string :=
  match old with
  | EmptyString => s
  | _ => replaceFrom O s old new
  end.

End Str.

(** ** Regular expressions

    Go's [regexp] finds the leftmost match and, among the matches that
    start there, the one a backtracking search meets first (leftmost-first).
    The matcher below is that search, over bytes: a pattern is run against a
    suffix of the text with a continuation for what follows it. The
    patterns of this package match a multi-byte rune only through a negated
    class, where matching it byte by byte gives the same extent, and
    through the folded letter [s], whose bytes are spelled out. *)

Module Regexp.

Inductive regex : Type :=
| Eps
| Class (f : ascii -> bool)
| Seq (r1 r2 : regex)
| Alt (r1 r2 : regex)
| Star (greedy : bool) (r : regex)
| Group (n : nat) (r : regex).

(** [r+] (or [r+?]) and [r?] *)
Definition Plus (greedy : bool) (r : regex) : regex := Seq r (Star greedy r).
Definition Opt (r : regex) : regex := Alt r Eps.

(** The captures met so far, newest first: group number, and the number of
    bytes that were left when the group opened and when it closed. *)
Definition caps : Type := list (nat * (nat * nat)).

Definition cont : Type := string -> caps -> option (string * caps).

Definition orElse {A} (a b : option A) : option A :=
  match a with Some _ => a | None => b end.

(** Iterations of a starred pattern [body]: a greedy star tries one more
    iteration before leaving, a lazy one leaves first. An iteration must
    consume a byte, which bounds their number by the length of the text. *)
Fixpoint star (greedy : bool) (body : string -> caps -> cont -> option (string * caps))
    (k : cont) (fuel : nat) (s : string) (c : caps) : option (string * caps) :=
  let again :=
    match fuel with
    | O => None
    | S fuel' =>
        body s c (fun s' c' =>
          if (String.length s' <? String.length s)%nat
          then star greedy body k fuel' s' c' else None)
    end in
  if greedy then orElse again (k s c) else orElse (k s c) again.

Fixpoint run (r : regex) (s : string) (c : caps) (k : cont)
    : option (string * caps) :=
  match r with
  | Eps => k s c
  | Class f =>
      match s with
      | String a s' => if f a then k s' c else None
      | EmptyString => None
      end
  | Seq r1 r2 => run r1 s c (fun s' c' => run r2 s' c' k)
  | Alt r1 r2 => orElse (run r1 s c k) (run r2 s c k)
  | Star greedy r' => star greedy (run r') k (String.length s) s c
  | Group n r' =>
      run r' s c (fun s' c' =>
        k s' ((n, (String.length s, String.length s')) :: c'))
  end.

(** The match of [r] that starts at the head of [s]: what is left of [s]
    after it, and its captures. *)
Definition match_here (r : regex) (s : string) : option (string * caps) :=
  run r s [] (fun s' c' => Some (s', c')).

(** A match within a text [s]: the text before it, the matched text, the
    texts of the groups 1, 2, ... and the text after it. *)
Record Submatch := mkSubmatch {
  sm_pre : string;
  sm_text : string;
  sm_groups : list string;
  sm_rest : string }.

Fixpoint numSubexp (r : regex) : nat :=
  match r with
  | Eps | Class _ => O
  | Seq r1 r2 | Alt r1 r2 => Nat.max (numSubexp r1) (numSubexp r2)
  | Star _ r' => numSubexp r'
  | Group n r' => Nat.max n (numSubexp r')
  end.

Fixpoint lookupCap (n : nat) (c : caps) : option (nat * nat) :=
  match c with
  | [] => None
  | (m, se) :: c' => if (m =? n)%nat then Some se else lookupCap n c'
  end.

(** The text of group [n] of a match in [s]; the empty string when the
    group took no part in the match. *)
Definition groupText (s : string) (c : caps) (n : nat) : string :=
  match lookupCap n c with
  | Some (opened, closed) =>
      Str.take (opened - closed) (Str.drop (String.length s - opened) s)
  | None => EmptyString
  end.

Definition submatchHere (r : regex) (s : string) : option Submatch :=
  match match_here r s with
  | Some (rest, c) =>
      Some (mkSubmatch EmptyString
              (Str.take (String.length s - String.length rest) s)
              (List.map (groupText s c) (seq 1 (numSubexp r)))
              rest)
  | None => None
  end.

(** The leftmost match of [r] in [s]. *)
Fixpoint find (r : regex) (s : string) : option Submatch :=
  match submatchHere r s with
  | Some m => Some m
  | None =>
      match s with
      | EmptyString => None
      | String a s' =>
          match find r s' with
          | Some m => Some (mkSubmatch (String a (sm_pre m)) (sm_text m)
                              (sm_groups m) (sm_rest m))
          | None => None
          end
      end
  end.

(** [re.FindStringIndex(s)]: [loc[0]] and [loc[1]] *)
Definition FindStringIndex (r : regex) (s : string) : option (nat * nat) :=
  match find r s with
  | Some m => Some (String.length (sm_pre m),
                    String.length (sm_pre m) + String.length (sm_text m))%nat
  | None => None
  end.

(** The successive matches of [r] in [s]: each search starts where the
    match before it ended. After an empty match Go steps over one rune
    (here: one byte) and does not report an empty match that abuts the
    match before it; no pattern of this package has an empty match. *)
Fixpoint findAll (fuel : nat) (r : regex) (s : string) (abuts : bool)
    : list Submatch :=
  match fuel with
  | O => []
  | S fuel' =>
      match find r s with
      | None => []
      | Some m =>
          match sm_text m with
          | EmptyString =>
              let here :=
                if abuts && Nat.eqb (String.length (sm_pre m)) 0 then [] else [m] in
              match sm_rest m with
              | EmptyString => here
              | String _ s' => here ++ findAll fuel' r s' false
              end
          | String _ _ => m :: findAll fuel' r (sm_rest m) true
          end
      end
  end.

Definition matches (r : regex) (s : string) : list Submatch :=
  findAll (S (String.length s)) r s false.

(** [re.FindAllStringSubmatch(s, -1)]: for every match, [match[0]] is the
    matched text and [match[i]] the text of group [i]. *)
Definition FindAllStringSubmatch (r : regex) (s : string) : list (list string) :=
  List.map (fun m => sm_text m :: sm_groups m) (matches r s).

(** [re.Split(s, -1)] *)
Definition Split (r : regex) (s : string) : list string :=
  match s with
  | EmptyString => [EmptyString]
  | _ =>
      let ms := matches r s in
      List.map sm_pre ms ++
      [match List.last ms (mkSubmatch "" "" [] s) with m => sm_rest m end]
  end.

(** *** Character classes *)

Definition oneOf (cs : string) (a : ascii) : bool :=
  existsb (Ascii.eqb a) (list_ascii_of_string cs).

Definition between (lo hi : ascii) (a : ascii) : bool :=
  (nat_of_ascii lo <=? nat_of_ascii a)%nat && (nat_of_ascii a <=? nat_of_ascii hi)%nat.

(** [\d] and [\s] of RE2 *)
Definition isDigit : ascii -> bool := between "0" "9".
Definition isPerlSpace (a : ascii) : bool :=
  oneOf (String "009" (String "010" (String "012" (String "013" " ")))) a.

(** [\w] of RE2 *)
Definition isWord (a : ascii) : bool :=
  isDigit a || between "a" "z" a || between "A" "Z" a || Ascii.eqb a "_".

Definition chr (a : ascii) : regex := Class (Ascii.eqb a).

(** A letter under [(?i)]: the letter in either case. Of the letters used
    by the patterns below only [s] folds to a rune outside ASCII, U+017F,
    whose encoding is the two bytes 197 191. *)
Definition fold (lower upper : ascii) : regex :=
  Class (fun a => Ascii.eqb a lower || Ascii.eqb a upper).
Definition fold_s : regex :=
  Alt (fold "s" "S") (Seq (chr "197") (chr "191")).

End Regexp.

Import Regexp.

Definition dquote : ascii := "034".
Definition backslash : ascii := "092".

(** [\s*,?], the tail of every value pattern *)
Definition reSep : regex :=
  Seq (Star true (Class isPerlSpace)) (Opt (chr ",")).

(** [(?i)(null)\s*,?] *)
Definition reValNull : regex :=
  Seq (Group 1 (Seq (fold "n" "N") (Seq (fold "u" "U") (Seq (fold "l" "L") (fold "l" "L")))))
      reSep.

(** [([\d\.xe+-]+)\s*,?] *)
Definition reValNumber : regex :=
  Seq (Group 1 (Plus true (Class (fun a => isDigit a || oneOf ".xe+-" a)))) reSep.

(** [(?i)(true|false)\s*,?] *)
Definition reValBoolean : regex :=
  Seq (Group 1
         (Alt (Seq (fold "t" "T") (Seq (fold "r" "R") (Seq (fold "u" "U") (fold "e" "E"))))
              (Seq (fold "f" "F") (Seq (fold "a" "A") (Seq (fold "l" "L")
                (Seq fold_s (fold "e" "E")))))))
      reSep.

(** [(?i)("(\\"|[^"])*?")\s*,?] *)
Definition reValString : regex :=
  Seq (Group 1
         (Seq (chr dquote)
           (Seq (Star false
                   (Group 2 (Alt (Seq (chr backslash) (chr dquote))
                                 (Class (fun a => negb (Ascii.eqb a dquote))))))
                (chr dquote))))
      reSep.

Definition isSigil (a : ascii) : bool := oneOf "$@:" a.

(** [(?i)[$@:](\d+)\s*,?] *)
Definition reValPlaceholder : regex :=
  Seq (Class isSigil) (Seq (Group 1 (Plus true (Class isDigit))) reSep).

(** [\s*([\w\-]+)\s*=] *)
Definition reFieldPart : regex :=
  Seq (Star true (Class isPerlSpace))
    (Seq (Group 1 (Plus true (Class (fun a => isWord a || Ascii.eqb a "-"))))
      (Seq (Star true (Class isPerlSpace)) (chr "="))).

(** [[,\s]+] *)
Definition reFieldSep : regex :=
  Plus true (Class (fun a => Ascii.eqb a "," || isPerlSpace a)).

(** The runes [r] with [_isSpace(r) || r == ','], UTF-8 encoded: the
    argument of every [strings.TrimFunc] of the lexer. [_isSpace] holds of
    tab, newline, vertical tab, form feed, carriage return, space, U+0085,
    U+00A0 and of the equals sign. *)
Definition spaceOrComma : list string :=
  [ String "009" ""; String "010" ""; String "011" ""; String "012" "";
    String "013" ""; " "; String "194" (String "133" "");
    String "194" (String "160" ""); "="; "," ].

(** [_isSpace], on runes *)
Definition _isSpace (r : Z) : bool :=
  existsb (Z.eqb r) [9; 10; 11; 12; 13; 32; 133; 160; 61].

(** The runes [r] with [_isSpace(r) || r == '='], UTF-8 encoded: the
    argument of the [strings.TrimFunc] that cuts a field name out. As
    [_isSpace] holds of the equals sign already, these are the runes of
    [_isSpace]. *)
Definition spaceOrEquals : list string :=
  [ String "009" ""; String "010" ""; String "011" ""; String "012" "";
    String "013" ""; " "; String "194" (String "133" "");
    String "194" (String "160" ""); "=" ].

(** ** UTF-8 *)

Module utf8.

Definition byte (a : ascii) : Z := Z.of_nat (nat_of_ascii a).
Definition chrZ (n : Z) : ascii := ascii_of_nat (Z.to_nat n).

Definition RuneError : Z := 65533.

Definition isCont (a : ascii) : bool := (128 <=? byte a) && (byte a <=? 191).

(** [utf8.DecodeRuneInString]: the rune at the head of [s] and its width;
    [(RuneError, 1)] for a byte sequence that is not a UTF-8 encoding. *)
Definition DecodeRune (s : string) : Z * nat :=
  match s with
  | EmptyString => (RuneError, O)
  | String b0 s1 =>
      let x0 := byte b0 in
      if x0 <? 128 then (x0, 1%nat)
      else if (194 <=? x0) && (x0 <=? 223) then
        match s1 with
        | String b1 _ =>
            if isCont b1 then ((x0 - 192) * 64 + (byte b1 - 128), 2%nat)
            else (RuneError, 1%nat)
        | _ => (RuneError, 1%nat)
        end
      else if (224 <=? x0) && (x0 <=? 239) then
        match s1 with
        | String b1 (String b2 _) =>
            let lo := if x0 =? 224 then 160 else 128 in
            let hi := if x0 =? 237 then 159 else 191 in
            if (lo <=? byte b1) && (byte b1 <=? hi) && isCont b2
            then ((x0 - 224) * 4096 + (byte b1 - 128) * 64 + (byte b2 - 128), 3%nat)
            else (RuneError, 1%nat)
        | _ => (RuneError, 1%nat)
        end
      else if (240 <=? x0) && (x0 <=? 244) then
        match s1 with
        | String b1 (String b2 (String b3 _)) =>
            let lo := if x0 =? 240 then 144 else 128 in
            let hi := if x0 =? 244 then 143 else 191 in
            if (lo <=? byte b1) && (byte b1 <=? hi) && isCont b2 && isCont b3
            then ((x0 - 240) * 262144 + (byte b1 - 128) * 4096
                  + (byte b2 - 128) * 64 + (byte b3 - 128), 4%nat)
            else (RuneError, 1%nat)
        | _ => (RuneError, 1%nat)
        end
      else (RuneError, 1%nat)
  end.

(** [utf8.ValidRune] *)
Definition ValidRune (r : Z) : bool :=
  ((0 <=? r) && (r <? 55296)) || ((57343 <? r) && (r <=? 1114111)).

(** [utf8.EncodeRune]; a rune that is not valid is encoded as U+FFFD. *)
Definition EncodeRune (r : Z) : string :=
  let r := if ValidRune r then r else RuneError in
  if r <? 128 then String (chrZ r) ""
  else if r <? 2048 then
    String (chrZ (192 + r / 64)) (String (chrZ (128 + r mod 64)) "")
  else if r <? 65536 then
    String (chrZ (224 + r / 4096))
      (String (chrZ (128 + (r / 64) mod 64)) (String (chrZ (128 + r mod 64)) ""))
  else
    String (chrZ (240 + r / 262144))
      (String (chrZ (128 + (r / 4096) mod 64))
        (String (chrZ (128 + (r / 64) mod 64)) (String (chrZ (128 + r mod 64)) ""))).

End utf8.

(** ** [strconv] *)

Module strconv.

Inductive NumError : Type := ErrSyntax | ErrRange.

Definition digitVal (a : ascii) : option Z :=
  if isDigit a then Some (utf8.byte a - 48) else None.

Definition hexVal (a : ascii) : option Z :=
  if isDigit a then Some (utf8.byte a - 48)
  else if between "a" "f" a then Some (utf8.byte a - 87)
  else if between "A" "F" a then Some (utf8.byte a - 55)
  else None.

Definition octVal (a : ascii) : option Z :=
  if between "0" "7" a then Some (utf8.byte a - 48) else None.

(** The number written by the digits of [s] in base [base], after [acc];
    [None] when some byte of [s] is not a digit of the base. *)
Fixpoint digitsValue (val : ascii -> option Z) (base : Z) (s : string) (acc : Z)
    : option Z :=
  match s with
  | EmptyString => Some acc
  | String a s' =>
      match val a with
      | Some d => digitsValue val base s' (acc * base + d)
      | None => None
      end
  end.

Definition maxInt : Z := 2 ^ 63 - 1.
Definition minInt : Z := - 2 ^ 63.

(** [strconv.Atoi(s)] on a platform with 64-bit [int]: an optional sign and
    at least one decimal digit; out of range, the nearest [int] comes back
    with [ErrRange]. *)
Definition Atoi (s : string) : Z * option NumError :=
  let '(neg, body) :=
    match s with
    | String "-" s' => (true, s')
    | String "+" s' => (false, s')
    | _ => (false, s)
    end in
  match body with
  | EmptyString => (0, Some ErrSyntax)
  | _ =>
      match digitsValue digitVal 10 body 0 with
      | None => (0, Some ErrSyntax)
      | Some n =>
          let v := if neg then - n else n in
          if maxInt <? v then (maxInt, Some ErrRange)
          else if v <? minInt then (minInt, Some ErrRange)
          else (v, None)
      end
  end.

(** [strconv.ParseBool(s)] *)
Definition ParseBool (s : string) : bool * option NumError :=
  if existsb (String.eqb s) ["1"; "t"; "T"; "TRUE"; "true"; "True"] then (true, None)
  else if existsb (String.eqb s) ["0"; "f"; "F"; "FALSE"; "false"; "False"] then (false, None)
  else (false, Some ErrSyntax).

(** [strconv.UnquoteChar(s, quote)] for a non-empty [s]: the value of the
    first character or escape of [s], whether it is to be written as a rune
    ([true]) or as a byte, and the rest of [s]. *)
Definition UnquoteChar (s : string) (quote : ascii) : option (Z * bool * string) :=
  match s with
  | EmptyString => None
  | String c s1 =>
      if Ascii.eqb c quote then None
      else if 128 <=? utf8.byte c then
        let '(r, size) := utf8.DecodeRune s in Some (r, true, Str.drop size s)
      else if negb (Ascii.eqb c backslash) then Some (utf8.byte c, false, s1)
      else
        match s1 with
        | EmptyString => None
        | String e s2 =>
            let simple (v : Z) := Some (v, false, s2) in
            let hex (n : nat) (multibyte : bool) :=
              if (String.length s2 <? n)%nat then None
              else match digitsValue hexVal 16 (Str.take n s2) 0 with
                   | Some v =>
                       if multibyte && negb (utf8.ValidRune v) then None
                       else Some (v, multibyte, Str.drop n s2)
                   | None => None
                   end in
            if Ascii.eqb e "a" then simple 7
            else if Ascii.eqb e "b" then simple 8
            else if Ascii.eqb e "f" then simple 12
            else if Ascii.eqb e "n" then simple 10
            else if Ascii.eqb e "r" then simple 13
            else if Ascii.eqb e "t" then simple 9
            else if Ascii.eqb e "v" then simple 11
            else if Ascii.eqb e "x" then hex 2%nat false
            else if Ascii.eqb e "u" then hex 4%nat true
            else if Ascii.eqb e "U" then hex 8%nat true
            else if between "0" "7" e then
              if (String.length s2 <? 2)%nat then None
              else match digitsValue octVal 8 (Str.take 2 s2) (utf8.byte e - 48) with
                   | Some v => if 255 <? v then None else Some (v, false, Str.drop 2 s2)
                   | None => None
                   end
            else if Ascii.eqb e backslash then simple 92
            else if Ascii.eqb e "'" || Ascii.eqb e dquote then
              if Ascii.eqb e quote then simple (utf8.byte e) else None
            else None
        end
  end.

(** The body of a double-quoted Go string literal up to its closing quote:
    the unescaped text and what follows the quote. A raw newline is not
    allowed. *)
Fixpoint unquoteBody (fuel : nat) (s : string) : option (string * string) :=
  match fuel with
  | O => None
  | S fuel' =>
      match s with
      | EmptyString => None
      | String c s1 =>
          if Ascii.eqb c dquote then Some (EmptyString, s1)
          else if Ascii.eqb c "010" then None
          else
            match UnquoteChar s dquote with
            | None => None
            | Some (r, multibyte, rest) =>
                let piece :=
                  if (r <? 128) || negb multibyte then String (utf8.chrZ r) ""
                  else utf8.EncodeRune r in
                match unquoteBody fuel' rest with
                | Some (out, rem) => Some (piece +:+ out, rem)
                | None => None
                end
          end
      end
  end.

(** [strconv.Unquote(s)] of a literal that opens with a double quote, which
    is the only kind the lexer passes: its pattern starts at a double quote
    and the trimming leaves that quote in place. [None] is [ErrSyntax]. *)
Definition Unquote (s : string) : option string :=
  match s with
  | String c s1 =>
      if Ascii.eqb c dquote then
        match unquoteBody (String.length s) s1 with
        | Some (out, EmptyString) => Some out
        | _ => None
        end
      else None
  | EmptyString => None
  end.

End strconv.

(** ** [encoding/json]

    [json.Unmarshal] into an [interface{}]: [null] gives nil, [true] and
    [false] a bool, a number a [float64], a string a string, an array a
    slice and an object a map (of two members with one name the later
    wins). [None] is an error: a syntax error, or a number outside the
    range of [float64]. The limit Go puts on the depth of nesting (10000)
    is not modelled. *)

Module json.

Definition isSpace (a : ascii) : bool :=
  oneOf (String "009" (String "010" (String "013" " "))) a.

Fixpoint skipSpace (s : string) : string :=
  match s with
  | String a s' => if isSpace a then skipSpace s' else s
  | EmptyString => s
  end.

(** The longest run of digits at the head of [s], and the rest. *)
Fixpoint digits (s : string) : string * string :=
  match s with
  | String a s' =>
      if isDigit a then let '(d, r) := digits s' in (String a d, r) else (EmptyString, s)
  | EmptyString => (EmptyString, s)
  end.

Definition natValue (d : string) : Z :=
  default 0 (strconv.digitsValue strconv.digitVal 10 d 0).

(** The bound at and beyond which a decimal rounds to an infinity. *)
Definition float64Overflow : Z := 2 ^ 1024 - 2 ^ 970.

(** A JSON number at the head of [s], as the rational it denotes: an
    optional minus sign; an integer part, which is a single zero or starts
    with a digit that is not zero; optionally a point with at least one
    digit; optionally an exponent, [e] or [E], an optional sign and at
    least one digit. The rational is kept as it is written, where
    [json.Unmarshal] rounds it to the nearest float64: the two differ for
    a number of more than 53 significant bits or below the smallest
    float64, and for the negative zero, which a rational does not have.
    No statement below depends on the value of such a number. *)
Definition number (s : string) : option (Q * string) :=
  let '(neg, s0) := match s with String "-" s' => (true, s') | _ => (false, s) end in
  let '(ip, s1) := digits s0 in
  match ip with
  | EmptyString => None
  | String d0 ip' =>
      if Ascii.eqb d0 "0" && negb (String.eqb ip' "") then
        (* a leading zero ends the integer part: "01" is "0" followed by "1" *)
        None
      else
        let '(fp, s2) :=
          match s1 with
          | String "." s' => let '(f, r) := digits s' in (Some f, r)
          | _ => (None, s1)
          end in
        match fp with
        | Some EmptyString => None
        | _ =>
            let frac := default EmptyString fp in
            let ex :=
              match s2 with
              | String e s' =>
                  if Ascii.eqb e "e" || Ascii.eqb e "E" then
                    let '(eneg, s'') :=
                      match s' with
                      | String "-" t => (true, t)
                      | String "+" t => (false, t)
                      | _ => (false, s')
                      end in
                    let '(ed, r) := digits s'' in
                    match ed with
                    | EmptyString => None
                    | _ => Some (Some (if eneg then - natValue ed else natValue ed), r)
                    end
                  else Some (None, s2)
              | EmptyString => Some (None, s2)
              end in
            match ex with
            | None => None
            | Some (e, s3) =>
                let m := natValue (ip +:+ frac) in
                let m := if neg then - m else m in
                let e10 := default 0 e - Z.of_nat (String.length frac) in
                let v :=
                  if 0 <=? e10 then inject_Z (m * 10 ^ e10)
                  else Qred (Qmake m (Z.to_pos (10 ^ (- e10)))) in
                if Qle_bool (inject_Z float64Overflow) (Qabs v) then None
                else Some (v, s3)
            end
        end
  end.

(** The runes of a JSON string body up to its closing quote, re-encoded as
    UTF-8. *)
Fixpoint stringBody (fuel : nat) (s : string) : option (string * string) :=
  match fuel with
  | O => None
  | S fuel' =>
      match s with
      | EmptyString => None
      | String c s1 =>
          let more (piece rest : string) :=
            match stringBody fuel' rest with
            | Some (out, rem) => Some (piece +:+ out, rem)
            | None => None
            end in
          if Ascii.eqb c dquote then Some (EmptyString, s1)
          else if utf8.byte c <? 32 then None
          else if Ascii.eqb c backslash then
            match s1 with
            | String e s2 =>
                let simple (a : ascii) := more (String a "") s2 in
                if Ascii.eqb e dquote then simple dquote
                else if Ascii.eqb e backslash then simple backslash
                else if Ascii.eqb e "/" then simple "/"%char
                else if Ascii.eqb e "b" then simple "008"%char
                else if Ascii.eqb e "f" then simple "012"%char
                else if Ascii.eqb e "n" then simple "010"%char
                else if Ascii.eqb e "r" then simple "013"%char
                else if Ascii.eqb e "t" then simple "009"%char
                else if Ascii.eqb e "u" then
                  if (String.length s2 <? 4)%nat then None
                  else
                    match strconv.digitsValue strconv.hexVal 16 (Str.take 4 s2) 0 with
                    | None => None
                    | Some rr =>
                        let s3 := Str.drop 4 s2 in
                        let low :=
                          (* a second [\uXXXX], when one follows *)
                          match s3 with
                          | String b (String u s4) =>
                              if Ascii.eqb b backslash && Ascii.eqb u "u"
                                 && (4 <=? String.length s4)%nat
                              then strconv.digitsValue strconv.hexVal 16 (Str.take 4 s4) 0
                              else None
                          | _ => None
                          end in
                        if (55296 <=? rr) && (rr <? 57344) then
                          match low with
                          | Some rr1 =>
                              if (rr <? 56320) && (56320 <=? rr1) && (rr1 <? 57344) then
                                more (utf8.EncodeRune
                                        ((rr - 55296) * 1024 + (rr1 - 56320) + 65536))
                                     (Str.drop 6 s3)
                              else more (utf8.EncodeRune utf8.RuneError) s3
                          | None => more (utf8.EncodeRune utf8.RuneError) s3
                          end
                        else more (utf8.EncodeRune rr) s3
                    end
                else None
            | EmptyString => None
            end
          else if utf8.byte c <? 128 then more (String c "") s1
          else
            let '(r, size) := utf8.DecodeRune s in
            more (utf8.EncodeRune r) (Str.drop size s)
      end
  end.

(** A JSON value at the head of [s] (after white space), and the rest. *)
Fixpoint value (fuel : nat) (s : string) : option (GoValue * string) :=
  match fuel with
  | O => None
  | S fuel' =>
      match skipSpace s with
      | EmptyString => None
      | String c s1 as s0 =>
          if Ascii.eqb c "[" then
            match skipSpace s1 with
            | String "]" s2 => Some (GSlice [], s2)
            | _ => elements fuel' s1 []
            end
          else if Ascii.eqb c "{" then
            match skipSpace s1 with
            | String "}" s2 => Some (GMap ∅, s2)
            | _ => members fuel' s1 ∅
            end
          else if Ascii.eqb c dquote then
            match stringBody (String.length s0) s1 with
            | Some (str, rest) => Some (GString str, rest)
            | None => None
            end
          else if Str.HasPrefix s0 "true" then Some (GBool true, Str.drop 4 s0)
          else if Str.HasPrefix s0 "false" then Some (GBool false, Str.drop 5 s0)
          else if Str.HasPrefix s0 "null" then Some (GNil, Str.drop 4 s0)
          else
            match number s0 with
            | Some (q, rest) => Some (GFloat64 q, rest)
            | None => None
            end
      end
  end
with elements (fuel : nat) (s : string) (acc : list GoValue)
    : option (GoValue * string) :=
  match fuel with
  | O => None
  | S fuel' =>
      match value fuel' s with
      | None => None
      | Some (v, rest) =>
          match skipSpace rest with
          | String "," rest' => elements fuel' rest' (acc ++ [v])
          | String "]" rest' => Some (GSlice (acc ++ [v]), rest')
          | _ => None
          end
      end
  end
with members (fuel : nat) (s : string) (acc : gmap string GoValue)
    : option (GoValue * string) :=
  match fuel with
  | O => None
  | S fuel' =>
      match skipSpace s with
      | String c s1 as s0 =>
          if Ascii.eqb c dquote then
            match stringBody (String.length s0) s1 with
            | None => None
            | Some (key, rest) =>
                match skipSpace rest with
                | String ":" rest1 =>
                    match value fuel' rest1 with
                    | None => None
                    | Some (v, rest2) =>
                        match skipSpace rest2 with
                        | String "," rest3 => members fuel' rest3 (<[key := v]> acc)
                        | String "}" rest3 => Some (GMap (<[key := v]> acc), rest3)
                        | _ => None
                        end
                    end
                | _ => None
                end
            end
          else None
      | EmptyString => None
      end
  end.

(** [json.Unmarshal([]byte(s), &data)] for [var data interface{}] *)
Definition Unmarshal (s : string) : option GoValue :=
  match value (S (String.length s)) s with
  | Some (v, rest) =>
      match skipSpace rest with
      | EmptyString => Some v
      | _ => None
      end
  | None => None
  end.

(** [json.Unmarshal([]byte(s), &data)] for [var data bool]: [null] leaves
    [data] as it is, any other value that is not a boolean is an error. *)
Definition UnmarshalBool (s : string) : option bool :=
  match Unmarshal s with
  | Some (GBool b) => Some b
  | Some GNil => Some false
  | _ => None
  end.

End json.
(** ** The REST client and its requests and responses

    The types below are declared with the REST client; their fields are the
    ones [stmt_document.go] reads and writes. [Error] is the result of the
    response's [Error()] method: [None] for a nil error, otherwise the
    error's text. *)

Abbreviation DocInfo := (gmap string GoValue).

Module DocReq.
Record t := mk {
  DbName : string;
  CollName : string;
  DocId : string;
  PartitionKeyValues : list GoValue }.
End DocReq.

Module DocumentSpec.
Record t := mk {
  DbName : string;
  CollName : string;
  IsUpsert : bool;
  PartitionKeyValues : list GoValue;
  DocumentData : DocInfo }.
End DocumentSpec.

Module QueryReq.
Record t := mk {
  DbName : string;
  CollName : string;
  Query : string;
  Params : list GoValue;
  CrossPartitionEnabled : bool;
  ContinuationToken : string }.
Definition with_ContinuationToken (q : t) (tok : string) : t :=
  mk (DbName q) (CollName q) (Query q) (Params q) (CrossPartitionEnabled q) tok.
End QueryReq.

(** Responses of the document calls that carry one document (or none). *)
Module RespDoc.
Record t := mk {
  Error : option string;
  StatusCode : Z;
  DocInfo : option (gmap string GoValue) }.
End RespDoc.

Module RespQueryDocs.
Record t := mk {
  Error : option string;
  StatusCode : Z;
  Count : Z;
  Documents : list (gmap string GoValue);
  ContinuationToken : string }.
End RespQueryDocs.

Inductive Call : Type :=
| CallCreateDocument (spec : DocumentSpec.t)
| CallDeleteDocument (r : DocReq.t)
| CallGetDocument (r : DocReq.t)
| CallReplaceDocument (etag : string) (spec : DocumentSpec.t)
| CallQueryDocuments (q : QueryReq.t).

Definition is_replace (c : Call) : bool :=
  match c with CallReplaceDocument _ _ => true | _ => false end.

(** The operations of [RestClient] used by the statements, over a remote
    state [W]. *)
Record RestClient (W : Type) := {
  CreateDocument : DocumentSpec.t -> W -> RespDoc.t * W;
  DeleteDocument : DocReq.t -> W -> RespDoc.t * W;
  GetDocument : DocReq.t -> W -> RespDoc.t * W;
  ReplaceDocument : string -> DocumentSpec.t -> W -> RespDoc.t * W;
  QueryDocuments : QueryReq.t -> W -> RespQueryDocs.t * W }.
Arguments CreateDocument {W}.
Arguments DeleteDocument {W}.
Arguments GetDocument {W}.
Arguments ReplaceDocument {W}.
Arguments QueryDocuments {W}.

(** What a run of an executor leaves behind: its outcome, the remote state
    and the calls it issued, oldest first. *)
Record Run (W A : Type) := mkRun {
  value : outcome A;
  world : W;
  calls : list Call }.
Arguments mkRun {W A}.
Arguments value {W A}.
Arguments world {W A}.
Arguments calls {W A}.

(** ** Statement values *)

Record placeholder := { ph_index : Z }.

(** An element of [s.values]: the type switch of the executors tells a
    [placeholder] from every other value. *)
Inductive StmtValue : Type :=
| VPlaceholder (ph : placeholder)
| VLiteral (v : GoValue).

(** The guard [ph.index <= 0 || ph.index >= len(args)] *)
Definition invalid_index (ph : placeholder) (args : list GoValue) : bool :=
  (ph_index ph <=? 0) || (ph_index ph >=? len args).

Definition errInvalidValueIndex (ph : placeholder) : error :=
  errorString ("invalid value index " +:+ itoa (ph_index ph)).

Definition docMarker : string := "ResourceType: Document".

(** ** Results of DELETE and UPDATE *)

Module ResultDelete.
Record t := mk { Successful : bool; StatusCode : Z }.

(** [RowsAffected] *)
Definition RowsAffected (r : t) : Z * option error :=
  if Successful r && (StatusCode r <? 400) then (1, None) else (0, None).
End ResultDelete.

Module ResultUpdate.
Record t := mk { Successful : bool }.

(** [RowsAffected] *)
Definition RowsAffected (r : t) : Z * option error :=
  if Successful r then (1, None) else (0, None).
End ResultUpdate.

(** [(driver.Result, error)] as returned by an [Exec] *)
Abbreviation ExecResult R := (option R * option error)%type.

(** [err] after the [case 404] arm shared by DELETE and UPDATE:
    [err.Error()] is called on the error of the response, which panics on a
    nil error. *)
Definition on404 (err : option string) : outcome (option error) :=
  match err with
  | None => Panicked NilDereference
  | Some text =>
      if Str.Contains text docMarker then Returned None
      else Returned (Some ErrNotFound)
  end.

Definition liftErr (err : option string) : option error :=
  transportError <$> err.

(** What the statements take from their surroundings: the REST client of
    the connection ([s.conn.restClient]), [fmt.Sprintf("%s", v)] of the
    standard library, and [DocInfo.Etag] / [DocInfo.RemoveSystemAttrs],
    which are declared with the REST client (their argument is [None] for a
    nil map). *)
Record Env (W : Type) := {
  restClient : RestClient W;
  Sprintf_s : GoValue -> string;
  Etag : option DocInfo -> string;
  RemoveSystemAttrs : option DocInfo -> DocInfo }.
Arguments restClient {W}.
Arguments Sprintf_s {W}.
Arguments Etag {W}.
Arguments RemoveSystemAttrs {W}.

(** The id of the document: the literal, or the argument the placeholder
    names. [inl] is the early [return nil, fmt.Errorf(...)]. *)
Definition resolveId {W} (env : Env W) (idStr : string) (id : option placeholder)
    (args : list GoValue) : error + outcome string :=
  match id with
  | None => inr (Returned idStr)
  | Some ph =>
      if invalid_index ph args then inl (errInvalidValueIndex ph)
      else match index args (ph_index ph - 1) with
           | Some a => inr (Returned (Sprintf_s env a))
           | None => inr (Panicked IndexOutOfRange)
           end
  end.

(** ** The value lexer

    INSERT and UPDATE read a value with the same five attempts, in the same
    order: placeholder, null, number, boolean, quoted JSON. *)

Module Lexer.

(** [loc := re.FindStringIndex(temp); loc != nil && loc[0] == 0], giving
    [loc[1]] *)
Definition matchAtStart (r : regex) (temp : string) : option nat :=
  match FindStringIndex r temp with
  | Some (O, e) => Some e
  | _ => None
  end.

Inductive lexed : Type :=
| LexPlaceholder (ph : placeholder) (rest : string)
| LexLiteral (v : GoValue) (rest : string)
| LexError (e : error).

Definition trimToken (s : string) : string := Str.TrimFunc spaceOrComma s.

Definition invalidToken (kind token : string) : error :=
  errorString (kind +:+ "cannot parse query, invalid token at: " +:+ token).

(** One value at the head of [temp]. *)
Definition lexValue (temp : string) : lexed :=
  match matchAtStart reValPlaceholder temp with
  | Some e =>
      let token := trimToken (Str.slice temp 1 e) in
      LexPlaceholder {| ph_index := fst (strconv.Atoi token) |} (Str.drop e temp)
  | None =>
  match matchAtStart reValNull temp with
  | Some e => LexLiteral GNil (Str.drop e temp)
  | None =>
  match matchAtStart reValNumber temp with
  | Some e =>
      let token := trimToken (Str.slice temp 0 e) in
      match json.Unmarshal token with
      | None => LexError (invalidToken "(nul) " token)
      | Some data => LexLiteral data (Str.drop e temp)
      end
  | None =>
  match matchAtStart reValBoolean temp with
  | Some e =>
      let token := trimToken (Str.slice temp 0 e) in
      match json.UnmarshalBool token with
      | None => LexError (invalidToken "(bool) " token)
      | Some data => LexLiteral (GBool data) (Str.drop e temp)
      end
  | None =>
  match matchAtStart reValString temp with
  | Some e =>
      match strconv.Unquote (trimToken (Str.slice temp 0 e)) with
      | None => LexError (invalidToken "(unquote) " "")
      | Some token =>
          match json.Unmarshal token with
          | None => LexError (invalidToken "(unmarshal) " token)
          | Some data => LexLiteral data (Str.drop e temp)
          end
      end
  | None => LexError (invalidToken "" temp)
  end end end end end.

End Lexer.

Module StmtDelete.
Section Exec.
Context {W : Type} (env : Env W).

Record t := mk {
  numInput : Z;
  dbName : string;
  collName : string;
  idStr : string;
  id : option placeholder }.

(** [validate] *)
Definition validate (s : t) : option error :=
  if String.eqb (idStr s) "" then Some (errorString "id value is missing")
  else None.

(** [Exec] *)
Definition Exec (s : t) (args : list GoValue) (w : W)
    : Run W (ExecResult ResultDelete.t) :=
  match resolveId env (idStr s) (id s) args with
  | inl e => mkRun (Returned (None, Some e)) w []
  | inr (Panicked p) => mkRun (Panicked p) w []
  | inr (Returned docId) =>
      match index args (numInput s - 1) with
      | None => mkRun (Panicked IndexOutOfRange) w []
      | Some pk =>
          let req := DocReq.mk (dbName s) (collName s) docId [pk] in
          let '(resp, w1) := DeleteDocument (restClient env) req w in
          let err := RespDoc.Error resp in
          let result :=
            ResultDelete.mk (bool_decide (err = None)) (RespDoc.StatusCode resp) in
          let err' :=
            if RespDoc.StatusCode resp =? 403 then Returned (Some ErrForbidden)
            else if RespDoc.StatusCode resp =? 404 then on404 err
            else Returned (liftErr err) in
          match err' with
          | Panicked p => mkRun (Panicked p) w1 [CallDeleteDocument req]
          | Returned e => mkRun (Returned (Some result, e)) w1 [CallDeleteDocument req]
          end
      end
  end.

End Exec.

(** The id of a DELETE or an UPDATE as its text gives it: the text between
    double quotes, or one placeholder that takes the whole text, or the text
    as it is. This is the body of [StmtDelete.parse] after its first line
    and, word for word, the body of [StmtUpdate._parseId]. The slice
    [s.idStr[1 : len(s.idStr)-1]] panics with a bounds error when the text
    is one double quote. The result is [s.idStr], [s.id], [s.numInput] and
    the error returned. *)
Definition parseId (idStr : string) (id : option placeholder) (numInput : Z)
    : outcome (string * option placeholder * Z * option error) :=
  let hasPrefix := Str.HasPrefix idStr (String dquote "") in
  let hasSuffix := Str.HasSuffix idStr (String dquote "") in
  if negb (Bool.eqb hasPrefix hasSuffix) then
    Returned (idStr, id, numInput, Some (errorString ("invalid id literate: " +:+ idStr)))
  else if hasPrefix && hasSuffix then
    if (String.length idStr - 1 <? 1)%nat then Panicked IndexOutOfRange
    else Returned (Str.TrimSpace (Str.slice idStr 1 (String.length idStr - 1)),
                   id, numInput, None)
  else
    match FindStringIndex reValPlaceholder idStr with
    | Some (lo, hi) =>
        if Nat.eqb lo 0 && Nat.eqb hi (String.length idStr) then
          match strconv.Atoi (Str.drop (lo + 1) idStr) with
          | (index, None) =>
              if index <? 1 then
                Returned (idStr, id, numInput,
                          Some (errorString ("invalid id placeholder literate: " +:+ idStr)))
              else Returned (idStr, Some {| ph_index := index |}, numInput + 1, None)
          | (_, Some _) =>
              Returned (idStr, id, numInput,
                        Some (errorString ("invalid id placeholder literate: " +:+ idStr)))
          end
        else
          Returned (idStr, id, numInput,
                    Some (errorString ("invalid id literate: " +:+ idStr)))
    | None => Returned (idStr, id, numInput, None)
    end.

(** [parse]: the statement as [parse] leaves it and the error returned. *)
Definition parse (s : t) : outcome (t * option error) :=
  match parseId (idStr s) (id s) 1 with
  | Panicked p => Panicked p
  | Returned (idStr', id', numInput', err) =>
      Returned (mk numInput' (dbName s) (collName s) idStr' id', err)
  end.

(** [Query] *)
Definition Query (s : t) (args : list GoValue) : option unit * option error :=
  (None, Some (errorString "this operation is not supported, please use exec")).

End StmtDelete.

Module StmtUpdate.
Section Exec.
Context {W : Type} (env : Env W).

Record t := mk {
  numInput : Z;
  dbName : string;
  collName : string;
  updateStr : string;
  idStr : string;
  id : option placeholder;
  fields : list string;
  values : list StmtValue }.

(** [validate] *)
Definition validate (s : t) : option error :=
  if String.eqb (idStr s) "" then Some (errorString "id value is missing")
  else if len (fields s) =? 0 then
    Some (errorString "invalid query: SET clause is empty")
  else if negb (len (fields s) =? len (values s)) then
    Some (errorString
      ("number of field (" +:+ itoa (len (fields s)) +:+
       ") does not match number of input value (" +:+
       itoa (len (values s)) +:+ ")"))
  else None.

(** The loop [for i := 0; i < len(s.fields); i++] of [Exec]: it walks
    [s.fields] and [s.values] in step, [s.values[i]] panicking when the
    values run out first. [inl] is the early return of the guard. *)
Fixpoint overlay (fields : list string) (values : list StmtValue)
    (args : list GoValue) (data : DocInfo) : outcome (error + DocInfo) :=
  match fields with
  | [] => Returned (inr data)
  | f :: fields' =>
      match values with
      | [] => Panicked IndexOutOfRange
      | VPlaceholder ph :: values' =>
          if invalid_index ph args then Returned (inl (errInvalidValueIndex ph))
          else match index args (ph_index ph - 1) with
               | Some a => overlay fields' values' args (<[f := a]> data)
               | None => Panicked IndexOutOfRange
               end
      | VLiteral v :: values' => overlay fields' values' args (<[f := v]> data)
      end
  end.

(** The second phase of [Exec], after a fetch without error. *)
Definition replacePhase (s : t) (args : list GoValue) (pk : GoValue)
    (getDocResult : RespDoc.t) (w1 : W) (log : list Call)
    : Run W (ExecResult ResultUpdate.t) :=
  let etag := Etag env (RespDoc.DocInfo getDocResult) in
  match overlay (fields s) (values s) args
          (RemoveSystemAttrs env (RespDoc.DocInfo getDocResult)) with
  | Panicked p => mkRun (Panicked p) w1 log
  | Returned (inl e) => mkRun (Returned (None, Some e)) w1 log
  | Returned (inr data) =>
      let spec := DocumentSpec.mk (dbName s) (collName s) false [pk] data in
      let '(resp, w2) := ReplaceDocument (restClient env) etag spec w1 in
      let log' := log ++ [CallReplaceDocument etag spec] in
      let err := RespDoc.Error resp in
      let result := ResultUpdate.mk (bool_decide (err = None)) in
      let err' :=
        if RespDoc.StatusCode resp =? 403 then Returned (Some ErrForbidden)
        else if RespDoc.StatusCode resp =? 404 then on404 err
        else if RespDoc.StatusCode resp =? 409 then Returned (Some ErrConflict)
        else if RespDoc.StatusCode resp =? 412 then Returned None
        else Returned (liftErr err) in
      match err' with
      | Panicked p => mkRun (Panicked p) w2 log'
      | Returned e => mkRun (Returned (Some result, e)) w2 log'
      end
  end.

(** [Exec] *)
Definition Exec (s : t) (args : list GoValue) (w : W)
    : Run W (ExecResult ResultUpdate.t) :=
  match resolveId env (idStr s) (id s) args with
  | inl e => mkRun (Returned (None, Some e)) w []
  | inr (Panicked p) => mkRun (Panicked p) w []
  | inr (Returned docId) =>
      match index args (len args - 1) with
      | None => mkRun (Panicked IndexOutOfRange) w []
      | Some pk =>
          let docReq := DocReq.mk (dbName s) (collName s) docId [pk] in
          let '(getDocResult, w1) := GetDocument (restClient env) docReq w in
          let log := [CallGetDocument docReq] in
          match RespDoc.Error getDocResult with
          | Some text =>
              if RespDoc.StatusCode getDocResult =? 404 then
                if Str.Contains text docMarker then
                  mkRun (Returned (Some (ResultUpdate.mk false), None)) w1 log
                else mkRun (Returned (None, Some ErrNotFound)) w1 log
              else mkRun (Returned (None, Some (transportError text))) w1 log
          | None => replacePhase s args pk getDocResult w1 log
          end
      end
  end.

End Exec.

(** [_parseId] *)
Definition _parseId (s : t) : outcome (t * option error) :=
  match StmtDelete.parseId (idStr s) (id s) (numInput s) with
  | Panicked p => Panicked p
  | Returned (idStr', id', numInput', err) =>
      Returned (mk numInput' (dbName s) (collName s) (updateStr s) idStr' id'
                  (fields s) (values s), err)
  end.

(** The loop of [_parseUpdateClause]; [temp] is trimmed on entry of every
    round. A round reads a field name and a value. Where the field pattern
    has no match at all in [temp], the error branch indexes the nil [loc]
    and panics. [None] is a run out of fuel; the state at an error is the
    state the function leaves. The line the function prints to the
    standard output when a quoted value cannot be unquoted is left out. *)
Fixpoint parseClause (fuel : nat) (temp : string) (fields : list string)
    (values : list StmtValue) (numInput : Z)
    : option (outcome (list string * list StmtValue * Z * option error)) :=
  match fuel with
  | O => None
  | S fuel' =>
      match temp with
      | EmptyString => Some (Returned (fields, values, numInput, None))
      | _ =>
          match FindStringIndex reFieldPart temp with
          | None => Some (Panicked IndexOutOfRange)
          | Some (S lo, hi) =>
              Some (Returned (fields, values, numInput,
                      Some (errorString ("(field) cannot parse query, invalid token at: "
                                         +:+ Str.slice temp (S lo) hi))))
          | Some (O, hi) =>
              let field := Str.TrimFunc spaceOrEquals (Str.slice temp 0 hi) in
              let fields := fields ++ [field] in
              let temp := Str.TrimSpace (Str.drop hi temp) in
              match Lexer.lexValue temp with
              | Lexer.LexPlaceholder ph rest =>
                  parseClause fuel' (Str.TrimSpace rest) fields
                    (values ++ [VPlaceholder ph]) (numInput + 1)
              | Lexer.LexLiteral v rest =>
                  parseClause fuel' (Str.TrimSpace rest) fields
                    (values ++ [VLiteral v]) numInput
              | Lexer.LexError e => Some (Returned (fields, values, numInput, Some e))
              end
          end
      end
  end.

(** [_parseUpdateClause] *)
Definition _parseUpdateClause (s : t) : option (outcome (t * option error)) :=
  let temp := Str.TrimSpace (updateStr s) in
  match parseClause (S (String.length temp)) temp [] [] (numInput s) with
  | None => None
  | Some (Panicked p) => Some (Panicked p)
  | Some (Returned (fields', values', numInput', err)) =>
      Some (Returned (mk numInput' (dbName s) (collName s) (updateStr s) (idStr s)
                        (id s) fields' values', err))
  end.

(** [parse] *)
Definition parse (s : t) : option (outcome (t * option error)) :=
  let s1 := mk 1 (dbName s) (collName s) (updateStr s) (idStr s) (id s)
              (fields s) (values s) in
  match _parseId s1 with
  | Panicked p => Some (Panicked p)
  | Returned (s2, Some e) => Some (Returned (s2, Some e))
  | Returned (s2, None) => _parseUpdateClause s2
  end.

(** [Query] *)
Definition Query (s : t) (args : list GoValue) : option unit * option error :=
  (None, Some (errorString "this operation is not supported, please use exec")).

End StmtUpdate.


(** ** INSERT *)

Module ResultInsert.
Record t := mk { Successful : bool; InsertId : string }.

(** [LastInsertId] *)
Definition LastInsertId (r : t) : Z * option error :=
  (0, Some (errorString
              ("this operation is not supported. {LastInsertId:" +:+ InsertId r +:+ "}"))).

(** [RowsAffected] *)
Definition RowsAffected (r : t) : Z * option error :=
  if Successful r then (1, None) else (0, None).
End ResultInsert.

Module StmtInsert.

Record t := mk {
  numInput : Z;
  dbName : string;
  collName : string;
  isUpsert : bool;
  fieldsStr : string;
  valuesStr : string;
  fields : list string;
  values : list StmtValue }.

(** The loop of [parse] over the value list; [temp] is trimmed on entry of
    every round. Every round consumes at least one byte of [temp], so
    [fuel] beyond the length of the text is never used up; [None] is a run
    out of fuel. The state at an error is the state [parse] leaves. *)
Fixpoint lexValues (fuel : nat) (temp : string) (values : list StmtValue)
    (numInput : Z) : option (list StmtValue * Z * option error) :=
  match fuel with
  | O => None
  | S fuel' =>
      match temp with
      | EmptyString => Some (values, numInput, None)
      | _ =>
          match Lexer.lexValue temp with
          | Lexer.LexPlaceholder ph rest =>
              lexValues fuel' (Str.TrimSpace rest) (values ++ [VPlaceholder ph])
                (numInput + 1)
          | Lexer.LexLiteral v rest =>
              lexValues fuel' (Str.TrimSpace rest) (values ++ [VLiteral v]) numInput
          | Lexer.LexError e => Some (values, numInput, Some e)
          end
      end
  end.

(** [parse] *)
Definition parse (s : t) : option (t * option error) :=
  let fields := Split reFieldSep (fieldsStr s) in
  let temp := Str.TrimSpace (valuesStr s) in
  match lexValues (S (String.length temp)) temp [] 1 with
  | None => None
  | Some (values, numInput, err) =>
      Some (mk numInput (dbName s) (collName s) (isUpsert s) (fieldsStr s)
              (valuesStr s) fields values, err)
  end.

(** [validate] *)
Definition validate (s : t) : option error :=
  if negb (len (fields s) =? len (values s)) then
    Some (errorString
      ("number of field (" +:+ itoa (len (fields s)) +:+
       ") does not match number of input value (" +:+
       itoa (len (values s)) +:+ ")"))
  else None.

Section Exec.
Context {W : Type} (env : Env W).

(** [Exec]. The loop over the fields is, word for word, the loop of the
    UPDATE executor, here on an empty document. *)
Definition Exec (s : t) (args : list GoValue) (w : W)
    : Run W (ExecResult ResultInsert.t) :=
  match index args (numInput s - 1) with
  | None => mkRun (Panicked IndexOutOfRange) w []
  | Some pk =>
      match StmtUpdate.overlay (fields s) (values s) args ∅ with
      | Panicked p => mkRun (Panicked p) w []
      | Returned (inl e) => mkRun (Returned (None, Some e)) w []
      | Returned (inr data) =>
          let spec := DocumentSpec.mk (dbName s) (collName s) (isUpsert s) [pk] data in
          let '(restResult, w1) := CreateDocument (restClient env) spec w in
          let insertId :=
            match RespDoc.DocInfo restResult with
            | Some info =>
                match info !! "_rid" with
                | Some (GString rid) => rid
                | _ => EmptyString
                end
            | None => EmptyString
            end in
          let result :=
            ResultInsert.mk (bool_decide (RespDoc.Error restResult = None)) insertId in
          let err :=
            if RespDoc.StatusCode restResult =? 403 then Some ErrForbidden
            else if RespDoc.StatusCode restResult =? 404 then Some ErrNotFound
            else if RespDoc.StatusCode restResult =? 409 then Some ErrConflict
            else liftErr (RespDoc.Error restResult) in
          mkRun (Returned (Some result, err)) w1 [CallCreateDocument spec]
      end
  end.

End Exec.

(** [Query] *)
Definition Query (s : t) (args : list GoValue) : option unit * option error :=
  (None, Some (errorString "this operation is not supported, please use exec")).

End StmtInsert.

(** ** SELECT *)

Definition EOF : error := errorString "EOF".

Module ResultSelect.

Record t := mk {
  count : Z;
  documents : list DocInfo;
  cursorCount : Z;
  columnList : list string }.

(** [Columns] *)
Definition Columns (r : t) : list string := columnList r.

(** [Close] *)
Definition Close (r : t) : option error := None.

(** The loop [for i, colName := range r.columnList] of [Next]; the
    assignment to [dest[i]] panics beyond the end of [dest]. A column the
    document lacks reads as nil. *)
Fixpoint fill (cols : list string) (i : nat) (rowData : DocInfo)
    (dest : list GoValue) : outcome unit * list GoValue :=
  match cols with
  | [] => (Returned tt, dest)
  | colName :: cols' =>
      if (i <? length dest)%nat then
        fill cols' (S i) rowData (<[i := default GNil (rowData !! colName)]> dest)
      else (Panicked IndexOutOfRange, dest)
  end.

(** [Next]: the error returned (or the panic), the cursor and [dest]
    afterwards. *)
Definition Next (r : t) (dest : list GoValue)
    : outcome (option error) * t * list GoValue :=
  if cursorCount r >=? count r then (Returned (Some EOF), r, dest)
  else
    match index (documents r) (cursorCount r) with
    | None => (Panicked IndexOutOfRange, r, dest)
    | Some rowData =>
        let r' := mk (count r) (documents r) (cursorCount r + 1) (columnList r) in
        match fill (columnList r) O rowData dest with
        | (Returned _, dest') => (Returned None, r', dest')
        | (Panicked p, dest') => (Panicked p, r', dest')
        end
    end.

End ResultSelect.

Module StmtSelect.

Record t := mk {
  numInput : Z;
  withOpts : gmap string string;
  isCrossPartition : bool;
  dbName : string;
  collName : string;
  selectQuery : string;
  placeholders : gmap Z string }.

Definition errCrossPartition (v : string) : error :=
  errorString
    ("cannot parse query (the only accepted value for cross_partition is true), invalid token at: "
     +:+ v).

Definition errInvalidToken (tok : string) : error :=
  errorString ("cannot parse query, invalid token at: " +:+ tok).

(** [match[i]] of a match of [FindAllStringSubmatch] *)
Definition sub (m : list string) (i : nat) : string := nth i m EmptyString.

(** The replacement of a placeholder: [@_<n>], followed by a space when the
    matched text ends with one. *)
Definition paramName (m : list string) : string := "@_" +:+ sub m 1.
Definition replacement (m : list string) : string :=
  if Str.HasSuffix (sub m 0) " " then paramName m +:+ " " else paramName m.

(** The loop [for _, match := range matches] of [parse]: the query text
    and the placeholders after it, and the error of the early return. *)
Fixpoint rewrite (matches : list (list string)) (query : string)
    (phs : gmap Z string) : string * gmap Z string * option error :=
  match matches with
  | [] => (query, phs, None)
  | m :: matches' =>
      match strconv.Atoi (sub m 1) with
      | (v, None) =>
          rewrite matches' (Str.ReplaceAll query (sub m 0) (replacement m))
            (<[v := paramName m]> phs)
      | (_, Some _) => (query, phs, Some (errInvalidToken (sub m 0)))
      end
  end.

Section Parse.

(** [Stmt.parseWithOpts] is declared with the statements' common part: it
    fills [s.withOpts] from the WITH clauses, or reports an error. *)
Variable parseWithOpts : string -> gmap string string * option error.

(** [parse]: the statement as [parse] leaves it, and the error returned. *)
Definition parse (s : t) (withOptsStr : string) : t * option error :=
  let '(opts, err) := parseWithOpts withOptsStr in
  match err with
  | Some e =>
      (mk (numInput s) opts (isCrossPartition s) (dbName s) (collName s)
          (selectQuery s) (placeholders s), Some e)
  | None =>
      let db :=
        match opts !! "DATABASE" with
        | Some v => Str.TrimSpace v
        | None =>
            match opts !! "DB" with
            | Some v => Str.TrimSpace v
            | None => dbName s
            end
        end in
      let coll :=
        match opts !! "COLLECTION" with
        | Some v => Str.TrimSpace v
        | None =>
            match opts !! "TABLE" with
            | Some v => Str.TrimSpace v
            | None => collName s
            end
        end in
      let cross : error + bool :=
        match opts !! "CROSS_PARTITION" with
        | Some v =>
            if negb (isCrossPartition s) then
              match strconv.ParseBool v with
              | (true, None) => inr true
              | _ => inl (errCrossPartition v)
              end
            else inr (isCrossPartition s)
        | None => inr (isCrossPartition s)
        end in
      match cross with
      | inl e =>
          (mk (numInput s) opts (isCrossPartition s) db coll (selectQuery s)
              (placeholders s), Some e)
      | inr isCross =>
          let matches := FindAllStringSubmatch reValPlaceholder (selectQuery s) in
          let '(query, phs, err) := rewrite matches (selectQuery s) ∅ in
          (mk (len matches) opts isCross db coll query phs, err)
      end
  end.

End Parse.

(** [validate] *)
Definition validate (s : t) : option error :=
  if String.eqb (dbName s) "" || String.eqb (collName s) ""
  then Some (errorString "database or collection is not specified")
  else None.

Definition errNoPlaceholder (i : Z) : error :=
  errorString ("there is placeholder number " +:+ itoa i).

(** The loop [for i, arg := range args] of [Query]; [i] is the index of
    the head of [args]. *)
Fixpoint bindParams (phs : gmap Z string) (i : Z) (args : list GoValue)
    (params : list GoValue) : error + list GoValue :=
  match args with
  | [] => inr params
  | arg :: args' =>
      match phs !! (i + 1) with
      | None => inl (errNoPlaceholder (i + 1))
      | Some v =>
          bindParams phs (i + 1) args'
            (params ++ [GMap (<["name" := GString v]> (<["value" := arg]> ∅))])
      end
  end.

(** [sort.Strings] of the keys of a document *)
Definition sortedKeys (doc : DocInfo) : list string :=
  merge_sort String.le (fst <$> map_to_list doc).

Section Query.
Context {W : Type} (env : Env W).

(** The paging loop of [Query], entered with the response to the query
    issued last. It ends at a response with an error or with an empty
    continuation token; nothing bounds the number of rounds, and [None] is
    a run that has not ended within [fuel] further calls. *)
Fixpoint fetchPages (fuel : nat) (query : QueryReq.t) (documents : list DocInfo)
    (restResult : RespQueryDocs.t) (w : W) (log : list Call)
    : option (RespQueryDocs.t * list DocInfo * W * list Call) :=
  match RespQueryDocs.Error restResult with
  | Some _ => Some (restResult, documents, w, log)
  | None =>
      let documents := documents ++ RespQueryDocs.Documents restResult in
      if String.eqb (RespQueryDocs.ContinuationToken restResult) "" then
        Some (restResult, documents, w, log)
      else
        match fuel with
        | O => None
        | S fuel' =>
            let query :=
              QueryReq.with_ContinuationToken query
                (RespQueryDocs.ContinuationToken restResult) in
            let '(restResult, w) := QueryDocuments (restClient env) query w in
            fetchPages fuel' query documents restResult w (log ++ [CallQueryDocuments query])
        end
  end.

(** [Query] *)
Definition Query (fuel : nat) (s : t) (args : list GoValue) (w : W)
    : option (Run W (option ResultSelect.t * option error)) :=
  match bindParams (placeholders s) 0 args [] with
  | inl e => Some (mkRun (Returned (None, Some e)) w [])
  | inr params =>
      let query :=
        QueryReq.mk (dbName s) (collName s) (selectQuery s) params
          (isCrossPartition s) "" in
      let '(first, w1) := QueryDocuments (restClient env) query w in
      match fetchPages fuel query [] first w1 [CallQueryDocuments query] with
      | None => None
      | Some (restResult, documents, w2, log) =>
          let err := liftErr (RespQueryDocs.Error restResult) in
          let rows :=
            match err with
            | None =>
                Some (ResultSelect.mk (RespQueryDocs.Count restResult) documents 0
                        match documents with
                        | doc :: _ => sortedKeys doc
                        | [] => []
                        end)
            | Some _ => None
            end in
          let err :=
            if RespQueryDocs.StatusCode restResult =? 403 then Some ErrForbidden
            else if RespQueryDocs.StatusCode restResult =? 404 then Some ErrNotFound
            else if RespQueryDocs.StatusCode restResult =? 409 then Some ErrConflict
            else err in
          Some (mkRun (Returned (rows, err)) w2 log)
      end
  end.

End Query.

(** [Exec] *)
Definition Exec (s : t) (args : list GoValue) : option unit * option error :=
  (None, Some (errorString "this operation is not supported, please use query")).

End StmtSelect.

(** ** Test doubles for the REST client *)

Module Stub.

(** A response without error, and one with an error and its status. *)
Definition ok204 : RespDoc.t := RespDoc.mk None 204 None.

Definition failed (status : Z) (text : string) : RespDoc.t :=
  RespDoc.mk (Some text) status None.

(** The answer to a query beyond the end of the script. *)
Definition queryFailed : RespQueryDocs.t :=
  RespQueryDocs.mk (Some "no more responses") 500 0 [] "".

(** A client that answers every document call with a fixed response and
    the queries with the responses of a script, in order. *)
Definition scripted (del get rep : RespDoc.t) : RestClient (list RespQueryDocs.t) :=
  {| CreateDocument := fun _ w => (ok204, w);
     DeleteDocument := fun _ w => (del, w);
     GetDocument := fun _ w => (get, w);
     ReplaceDocument := fun _ _ w => (rep, w);
     QueryDocuments := fun _ w =>
       match w with
       | r :: w' => (r, w')
       | [] => (queryFailed, [])
       end |}.

(** Error texts of the service for a missing document and for a missing
    collection. *)
Definition docNotFoundText : string :=
  "error executing Azure CosmosDB command; StatusCode=404;Body=Entity with the specified id does not exist in the system. ResourceType: Document".

Definition collNotFoundText : string :=
  "error executing Azure CosmosDB command; StatusCode=404;Body=Owner resource does not exist. ResourceType: Collection".

(** A remote collection that holds the ids of its documents in its state:
    deleting a document that is there removes it, deleting one that is not
    there is answered with 404 and the document marker. *)
Definition store : RestClient (list string) :=
  {| CreateDocument := fun _ w => (ok204, w);
     DeleteDocument := fun r w =>
       if existsb (String.eqb (DocReq.DocId r)) w
       then (ok204, List.filter (fun i => negb (String.eqb (DocReq.DocId r) i)) w)
       else (failed 404 docNotFoundText, w);
     GetDocument := fun _ w => (failed 404 docNotFoundText, w);
     ReplaceDocument := fun _ _ w => (ok204, w);
     QueryDocuments := fun _ w => (queryFailed, w) |}.

(** Stand-ins for [fmt.Sprintf("%s", v)] and for the two methods of
    [DocInfo]. A string and a byte slice print as they are; nil, a
    boolean and an integer print with the marker of a wrong verb, as in
    Go. The digits of a float and the elements of a slice or a map are
    not printed: [?] stands for them, and no run below binds such a value
    to an id. *)
Definition sprint (v : GoValue) : string :=
  match v with
  | GString s | GBytes s => s
  | GNil => "%!s(<nil>)"
  | GBool true => "%!s(bool=true)"
  | GBool false => "%!s(bool=false)"
  | GInt64 n => "%!s(int64=" +:+ itoa n +:+ ")"
  | _ => "%!s(?)"
  end.

Definition env {W} (c : RestClient W) : Env W :=
  {| restClient := c;
     Sprintf_s := sprint;
     Etag := fun d =>
       match d with
       | Some m => match m !! "_etag" with Some (GString e) => e | _ => "" end
       | None => ""
       end;
     RemoveSystemAttrs := fun d =>
       match d with
       | Some m => filter (fun kv => negb (Str.HasPrefix (fst kv) "_")) m
       | None => ∅
       end |}.

End Stub.

(** ** Statements about placeholders out of range *)

Definition isInvalidValue (args : list GoValue) (v : StmtValue) : bool :=
  match v with
  | VPlaceholder ph => invalid_index ph args
  | VLiteral _ => false
  end.

(** The placeholder of the id is out of range for [args]. *)
Definition idInvalid (s : StmtUpdate.t) (args : list GoValue) : bool :=
  match StmtUpdate.id s with
  | Some ph => invalid_index ph args
  | None => false
  end.

(** Some placeholder of the SET clause is out of range for [args]. *)
Definition setInvalid (s : StmtUpdate.t) (args : list GoValue) : bool :=
  existsb (isInvalidValue args) (StmtUpdate.values s).

(** The first placeholder of [values], in the order of the list, that is
    out of range for [args]. *)
Definition firstInvalid (args : list GoValue) (values : list StmtValue)
    : option placeholder :=
  match List.find (isInvalidValue args) values with
  | Some (VPlaceholder ph) => Some ph
  | _ => None
  end.

(** ** Statements about paging and the cursor *)

(** A page that is followed by another one. *)
Definition morePages (p : RespQueryDocs.t) : Prop :=
  RespQueryDocs.Error p = None /\ RespQueryDocs.ContinuationToken p <> "".

(** A page at which the paging ends: it comes with an error, or without
    a continuation token. *)
Definition lastPage (p : RespQueryDocs.t) : Prop :=
  RespQueryDocs.Error p <> None \/ RespQueryDocs.ContinuationToken p = "".

(** The query of a statement, with its bound parameters, that carries the
    continuation token [token]. *)
Definition pageQuery (s : StmtSelect.t) (params : list GoValue) (token : string)
    : QueryReq.t :=
  QueryReq.mk (StmtSelect.dbName s) (StmtSelect.collName s) (StmtSelect.selectQuery s)
    params (StmtSelect.isCrossPartition s) token.

(** The client answers the query [q token] with the first of [pages], the
    query that carries the continuation token of that page with the
    second, and so on. *)
Fixpoint answers {W} (rc : RestClient W) (q : string -> QueryReq.t) (w : W)
    (token : string) (pages : list RespQueryDocs.t) : Prop :=
  match pages with
  | [] => True
  | p :: rest =>
      fst (QueryDocuments rc (q token) w) = p /\
      answers rc q (snd (QueryDocuments rc (q token) w))
        (RespQueryDocs.ContinuationToken p) rest
  end.

(** The error [Query] returns after the response [p]. *)
Definition queryError (p : RespQueryDocs.t) : option error :=
  if RespQueryDocs.StatusCode p =? 403 then Some ErrForbidden
  else if RespQueryDocs.StatusCode p =? 404 then Some ErrNotFound
  else if RespQueryDocs.StatusCode p =? 409 then Some ErrConflict
  else liftErr (RespQueryDocs.Error p).

(** The rows [Query] returns after the last response [p], with the
    documents [documents] gathered. *)
Definition queryRows (p : RespQueryDocs.t) (documents : list DocInfo)
    : option ResultSelect.t :=
  match RespQueryDocs.Error p with
  | None =>
      Some (ResultSelect.mk (RespQueryDocs.Count p) documents 0
              match documents with
              | doc :: _ => StmtSelect.sortedKeys doc
              | [] => []
              end)
  | Some _ => None
  end.

(** The query [Query] builds for a statement and its bound parameters. *)
Definition firstQuery (s : StmtSelect.t) (params : list GoValue) : QueryReq.t :=
  QueryReq.mk (StmtSelect.dbName s) (StmtSelect.collName s) (StmtSelect.selectQuery s)
    params (StmtSelect.isCrossPartition s) "".

(** [n] calls of [Next] in a row that each hand out a row: the cursor and
    [dest] after them. *)
Fixpoint pull (n : nat) (r : ResultSelect.t) (dest : list GoValue)
    : option (ResultSelect.t * list GoValue) :=
  match n with
  | O => Some (r, dest)
  | S n' =>
      match ResultSelect.Next r dest with
      | (Returned None, r', dest') => pull n' r' dest'
      | _ => None
      end
  end.

(** The placeholder indexes of the matches of a query body, in order. *)
Definition indexesOf (matches : list (list string)) : list Z :=
  List.map (fun m => fst (strconv.Atoi (StmtSelect.sub m 1))) matches.

(** ** Statements about parsing *)

(** The values [strconv.ParseBool] reads as true. *)
Definition readsAsTrue : list string := ["1"; "t"; "T"; "TRUE"; "true"; "True"].

(** The placeholder scan of [parse] on a query body: text, placeholders and
    error after the loop. *)
Definition rewritten (query : string) : string * gmap Z string * option error :=
  StmtSelect.rewrite (FindAllStringSubmatch reValPlaceholder query) query ∅.

(** [@_(\d+)]: a parameter of the rewritten query, with its number *)
Definition reParam : regex :=
  Seq (chr "@") (Seq (chr "_") (Group 1 (Plus true (Class isDigit)))).

(** The numbers of the parameters [@_<n>] that occur in a query text. *)
Definition paramNumbers (query : string) : list string :=
  List.map (fun m => StmtSelect.sub m 1) (FindAllStringSubmatch reParam query).

(** The values (and the error) the INSERT parser makes of a value list. *)
Definition lexedValues (valuesStr : string) : option (list StmtValue * option error) :=
  match StmtInsert.parse (StmtInsert.mk 0 "" "" false "" valuesStr [] []) with
  | Some (s, err) => Some (StmtInsert.values s, err)
  | None => None
  end.

(** [s] between double quotes *)
Definition quoted (s : string) : string := String dquote (s +:+ String dquote "").

(** [s] with a backslash before it *)
Definition escaped (s : string) : string := String backslash s.

(** ** Concrete runs *)

Module Runs.

(** [UPDATE db1.coll1 SET a=:5 WHERE id=doc1], run with one argument. *)
Definition updateStmt : StmtUpdate.t :=
  StmtUpdate.mk 2 "db1" "coll1" "a=:5" "doc1" None ["a"]
    [VPlaceholder {| ph_index := 5 |}].

Definition updateArgs : list GoValue := [GString "pk1"].

(** [UPDATE db1.coll1 SET a=:1, b=:7, c=:5 WHERE id=doc1], run with three
    arguments. *)
Definition updateThree : StmtUpdate.t :=
  StmtUpdate.mk 4 "db1" "coll1" "a=:1, b=:7, c=:5" "doc1" None ["a"; "b"; "c"]
    [VPlaceholder {| ph_index := 1 |}; VPlaceholder {| ph_index := 7 |};
     VPlaceholder {| ph_index := 5 |}].

Definition threeArgs : list GoValue := [GString "x"; GString "y"; GString "pk1"].

(** [UPDATE db1.coll1 SET a="x" WHERE id=:3] *)
Definition updateById : StmtUpdate.t :=
  StmtUpdate.mk 2 "db1" "coll1" "a=x" ":3" (Some {| ph_index := 3 |}) ["a"]
    [VLiteral (GString "x")].

(** The document as the fetch returns it. *)
Definition fetched : RespDoc.t :=
  RespDoc.mk None 200 (Some (<["_etag" := GString "W/abc"]> (<["id" := GString "doc1"]> ∅))).

(** Clients whose fetch finds the document, and does not find it. *)
Definition fetchOk : Env (list RespQueryDocs.t) :=
  Stub.env (Stub.scripted Stub.ok204 fetched Stub.ok204).

Definition fetchMissing : Env (list RespQueryDocs.t) :=
  Stub.env (Stub.scripted Stub.ok204 (Stub.failed 404 Stub.docNotFoundText) Stub.ok204).

(** [UPDATE db1.coll1 SET a="x" WHERE id=doc1] against a document that
    changed since the fetch: the replace is answered with 412. *)
Definition updateLiteral : StmtUpdate.t :=
  StmtUpdate.mk 1 "db1" "coll1" "a=x" "doc1" None ["a"] [VLiteral (GString "x")].

(** A client whose replace call is answered with [rep]. *)
Definition replaceAnswers (rep : RespDoc.t) : Env (list RespQueryDocs.t) :=
  Stub.env (Stub.scripted Stub.ok204 fetched rep).

(** The document the replace call of [updateLiteral] carries. *)
Definition replacedData : DocInfo :=
  <["a" := GString "x"]> (RemoveSystemAttrs fetchOk (RespDoc.DocInfo fetched)).

(** [DELETE FROM db1.coll1 WHERE id=doc1] *)
Definition deleteStmt : StmtDelete.t := StmtDelete.mk 1 "db1" "coll1" "doc1" None.

(** The reference to the document [doc1] under the partition key [pk1]. *)
Definition deleteReq : DocReq.t := DocReq.mk "db1" "coll1" "doc1" [GString "pk1"].

Definition storeEnv : Env (list string) := Stub.env Stub.store.

(** A client whose delete call is answered with [del]. *)
Definition deleteAnswers (del : RespDoc.t) : Env (list RespQueryDocs.t) :=
  Stub.env (Stub.scripted del fetched Stub.ok204).

(** SELECT statements, as they are before [parse]. *)
Definition selectStmt (query : string) : StmtSelect.t :=
  StmtSelect.mk 0 ∅ false "db1" "coll1" query ∅.

(** Results of [parseWithOpts]: no option, and cross_partition with the
    value [v]. *)
Definition noOpts : string -> gmap string string * option error :=
  fun _ => (∅, None).

Definition crossPartitionIs (v : string) : string -> gmap string string * option error :=
  fun _ => ({["CROSS_PARTITION" := v]}, None).

(** Documents and pages of query results. *)
Definition doc (id : string) : DocInfo := {["id" := GString id]}.

Definition page (docs : list DocInfo) (count : Z) (token : string) : RespQueryDocs.t :=
  RespQueryDocs.mk None 200 count docs token.

Definition queryEnv : Env (list RespQueryDocs.t) :=
  Stub.env (Stub.scripted Stub.ok204 fetched Stub.ok204).

(** The statement [parse] makes of [SELECT * FROM c WHERE c.k=$1]. *)
Definition selectOne : StmtSelect.t :=
  StmtSelect.mk 1 ∅ false "db1" "coll1" "SELECT * FROM c WHERE c.k=@_1" {[1 := "@_1"]}.

(** The statement [parse] makes of
    [SELECT * FROM c WHERE c.a=$1 AND c.b=$1]. *)
Definition selectTwice : StmtSelect.t :=
  StmtSelect.mk 2 ∅ false "db1" "coll1" "SELECT * FROM c WHERE c.a=@_1 AND c.b=@_1"
    {[1 := "@_1"]}.

(** The parameters [Query] binds for [selectOne] and the argument [k1]. *)
Definition oneParam : list GoValue :=
  [GMap (<["name" := GString "@_1"]> (<["value" := GString "k1"]> ∅))].

(** Three pages of two documents and a last page without documents. *)
Definition fourPages : list RespQueryDocs.t :=
  [ page [doc "a"; doc "b"] 2 "t1"; page [doc "c"; doc "d"] 2 "t2";
    page [doc "e"; doc "f"] 2 "t3"; page [] 0 "" ].

(** One page whose [Count] is beyond its documents. *)
Definition countBeyond : list RespQueryDocs.t := [page [doc "a"] 2 ""].

(** The statement [parse] makes of [SELECT * FROM c]. *)
Definition selectAll : StmtSelect.t :=
  StmtSelect.mk 0 ∅ false "db1" "coll1" "SELECT * FROM c" ∅.

End Runs.

(** ** Statements about the placeholder scan *)

(** The longest prefix of [s] whose bytes satisfy [f] is dropped. *)
Fixpoint dropWhile (f : ascii -> bool) (s : string) : string :=
  match s with
  | String a s' => if f a then dropWhile f s' else s
  | EmptyString => s
  end.

Fixpoint takeWhile (f : ascii -> bool) (s : string) : string :=
  match s with
  | String a s' => if f a then String a (takeWhile f s') else EmptyString
  | EmptyString => EmptyString
  end.

Fixpoint allb (f : ascii -> bool) (s : string) : bool :=
  match s with
  | String a s' => f a && allb f s'
  | EmptyString => true
  end.

(** A placeholder starts at the head of [s]: a sigil and a digit. *)
Definition isHead (s : string) : bool :=
  match s with
  | String a (String b _) => isSigil a && isDigit b
  | _ => false
  end.

(** A placeholder starts somewhere in [s]. *)
Fixpoint hasPlaceholder (s : string) : bool :=
  isHead s ||
  match s with
  | String _ s' => hasPlaceholder s'
  | EmptyString => false
  end.

Definition dropComma (s : string) : string :=
  match s with
  | String a s' => if Ascii.eqb a "," then s' else s
  | EmptyString => s
  end.

(** What is left of [s1] after the digits, the white space and the comma
    that the placeholder pattern takes behind a sigil. *)
Definition afterToken (s1 : string) : string :=
  dropComma (dropWhile isPerlSpace (dropWhile isDigit s1)).

(** The text the placeholder pattern matches at a head [String a s1]. *)
Definition tokenAt (s : string) : string :=
  match s with
  | String a s1 =>
      Str.take (String.length s - String.length (afterToken s1)) s
  | EmptyString => EmptyString
  end.

Definition digitsAt (s : string) : string :=
  match s with
  | String a s1 => takeWhile isDigit s1
  | EmptyString => EmptyString
  end.

Definition notSigil (a : ascii) : bool := negb (isSigil a).

(** The part of a placeholder token behind its sigil. *)
Definition commaAt (s : string) : string :=
  match s with
  | String a _ => if Ascii.eqb a "," then "," else ""
  | EmptyString => ""
  end.

Definition tokenTail (s1 : string) : string :=
  takeWhile isDigit s1 +:+
  (takeWhile isPerlSpace (dropWhile isDigit s1) +:+
   commaAt (dropWhile isPerlSpace (dropWhile isDigit s1))).

Definition prepend (a : ascii) (m : Submatch) : Submatch :=
  mkSubmatch (String a (sm_pre m)) (sm_text m) (sm_groups m) (sm_rest m).

(** What holds of every suffix of [s] that starts with a placeholder. *)
Fixpoint AllHeads (P : string -> Prop) (s : string) : Prop :=
  match s with
  | EmptyString => True
  | String _ s' => (isHead s = true -> P s) /\ AllHeads P s'
  end.

(** The shape of a match of the placeholder pattern: the text is a sigil
    and a tail without sigils, the group is made of digits. *)
Definition wfMatch (m : list string) : Prop :=
  exists a tail d,
    m = [String a tail; d] /\ isSigil a = true /\
    allb notSigil tail = true /\ allb isDigit d = true.

(** What is still to be rewritten: every head of the query opens with the
    text of one of the matches left. *)
Definition covered (ms : list (list string)) (u : string) : Prop :=
  exists m, In m ms /\ Str.HasPrefix u (StmtSelect.sub m 0) = true.


(** ** Patterns that cannot match the empty text *)

(** [r] can match the empty text. *)
Fixpoint nullable (r : regex) : bool :=
  match r with
  | Eps => true
  | Class _ => false
  | Seq r1 r2 => nullable r1 && nullable r2
  | Alt r1 r2 => nullable r1 || nullable r2
  | Star _ _ => true
  | Group _ r' => nullable r'
  end.

(** [rest] is what is left of [s] after some of its bytes. *)
Definition Suffix (rest s : string) : Prop := exists pre, s = pre +:+ rest.

(** The continuation of a pattern is entered on a suffix of the text only,
    a proper one when the pattern cannot match the empty text. *)
Definition entered (proper : bool) (s : string) (k : cont) (res : string * caps) : Prop :=
  exists s' c', Suffix s' s /\
    (proper = true -> (String.length s' < String.length s)%nat) /\
    k s' c' = Some res.

(** What the lexer leaves of a text, when it reads a value. *)
Definition restOf (l : Lexer.lexed) : option string :=
  match l with
  | Lexer.LexPlaceholder _ rest | Lexer.LexLiteral _ rest => Some rest
  | Lexer.LexError _ => None
  end.

(** ** Statements about the parsers *)

Definition isPlaceholder (v : StmtValue) : bool :=
  match v with VPlaceholder _ => true | VLiteral _ => false end.

(** The number of placeholders among the values of a statement. *)
Definition placeholdersIn (values : list StmtValue) : Z :=
  len (List.filter isPlaceholder values).

(** The inputs the id of a statement takes: one when it is a placeholder. *)
Definition idInputs (id : option placeholder) : Z :=
  match id with Some _ => 1 | None => 0 end.

(** The number a text of decimal digits writes. *)
Definition decimal (d : string) : Z :=
  fold_left (fun acc a => acc * 10 + (utf8.byte a - 48)) (list_ascii_of_string d) 0.

(** The value a statement value stands for under the arguments [args]. *)
Definition bound (args : list GoValue) (v : StmtValue) : option GoValue :=
  match v with
  | VLiteral x => Some x
  | VPlaceholder ph => index args (ph_index ph - 1)
  end.

(** The bytes that separate the fields of an INSERT: the class of
    [reFieldSep]. *)
Definition isSep (a : ascii) : bool := Ascii.eqb a "," || isPerlSpace a.

Definition notSep (a : ascii) : bool := negb (isSep a).

Definition notEquals (a : ascii) : bool := negb (Ascii.eqb a "=").

(** The error of an id that reads as a placeholder without being one *)
Definition errIdPlaceholder (idStr : string) : error :=
  errorString ("invalid id placeholder literate: " +:+ idStr).

(** The parameter [Query] makes of the placeholder name [v] and the
    argument [arg]. *)
Definition param (v : string) (arg : GoValue) : GoValue :=
  GMap (<["name" := GString v]> (<["value" := arg]> ∅)).

(** ** More concrete runs *)

Module Cases.

(** [INSERT INTO db1.coll1 (id, name, n) VALUES (:1, true, 2)], before and
    after [parse]. *)
Definition insertStmt : StmtInsert.t :=
  StmtInsert.mk 0 "db1" "coll1" false "id, name, n" ":1, true, 2" [] [].

Definition insertParsed : StmtInsert.t :=
  StmtInsert.mk 2 "db1" "coll1" false "id, name, n" ":1, true, 2" ["id"; "name"; "n"]
    [VPlaceholder {| ph_index := 1 |}; VLiteral (GBool true); VLiteral (GFloat64 2)].

Definition insertArgs : list GoValue := [GString "doc1"; GString "pk1"].

(** The document the call of [insertParsed] with [insertArgs] carries. *)
Definition insertSpec : DocumentSpec.t :=
  DocumentSpec.mk "db1" "coll1" false [GString "pk1"]
    (<["n" := GFloat64 2]> (<["name" := GBool true]> (<["id" := GString "doc1"]> ∅))).

(** [INSERT INTO db1.coll1 ( a, b) VALUES (1, 2)], before and after
    [parse]. *)
Definition insertLeading : StmtInsert.t :=
  StmtInsert.mk 0 "db1" "coll1" false " a, b" "1, 2" [] [].

Definition insertLeadingParsed : StmtInsert.t :=
  StmtInsert.mk 1 "db1" "coll1" false " a, b" "1, 2" [""; "a"; "b"]
    [VLiteral (GFloat64 1); VLiteral (GFloat64 2)].

(** [INSERT INTO db1.coll1 (id, n) VALUES (:7, :9)], as [parse] leaves
    it. *)
Definition insertBeyond : StmtInsert.t :=
  StmtInsert.mk 3 "db1" "coll1" false "id, n" ":7, :9" ["id"; "n"]
    [VPlaceholder {| ph_index := 7 |}; VPlaceholder {| ph_index := 9 |}].

(** [UPDATE db1.coll1 SET a = :2, b = true WHERE id=:1], before and after
    [parse]. *)
Definition updateStmt : StmtUpdate.t :=
  StmtUpdate.mk 0 "db1" "coll1" "a = :2, b = true" ":1" None [] [].

Definition updateParsed : StmtUpdate.t :=
  StmtUpdate.mk 3 "db1" "coll1" "a = :2, b = true" ":1" (Some {| ph_index := 1 |})
    ["a"; "b"] [VPlaceholder {| ph_index := 2 |}; VLiteral (GBool true)].

(** [UPDATE db1.coll1 SET a 1 WHERE id=doc1] *)
Definition updateNoEquals : StmtUpdate.t :=
  StmtUpdate.mk 1 "db1" "coll1" "a 1" "doc1" None [] [].

(** The reference and the replacement of [Runs.updateLiteral], run with
    the partition key [pk1] against [Runs.fetchOk]. *)
Definition updateReq : DocReq.t := DocReq.mk "db1" "coll1" "doc1" [GString "pk1"].

Definition updateSpec : DocumentSpec.t :=
  DocumentSpec.mk "db1" "coll1" false [GString "pk1"]
    (<["a" := GString "x"]> (<["id" := GString "doc1"]> ∅)).

(** A result of three documents whose count is two. *)
Definition row (id : string) (n : Z) : DocInfo :=
  <["n" := GInt64 n]> (<["id" := GString id]> ∅).

Definition rows : ResultSelect.t :=
  ResultSelect.mk 2 [row "a" 1; row "b" 2; row "c" 3] 0 ["id"; "n"].

Definition dest : list GoValue := [GNil; GNil; GString "kept"].

(** A service that answers every query with a page and a continuation
    token. *)
Definition endless : RestClient unit :=
  {| CreateDocument := fun _ w => (Stub.ok204, w);
     DeleteDocument := fun _ w => (Stub.ok204, w);
     GetDocument := fun _ w => (Stub.ok204, w);
     ReplaceDocument := fun _ _ w => (Stub.ok204, w);
     QueryDocuments := fun _ w => (Runs.page [Runs.doc "a"] 1 "next", w) |}.

(** One page of two documents with different fields. *)
Definition mixedPage : list RespQueryDocs.t :=
  [Runs.page [row "a" 1; Runs.doc "b"] 2 ""].

(** What [Query] makes of [Runs.selectAll] and [mixedPage]. *)
Definition mixedRows : ResultSelect.t :=
  ResultSelect.mk 2 [row "a" 1; Runs.doc "b"] 0 ["id"; "n"].

Definition mixedRun : Run (list RespQueryDocs.t) (option ResultSelect.t * option error) :=
  mkRun (Returned (Some mixedRows, None)) []
    [CallQueryDocuments (QueryReq.mk "db1" "coll1" "SELECT * FROM c" [] false "")].

(** [Runs.selectOne] with the argument [k1], answered with two pages. *)
Definition boundPages : list RespQueryDocs.t :=
  [Runs.page [Runs.doc "a"] 1 "t1"; Runs.page [Runs.doc "b"] 1 ""].

Definition boundQuery (token : string) : QueryReq.t :=
  QueryReq.mk "db1" "coll1" "SELECT * FROM c WHERE c.k=@_1" Runs.oneParam false token.

Definition boundRun : Run (list RespQueryDocs.t) (option ResultSelect.t * option error) :=
  mkRun (Returned (Some (ResultSelect.mk 1 [Runs.doc "a"; Runs.doc "b"] 0 ["id"]), None)) []
    [CallQueryDocuments (boundQuery ""); CallQueryDocuments (boundQuery "t1")].

End Cases.

(** * Properties *)

(** ** Strings *)

Lemma append_cons (a : ascii) (s t : string) :
  String a s +:+ t = String a (s +:+ t).
Proof. reflexivity. Qed.

Lemma append_nil_l (t : string) : "" +:+ t = t.
Proof. reflexivity. Qed.

Lemma app_assoc_s (x y z : string) : (x +:+ y) +:+ z = x +:+ (y +:+ z).
Proof. induction x as [|a x IH]; [reflexivity|]. rewrite !append_cons. simpl. f_equal. exact IH. Qed.

Lemma length_app_s (x y : string) :
  String.length (x +:+ y) = (String.length x + String.length y)%nat.
Proof. induction x as [|a x IH]; [reflexivity|]. rewrite !append_cons. simpl. f_equal. exact IH. Qed.

Lemma HasPrefix_app (p r : string) : Str.HasPrefix (p +:+ r) p = true.
Proof.
  induction p as [|a p IH]; [destruct r; reflexivity|].
  rewrite append_cons. simpl. rewrite Ascii.eqb_refl. exact IH.
Qed.

Lemma HasPrefix_split (s p : string) :
  Str.HasPrefix s p = true -> s = p +:+ Str.drop (String.length p) s.
Proof.
  revert s. induction p as [|a p IH]; intros s H; [reflexivity|].
  destruct s as [|b s]; [discriminate|]. simpl in H.
  destruct (Ascii.eqb_spec a b) as [->|]; [|discriminate].
  rewrite append_cons. simpl. f_equal. apply IH. exact H.
Qed.

Lemma take_app_length (x r : string) :
  Str.take (String.length (x +:+ r) - String.length r) (x +:+ r) = x.
Proof.
  rewrite length_app_s. replace (String.length x + String.length r - String.length r)%nat
    with (String.length x) by lia.
  induction x as [|a x IH]; [destruct r; reflexivity|].
  rewrite append_cons. simpl. f_equal. exact IH.
Qed.

Lemma takeWhile_dropWhile f s : takeWhile f s +:+ dropWhile f s = s.
Proof.
  induction s as [|a s IH]; [reflexivity|]. simpl. destruct (f a); [|reflexivity].
  rewrite append_cons. f_equal. exact IH.
Qed.

Lemma allb_takeWhile f s : allb f (takeWhile f s) = true.
Proof.
  induction s as [|a s IH]; [reflexivity|]. simpl. destruct (f a) eqn:H; [|reflexivity].
  simpl. rewrite H. exact IH.
Qed.

Lemma allb_app f x y : allb f (x +:+ y) = allb f x && allb f y.
Proof.
  induction x as [|a x IH]; [reflexivity|]. rewrite append_cons. simpl.
  rewrite IH. apply andb_assoc.
Qed.

Lemma allb_impl (f g : ascii -> bool) s :
  (forall a, f a = true -> g a = true) -> allb f s = true -> allb g s = true.
Proof.
  intros Hfg. induction s as [|a s IH]; [reflexivity|]. simpl.
  intros H. apply andb_true_iff in H as [Ha Hs]. rewrite (Hfg _ Ha), (IH Hs). reflexivity.
Qed.

Lemma length_dropWhile f s : (String.length (dropWhile f s) <= String.length s)%nat.
Proof. induction s as [|a s IH]; simpl; [lia|]. destruct (f a); simpl; lia. Qed.

(** ** DELETE and UPDATE: what the executors return *)

Section ExecProps.
Context {W : Type} (env : Env W).

(** When [Exec] of DELETE issues its call, it is the only call, and the
    outcome is read off the response. *)
Lemma delete_exec_call (s : StmtDelete.t) args w req :
  calls (StmtDelete.Exec env s args w) = [CallDeleteDocument req] ->
  let resp := fst (DeleteDocument (restClient env) req w) in
  value (StmtDelete.Exec env s args w) =
    match (if RespDoc.StatusCode resp =? 403 then Returned (Some ErrForbidden)
           else if RespDoc.StatusCode resp =? 404 then on404 (RespDoc.Error resp)
           else Returned (liftErr (RespDoc.Error resp))) with
    | Panicked p => Panicked p
    | Returned e =>
        Returned (Some (ResultDelete.mk (bool_decide (RespDoc.Error resp = None))
                          (RespDoc.StatusCode resp)), e)
    end.
Proof.
  unfold StmtDelete.Exec.
  destruct (resolveId env _ _ args) as [e|[docId|p]]; simpl; try discriminate.
  destruct (index args _) as [pk|]; simpl; try discriminate.
  destruct (DeleteDocument _ _ w) as [resp w1] eqn:Hcall.
  set (err' := if RespDoc.StatusCode resp =? 403 then _ else _).
  intros Hc.
  assert (Hreq : DocReq.mk (StmtDelete.dbName s) (StmtDelete.collName s) docId [pk] = req).
  { destruct err'; simpl in Hc; congruence. }
  rewrite <- Hreq, Hcall. simpl. fold err'. destruct err'; reflexivity.
Qed.

(** The error DELETE returns for a response with status 404 and an error
    text. *)
Lemma delete_exec_404 (s : StmtDelete.t) args w req text :
  calls (StmtDelete.Exec env s args w) = [CallDeleteDocument req] ->
  RespDoc.StatusCode (fst (DeleteDocument (restClient env) req w)) = 404 ->
  RespDoc.Error (fst (DeleteDocument (restClient env) req w)) = Some text ->
  value (StmtDelete.Exec env s args w) =
    Returned (Some (ResultDelete.mk false 404),
              if Str.Contains text docMarker then None else Some ErrNotFound).
Proof.
  intros Hc Hst Herr. rewrite (delete_exec_call _ _ _ _ Hc). simpl.
  rewrite Hst, Herr. simpl. destruct (Str.Contains text docMarker); reflexivity.
Qed.

Lemma index_valid (ph : placeholder) (args : list GoValue) :
  invalid_index ph args = false -> is_Some (index args (ph_index ph - 1)).
Proof.
  unfold invalid_index, index, len. intros H.
  apply orb_false_iff in H as [H1 H2].
  apply Z.leb_gt in H1. apply Z.geb_leb in H2 || idtac.
  assert (ph_index ph < Z.of_nat (length args)).
  { destruct (Z.geb_spec (ph_index ph) (Z.of_nat (length args))); [discriminate|lia]. }
  destruct (Z.ltb_spec (ph_index ph - 1) 0); [lia|].
  apply lookup_lt_is_Some_2. lia.
Qed.

Lemma index_last (args : list GoValue) :
  args <> [] -> is_Some (index args (len args - 1)).
Proof.
  intros Hne. unfold index, len. destruct args as [|a args]; [done|].
  destruct (Z.ltb_spec (Z.of_nat (length (a :: args)) - 1) 0) as [Hlt|_].
  - simpl length in Hlt. lia.
  - apply lookup_lt_is_Some_2. simpl length. lia.
Qed.

Lemma index_nil (i : Z) : index (@nil GoValue) i = None.
Proof. unfold index. destruct (i <? 0); reflexivity. Qed.

(** The first phase of UPDATE: a fetch that fails is the only call. *)
Lemma update_exec_fetch_failed (s : StmtUpdate.t) args w req text :
  calls (StmtUpdate.Exec env s args w) = [CallGetDocument req] ->
  RespDoc.Error (fst (GetDocument (restClient env) req w)) = Some text ->
  value (StmtUpdate.Exec env s args w) =
    if RespDoc.StatusCode (fst (GetDocument (restClient env) req w)) =? 404 then
      if Str.Contains text docMarker
      then Returned (Some (ResultUpdate.mk false), None)
      else Returned (None, Some ErrNotFound)
    else Returned (None, Some (transportError text)).
Proof.
  unfold StmtUpdate.Exec.
  destruct (resolveId env _ _ args) as [e|[docId|p]]; simpl; try discriminate.
  destruct (index args _) as [pk|]; simpl; try discriminate.
  destruct (GetDocument _ _ w) as [resp w1] eqn:Hcall.
  destruct (RespDoc.Error resp) as [text'|] eqn:Herr.
  - intros Hc Ht.
    assert (Hreq : DocReq.mk (StmtUpdate.dbName s) (StmtUpdate.collName s) docId [pk] = req).
    { destruct (RespDoc.StatusCode resp =? 404), (Str.Contains text' docMarker);
        simpl in Hc; congruence. }
    rewrite <- Hreq, Hcall in Ht |- *. simpl in Ht |- *.
    rewrite Herr in Ht. injection Ht as ->.
    destruct (RespDoc.StatusCode resp =? 404), (Str.Contains text docMarker); reflexivity.
  - intros Hc Ht.
    assert (Hreq : DocReq.mk (StmtUpdate.dbName s) (StmtUpdate.collName s) docId [pk] = req).
    { unfold StmtUpdate.replacePhase in Hc.
      destruct (StmtUpdate.overlay _ _ _ _) as [[e|data]|p]; simpl in Hc; try congruence.
      destruct (ReplaceDocument _ _ _ _) as [r2 w2].
      match type of Hc with context [match ?x with Panicked _ => _ | _ => _ end] =>
        destruct x end; simpl in Hc; congruence. }
    rewrite <- Hreq, Hcall in Ht. simpl in Ht. congruence.
Qed.

(** The second phase of UPDATE: when the replace call is issued, the
    outcome is read off its response. *)
Lemma update_exec_replaced (s : StmtUpdate.t) args w req etag spec :
  calls (StmtUpdate.Exec env s args w) =
    [CallGetDocument req; CallReplaceDocument etag spec] ->
  let w1 := snd (GetDocument (restClient env) req w) in
  let resp := fst (ReplaceDocument (restClient env) etag spec w1) in
  value (StmtUpdate.Exec env s args w) =
    match (if RespDoc.StatusCode resp =? 403 then Returned (Some ErrForbidden)
           else if RespDoc.StatusCode resp =? 404 then on404 (RespDoc.Error resp)
           else if RespDoc.StatusCode resp =? 409 then Returned (Some ErrConflict)
           else if RespDoc.StatusCode resp =? 412 then Returned None
           else Returned (liftErr (RespDoc.Error resp))) with
    | Panicked p => Panicked p
    | Returned e =>
        Returned (Some (ResultUpdate.mk (bool_decide (RespDoc.Error resp = None))), e)
    end.
Proof.
  unfold StmtUpdate.Exec.
  destruct (resolveId env _ _ args) as [e|[docId|p]]; simpl; try discriminate.
  destruct (index args _) as [pk|]; simpl; try discriminate.
  destruct (GetDocument _ _ w) as [gresp w1] eqn:Hget.
  destruct (RespDoc.Error gresp) as [text'|] eqn:Herr.
  { destruct (RespDoc.StatusCode gresp =? 404), (Str.Contains text' docMarker);
      simpl; discriminate. }
  unfold StmtUpdate.replacePhase.
  destruct (StmtUpdate.overlay _ _ _ _) as [[e|data]|p]; simpl; try discriminate.
  destruct (ReplaceDocument _ _ _ _) as [resp w2] eqn:Hrep.
  set (err' := if RespDoc.StatusCode resp =? 403 then _ else _).
  intros Hc.
  assert (Hreq : DocReq.mk (StmtUpdate.dbName s) (StmtUpdate.collName s) docId [pk] = req
                 /\ Etag env (RespDoc.DocInfo gresp) = etag
                 /\ DocumentSpec.mk (StmtUpdate.dbName s) (StmtUpdate.collName s)
                      false [pk] data = spec).
  { destruct err'; simpl in Hc; injection Hc; auto. }
  destruct Hreq as (<- & <- & <-). rewrite Hget. simpl. rewrite Hrep. simpl.
  fold err'. destruct err'; reflexivity.
Qed.

(** C3. When the replace call of an UPDATE comes back with status 412 and
    an error, [Exec] returns a nil error; with status 403 it returns
    [ErrForbidden] and with status 409 [ErrConflict]. *)
Theorem update_replace_status (s : StmtUpdate.t) args w req etag spec :
  calls (StmtUpdate.Exec env s args w) =
    [CallGetDocument req; CallReplaceDocument etag spec] ->
  let resp :=
    fst (ReplaceDocument (restClient env) etag spec
           (snd (GetDocument (restClient env) req w))) in
  (RespDoc.StatusCode resp = 412 ->
   forall text, RespDoc.Error resp = Some text ->
   value (StmtUpdate.Exec env s args w) =
     Returned (Some (ResultUpdate.mk false), None)) /\
  (RespDoc.StatusCode resp = 403 ->
   exists r, value (StmtUpdate.Exec env s args w) = Returned (Some r, Some ErrForbidden)) /\
  (RespDoc.StatusCode resp = 409 ->
   exists r, value (StmtUpdate.Exec env s args w) = Returned (Some r, Some ErrConflict)).
Proof.
  intros Hc resp. pose proof (update_exec_replaced _ _ _ _ _ _ Hc) as Hv.
  simpl in Hv. fold resp in Hv. rewrite Hv. repeat split.
  - intros Hst text Herr. rewrite Hst, Herr. reflexivity.
  - intros Hst. rewrite Hst. simpl. eauto.
  - intros Hst. rewrite Hst. simpl. eauto.
Qed.

(** C4. When the delete call comes back with status 404 and an error,
    [Exec] returns a nil error if and only if the text of the error
    carries the document marker; without the marker it returns
    [ErrNotFound]. *)
Theorem delete_404_document_marker (s : StmtDelete.t) args w req text :
  calls (StmtDelete.Exec env s args w) = [CallDeleteDocument req] ->
  RespDoc.StatusCode (fst (DeleteDocument (restClient env) req w)) = 404 ->
  RespDoc.Error (fst (DeleteDocument (restClient env) req w)) = Some text ->
  exists r err,
    value (StmtDelete.Exec env s args w) = Returned (Some r, err) /\
    (err = None <-> Str.Contains text docMarker = true) /\
    (Str.Contains text docMarker = false -> err = Some ErrNotFound).
Proof.
  intros Hc Hst Herr. rewrite (delete_exec_404 _ _ _ _ _ Hc Hst Herr).
  eexists _, _. split; [reflexivity|].
  destruct (Str.Contains text docMarker); split; try split; congruence.
Qed.

(** C9. Whenever an executor turns an error of the transport into a nil
    error (DELETE on a 404 for the document, UPDATE on a fetch answered
    with a 404 for the document, UPDATE on a replace answered with 412),
    the result it returns has [Successful = false] and its [RowsAffected]
    is 0. *)
Theorem downgraded_errors_affect_no_rows :
  (forall (s : StmtDelete.t) args w req text,
     calls (StmtDelete.Exec env s args w) = [CallDeleteDocument req] ->
     RespDoc.StatusCode (fst (DeleteDocument (restClient env) req w)) = 404 ->
     RespDoc.Error (fst (DeleteDocument (restClient env) req w)) = Some text ->
     Str.Contains text docMarker = true ->
     exists r,
       value (StmtDelete.Exec env s args w) = Returned (Some r, None) /\
       ResultDelete.Successful r = false /\
       ResultDelete.RowsAffected r = (0, None)) /\
  (forall (s : StmtUpdate.t) args w req text,
     calls (StmtUpdate.Exec env s args w) = [CallGetDocument req] ->
     RespDoc.StatusCode (fst (GetDocument (restClient env) req w)) = 404 ->
     RespDoc.Error (fst (GetDocument (restClient env) req w)) = Some text ->
     Str.Contains text docMarker = true ->
     exists r,
       value (StmtUpdate.Exec env s args w) = Returned (Some r, None) /\
       ResultUpdate.Successful r = false /\
       ResultUpdate.RowsAffected r = (0, None)) /\
  (forall (s : StmtUpdate.t) args w req etag spec text,
     calls (StmtUpdate.Exec env s args w) =
       [CallGetDocument req; CallReplaceDocument etag spec] ->
     let resp :=
       fst (ReplaceDocument (restClient env) etag spec
              (snd (GetDocument (restClient env) req w))) in
     RespDoc.StatusCode resp = 412 ->
     RespDoc.Error resp = Some text ->
     exists r,
       value (StmtUpdate.Exec env s args w) = Returned (Some r, None) /\
       ResultUpdate.Successful r = false /\
       ResultUpdate.RowsAffected r = (0, None)).
Proof.
  repeat split.
  - intros s args w req text Hc Hst Herr Hm.
    rewrite (delete_exec_404 _ _ _ _ _ Hc Hst Herr), Hm. eexists. repeat split.
  - intros s args w req text Hc Hst Herr Hm.
    rewrite (update_exec_fetch_failed _ _ _ _ _ Hc Herr), Hst, Hm. simpl.
    eexists. repeat split.
  - intros s args w req etag spec text Hc resp Hst Herr.
    pose proof (update_exec_replaced _ _ _ _ _ _ Hc) as Hv. simpl in Hv.
    fold resp in Hv. rewrite Hv, Hst, Herr. simpl. eexists. repeat split.
Qed.

(** By contrast, a call answered without error and with a status below 400
    counts as one row. *)
Lemma applied_operations_affect_one_row :
  (forall (s : StmtDelete.t) args w req,
     calls (StmtDelete.Exec env s args w) = [CallDeleteDocument req] ->
     RespDoc.Error (fst (DeleteDocument (restClient env) req w)) = None ->
     RespDoc.StatusCode (fst (DeleteDocument (restClient env) req w)) < 400 ->
     exists r,
       value (StmtDelete.Exec env s args w) = Returned (Some r, None) /\
       ResultDelete.RowsAffected r = (1, None)) /\
  (forall (s : StmtUpdate.t) args w req etag spec,
     calls (StmtUpdate.Exec env s args w) =
       [CallGetDocument req; CallReplaceDocument etag spec] ->
     let resp :=
       fst (ReplaceDocument (restClient env) etag spec
              (snd (GetDocument (restClient env) req w))) in
     RespDoc.Error resp = None ->
     RespDoc.StatusCode resp < 400 ->
     exists r,
       value (StmtUpdate.Exec env s args w) = Returned (Some r, None) /\
       ResultUpdate.RowsAffected r = (1, None)).
Proof.
  split.
  - intros s args w req Hc Herr Hst. rewrite (delete_exec_call _ _ _ _ Hc). simpl.
    rewrite Herr.
    destruct (Z.eqb_spec (RespDoc.StatusCode (DeleteDocument (restClient env) req w).1) 403);
      [lia|].
    destruct (Z.eqb_spec (RespDoc.StatusCode (DeleteDocument (restClient env) req w).1) 404);
      [lia|].
    simpl. eexists. split; [reflexivity|]. unfold ResultDelete.RowsAffected. simpl.
    destruct (Z.ltb_spec (RespDoc.StatusCode (DeleteDocument (restClient env) req w).1) 400);
      [reflexivity|lia].
  - intros s args w req etag spec Hc resp Herr Hst.
    pose proof (update_exec_replaced _ _ _ _ _ _ Hc) as Hv. simpl in Hv.
    fold resp in Hv. rewrite Hv, Herr.
    destruct (Z.eqb_spec (RespDoc.StatusCode resp) 403); [lia|].
    destruct (Z.eqb_spec (RespDoc.StatusCode resp) 404); [lia|].
    destruct (Z.eqb_spec (RespDoc.StatusCode resp) 409); [lia|].
    destruct (Z.eqb_spec (RespDoc.StatusCode resp) 412); [lia|].
    simpl. eexists. split; reflexivity.
Qed.

Lemma validate_lengths (s : StmtUpdate.t) :
  StmtUpdate.validate s = None ->
  length (StmtUpdate.fields s) = length (StmtUpdate.values s).
Proof.
  unfold StmtUpdate.validate, len.
  destruct (String.eqb _ _); [discriminate|].
  destruct (_ =? 0); [discriminate|].
  destruct (Z.eqb_spec (Z.of_nat (length (StmtUpdate.fields s)))
              (Z.of_nat (length (StmtUpdate.values s)))); simpl; [lia|discriminate].
Qed.

Lemma firstInvalid_exists (args : list GoValue) (values : list StmtValue) :
  existsb (isInvalidValue args) values = true ->
  exists ph, firstInvalid args values = Some ph /\
             In (VPlaceholder ph) values /\ invalid_index ph args = true.
Proof.
  unfold firstInvalid. induction values as [|v values IH]; [discriminate|].
  cbn [existsb List.find In]. destruct (isInvalidValue args v) eqn:Hv.
  - intros _. destruct v as [ph|x]; [|discriminate]. exists ph. auto.
  - cbn [orb]. intros H. destruct (IH H) as (ph & Hf & Hin & Hbad). exists ph. auto.
Qed.

(** The overlay loop returns the index error of the first placeholder out
    of range among the values it reaches, those that stand at the position
    of a field. *)
Lemma overlay_first_invalid (fields : list string) :
  forall values args ph data,
    firstInvalid args (take (length fields) values) = Some ph ->
    StmtUpdate.overlay fields values args data = Returned (inl (errInvalidValueIndex ph)).
Proof.
  unfold firstInvalid.
  induction fields as [|f fields IH]; intros values args ph data H; [discriminate|].
  destruct values as [|v values]; [discriminate|].
  cbn [length take List.find] in H. cbn [StmtUpdate.overlay].
  destruct v as [ph0|x]; cbn [isInvalidValue] in H.
  - destruct (invalid_index ph0 args) eqn:Hinv.
    + injection H as <-. reflexivity.
    + destruct (index_valid _ _ Hinv) as [a ->]. apply IH. exact H.
  - apply IH. exact H.
Qed.

(** C1 (as amended). Take a valid UPDATE statement with a placeholder out
    of range for the arguments. If it is the placeholder of the id, [Exec]
    returns the index error before any call. If the id resolves and a
    placeholder of the SET clause is out of range, [Exec] never issues the
    replace call: without arguments it panics before any call; otherwise
    it issues the fetch, and no other call, and when the fetch comes back
    without error it returns the index error of the first such
    placeholder. *)
Theorem update_placeholder_out_of_range (s : StmtUpdate.t) args w :
  StmtUpdate.validate s = None ->
  (forall ph, StmtUpdate.id s = Some ph -> invalid_index ph args = true ->
     StmtUpdate.Exec env s args w =
       mkRun (Returned (None, Some (errInvalidValueIndex ph))) w []) /\
  (idInvalid s args = false -> setInvalid s args = true ->
     forallb (fun c => negb (is_replace c)) (calls (StmtUpdate.Exec env s args w)) = true /\
     (args = [] ->
        value (StmtUpdate.Exec env s args w) = Panicked IndexOutOfRange /\
        calls (StmtUpdate.Exec env s args w) = []) /\
     (args <> [] ->
        exists req,
          calls (StmtUpdate.Exec env s args w) = [CallGetDocument req] /\
          (RespDoc.Error (fst (GetDocument (restClient env) req w)) = None ->
           exists ph,
             firstInvalid args (StmtUpdate.values s) = Some ph /\
             In (VPlaceholder ph) (StmtUpdate.values s) /\
             invalid_index ph args = true /\
             value (StmtUpdate.Exec env s args w) =
               Returned (None, Some (errInvalidValueIndex ph))))).
Proof.
  intros Hval. split.
  - intros ph Hid Hinv. unfold StmtUpdate.Exec, resolveId. rewrite Hid, Hinv. reflexivity.
  - intros Hid Hset.
    assert (Hres : exists docId,
               resolveId env (StmtUpdate.idStr s) (StmtUpdate.id s) args
               = inr (Returned docId)).
    { unfold resolveId, idInvalid in *. destruct (StmtUpdate.id s) as [ph|]; [|eauto].
      rewrite Hid. destruct (index_valid _ _ Hid) as [a ->]. eauto. }
    destruct Hres as [docId Hres].
    destruct args as [|a0 args'].
    + unfold StmtUpdate.Exec. rewrite Hres, index_nil. simpl.
      split; [reflexivity|]. split; [intros _; split; reflexivity|].
      intros Habs. contradiction Habs. reflexivity.
    + set (args := a0 :: args') in *.
      destruct (index_last args) as [pk Hpk]; [done|].
      unfold StmtUpdate.Exec. rewrite Hres, Hpk.
      set (req := DocReq.mk _ _ _ _).
      destruct (GetDocument (restClient env) req w) as [gresp w1] eqn:Hget.
      destruct (RespDoc.Error gresp) as [text|] eqn:Herr.
      * assert (Hc : calls
            (if RespDoc.StatusCode gresp =? 404
             then if Str.Contains text docMarker
                  then mkRun (Returned (Some (ResultUpdate.mk false), None)) w1
                         [CallGetDocument req]
                  else mkRun (Returned (None, Some ErrNotFound)) w1 [CallGetDocument req]
             else mkRun (Returned (None, Some (transportError text))) w1
                    [CallGetDocument req]) = [CallGetDocument req]).
        { destruct (RespDoc.StatusCode gresp =? 404), (Str.Contains text docMarker);
            reflexivity. }
        rewrite Hc. split; [reflexivity|]. split; [intros Habs; discriminate Habs|].
        intros _. exists req. split; [reflexivity|]. rewrite Hget. simpl. congruence.
      * unfold StmtUpdate.replacePhase.
        destruct (firstInvalid_exists args _ Hset) as (ph & Hfirst & Hin & Hbad).
        rewrite (overlay_first_invalid (StmtUpdate.fields s) (StmtUpdate.values s) args ph
                   (RemoveSystemAttrs env (RespDoc.DocInfo gresp))).
        2:{ rewrite (validate_lengths _ Hval), firstn_all. exact Hfirst. }
        simpl. split; [reflexivity|]. split; [intros Habs; discriminate Habs|].
        intros _. exists req. split; [reflexivity|]. intros _. exists ph. auto.
Qed.

End ExecProps.

(** An UPDATE whose replace call is answered with 412, with 403 and with
    409. *)
Lemma update_replace_status_witness :
  value (StmtUpdate.Exec (Runs.replaceAnswers (Stub.failed 412 "precondition failed"))
           Runs.updateLiteral Runs.updateArgs []) =
    Returned (Some (ResultUpdate.mk false), None) /\
  (exists r,
     value (StmtUpdate.Exec (Runs.replaceAnswers (Stub.failed 403 "forbidden"))
              Runs.updateLiteral Runs.updateArgs []) = Returned (Some r, Some ErrForbidden)) /\
  (exists r,
     value (StmtUpdate.Exec (Runs.replaceAnswers (Stub.failed 409 "conflict"))
              Runs.updateLiteral Runs.updateArgs []) = Returned (Some r, Some ErrConflict)).
Proof.
  split; [|split].
  - refine (proj1 (update_replace_status
                     (Runs.replaceAnswers (Stub.failed 412 "precondition failed"))
                     Runs.updateLiteral Runs.updateArgs [] Runs.deleteReq "W/abc"
                     (DocumentSpec.mk "db1" "coll1" false [GString "pk1"] Runs.replacedData)
                     _) _ "precondition failed" _); reflexivity.
  - refine (proj1 (proj2 (update_replace_status
                     (Runs.replaceAnswers (Stub.failed 403 "forbidden"))
                     Runs.updateLiteral Runs.updateArgs [] Runs.deleteReq "W/abc"
                     (DocumentSpec.mk "db1" "coll1" false [GString "pk1"] Runs.replacedData)
                     _)) _); reflexivity.
  - refine (proj2 (proj2 (update_replace_status
                     (Runs.replaceAnswers (Stub.failed 409 "conflict"))
                     Runs.updateLiteral Runs.updateArgs [] Runs.deleteReq "W/abc"
                     (DocumentSpec.mk "db1" "coll1" false [GString "pk1"] Runs.replacedData)
                     _)) _); reflexivity.
Defined.

(** The same id deleted twice from a store that holds it, and a DELETE
    answered with a 404 for the collection. *)
Lemma delete_404_document_marker_witness :
  let first := StmtDelete.Exec Runs.storeEnv Runs.deleteStmt Runs.updateArgs ["doc1"] in
  value first = Returned (Some (ResultDelete.mk true 204), None) /\
  (exists r,
     value (StmtDelete.Exec Runs.storeEnv Runs.deleteStmt Runs.updateArgs (world first)) =
       Returned (Some r, None)) /\
  (exists r,
     value (StmtDelete.Exec (Runs.deleteAnswers (Stub.failed 404 Stub.collNotFoundText))
              Runs.deleteStmt Runs.updateArgs []) = Returned (Some r, Some ErrNotFound)).
Proof.
  split; [reflexivity|]. split.
  - destruct (delete_404_document_marker Runs.storeEnv Runs.deleteStmt Runs.updateArgs
                (world (StmtDelete.Exec Runs.storeEnv Runs.deleteStmt Runs.updateArgs
                          ["doc1"]))
                Runs.deleteReq Stub.docNotFoundText eq_refl eq_refl eq_refl)
      as (r & err & Hv & Hnil & _).
    exists r. rewrite Hv. rewrite (proj2 Hnil eq_refl). reflexivity.
  - destruct (delete_404_document_marker
                (Runs.deleteAnswers (Stub.failed 404 Stub.collNotFoundText))
                Runs.deleteStmt Runs.updateArgs [] Runs.deleteReq Stub.collNotFoundText
                eq_refl eq_refl eq_refl)
      as (r & err & Hv & _ & Hnf).
    exists r. rewrite Hv. rewrite (Hnf eq_refl). reflexivity.
Defined.

(** The three downgraded outcomes on stub clients. *)
Lemma downgraded_errors_affect_no_rows_witness :
  (exists r,
     value (StmtDelete.Exec (Runs.deleteAnswers (Stub.failed 404 Stub.docNotFoundText))
              Runs.deleteStmt Runs.updateArgs []) = Returned (Some r, None) /\
     ResultDelete.Successful r = false /\ ResultDelete.RowsAffected r = (0, None)) /\
  (exists r,
     value (StmtUpdate.Exec Runs.fetchMissing Runs.updateLiteral Runs.updateArgs []) =
       Returned (Some r, None) /\
     ResultUpdate.Successful r = false /\ ResultUpdate.RowsAffected r = (0, None)) /\
  (exists r,
     value (StmtUpdate.Exec (Runs.replaceAnswers (Stub.failed 412 "precondition failed"))
              Runs.updateLiteral Runs.updateArgs []) = Returned (Some r, None) /\
     ResultUpdate.Successful r = false /\ ResultUpdate.RowsAffected r = (0, None)).
Proof.
  split; [|split].
  - refine (proj1 (downgraded_errors_affect_no_rows
                     (Runs.deleteAnswers (Stub.failed 404 Stub.docNotFoundText)))
              Runs.deleteStmt Runs.updateArgs [] Runs.deleteReq Stub.docNotFoundText
              _ _ _ _); reflexivity.
  - refine (proj1 (proj2 (downgraded_errors_affect_no_rows Runs.fetchMissing))
              Runs.updateLiteral Runs.updateArgs [] Runs.deleteReq Stub.docNotFoundText
              _ _ _ _); reflexivity.
  - refine (proj2 (proj2 (downgraded_errors_affect_no_rows
                            (Runs.replaceAnswers (Stub.failed 412 "precondition failed"))))
              Runs.updateLiteral Runs.updateArgs [] Runs.deleteReq "W/abc"
              (DocumentSpec.mk "db1" "coll1" false [GString "pk1"] Runs.replacedData)
              "precondition failed" _ _ _); reflexivity.
Defined.

(** The statements [UPDATE db1.coll1 SET a=:5 WHERE id=doc1] and
    [UPDATE db1.coll1 SET a="x" WHERE id=:3], run with the one argument
    [pk1]; and [UPDATE db1.coll1 SET a=:1, b=:7, c=:5 WHERE id=doc1], run
    with three arguments: of the two placeholders out of range the first,
    7, is reported. *)
Lemma update_placeholder_out_of_range_witness :
  forallb (fun c => negb (is_replace c))
    (calls (StmtUpdate.Exec Runs.fetchOk Runs.updateStmt Runs.updateArgs [])) = true /\
  StmtUpdate.Exec Runs.fetchOk Runs.updateById Runs.updateArgs [] =
    mkRun (Returned (None, Some (errorString "invalid value index 3"))) [] [] /\
  value (StmtUpdate.Exec Runs.fetchOk Runs.updateThree Runs.threeArgs []) =
    Returned (None, Some (errorString "invalid value index 7")).
Proof.
  split; [|split].
  - exact (proj1 (proj2 (update_placeholder_out_of_range Runs.fetchOk Runs.updateStmt
                           Runs.updateArgs [] eq_refl) eq_refl eq_refl)).
  - exact (proj1 (update_placeholder_out_of_range Runs.fetchOk Runs.updateById
                    Runs.updateArgs [] eq_refl) {| ph_index := 3 |} eq_refl eq_refl).
  - destruct (proj2 (proj2 (proj2 (update_placeholder_out_of_range Runs.fetchOk
                                     Runs.updateThree Runs.threeArgs [] eq_refl)
                              eq_refl eq_refl))
                ltac:(discriminate)) as (req & _ & Hvalue).
    destruct (Hvalue eq_refl) as (ph & Hfirst & _ & _ & Hv).
    vm_compute in Hfirst. injection Hfirst as <-. exact Hv.
Defined.

(** C1, as stated, fails: the statement [UPDATE db1.coll1 SET a=:5 WHERE
    id=doc1] run with the single argument [pk1] has a placeholder beyond
    the arguments, yet [Exec] issues the fetch; when the document is
    there it reports the index error only after the fetch, and when the
    document is missing it returns a nil error. *)
Lemma update_set_placeholder_checked_after_fetch :
  StmtUpdate.validate Runs.updateStmt = None /\
  setInvalid Runs.updateStmt Runs.updateArgs = true /\
  StmtUpdate.Exec Runs.fetchOk Runs.updateStmt Runs.updateArgs [] =
    mkRun (Returned (None, Some (errorString "invalid value index 5"))) []
      [CallGetDocument (DocReq.mk "db1" "coll1" "doc1" [GString "pk1"])] /\
  StmtUpdate.Exec Runs.fetchMissing Runs.updateStmt Runs.updateArgs [] =
    mkRun (Returned (Some (ResultUpdate.mk false), None)) []
      [CallGetDocument (DocReq.mk "db1" "coll1" "doc1" [GString "pk1"])].
Proof. repeat split. Qed.

(** ** SELECT: paging *)

Section QueryProps.
Context {W : Type} (env : Env W).

(** The paging loop goes on while the pages come without error and with a
    continuation token: it sends every query with the token of the page
    before it, gathers the documents of the pages that come without error,
    and ends at the first page that comes with an error or without a
    token. *)
Lemma fetchPages_pages (s : StmtSelect.t) (params : list GoValue)
    (pages : list RespQueryDocs.t) :
  forall fuel token docs w log first rest lastp,
    first :: rest = pages ++ [lastp] ->
    answers (restClient env) (pageQuery s params) w
      (RespQueryDocs.ContinuationToken first) rest ->
    Forall morePages pages ->
    lastPage lastp ->
    (length pages <= fuel)%nat ->
    exists w',
      StmtSelect.fetchPages env fuel (pageQuery s params token) docs first w log =
      Some (lastp,
            docs ++ concat (List.map RespQueryDocs.Documents pages) ++
              (match RespQueryDocs.Error lastp with
               | None => RespQueryDocs.Documents lastp
               | Some _ => []
               end),
            w',
            log ++ List.map (fun p => CallQueryDocuments
                               (pageQuery s params (RespQueryDocs.ContinuationToken p)))
                     pages).
Proof.
  induction pages as [|p pages IH]; intros fuel token docs w log first rest lastp
    Heq Hans Hmore Hlast Hfuel.
  - simpl in Heq. injection Heq as -> ->. exists w.
    destruct (RespQueryDocs.Error lastp) as [text|] eqn:Herr.
    + destruct fuel; simpl; rewrite Herr, !app_nil_r; reflexivity.
    + destruct Hlast as [Habs|Htok]; [congruence|].
      destruct fuel; simpl; rewrite Herr, Htok; simpl; rewrite !app_nil_r; reflexivity.
  - simpl in Heq. injection Heq as -> Hrest.
    apply Forall_cons in Hmore as [[Hperr Hptok] Hmore].
    destruct fuel as [|fuel]; [simpl in Hfuel; lia|].
    destruct (pages ++ [lastp]) as [|r rest'] eqn:Hpl.
    { destruct pages; discriminate. }
    subst rest. simpl in Hans. destruct Hans as [Hr Hans].
    destruct (IH fuel (RespQueryDocs.ContinuationToken p)
                (docs ++ RespQueryDocs.Documents p)
                (snd (QueryDocuments (restClient env)
                        (pageQuery s params (RespQueryDocs.ContinuationToken p)) w))
                (log ++ [CallQueryDocuments
                           (pageQuery s params (RespQueryDocs.ContinuationToken p))])
                r rest' lastp) as [w' Hw'];
      try assumption; [symmetry; exact Hpl|simpl in Hfuel; lia|].
    exists w'. cbn [StmtSelect.fetchPages]. rewrite Hperr.
    destruct (String.eqb_spec (RespQueryDocs.ContinuationToken p) "") as [Habs|_];
      [contradiction|].
    change (QueryReq.with_ContinuationToken (pageQuery s params token)
              (RespQueryDocs.ContinuationToken p))
      with (pageQuery s params (RespQueryDocs.ContinuationToken p)).
    destruct (QueryDocuments (restClient env) _ w) as [r0 w0] eqn:Hq.
    simpl in Hr, Hw'. subst r0. rewrite Hw'.
    simpl. rewrite <- !app_assoc. reflexivity.
Qed.

(** [Query] on a client that answers with the pages [pages] and then with
    [lastp]: one call for every page, the first without a token and every
    other one with the token of the page before it; the rows hold the
    documents of all pages and the count of [lastp] alone, and there are
    no rows when [lastp] comes with an error. *)
Lemma query_pages (fuel : nat) (s : StmtSelect.t) args w params
    (pages : list RespQueryDocs.t) (lastp : RespQueryDocs.t) :
  StmtSelect.bindParams (StmtSelect.placeholders s) 0 args [] = inr params ->
  answers (restClient env) (pageQuery s params) w "" (pages ++ [lastp]) ->
  Forall morePages pages ->
  lastPage lastp ->
  (length pages <= fuel)%nat ->
  exists w',
    StmtSelect.Query env fuel s args w =
      Some (mkRun
              (Returned
                 (queryRows lastp
                    (concat (List.map RespQueryDocs.Documents pages) ++
                     RespQueryDocs.Documents lastp),
                  queryError lastp))
              w'
              (List.map (fun token => CallQueryDocuments (pageQuery s params token))
                 ("" :: List.map RespQueryDocs.ContinuationToken pages))).
Proof.
  intros Hbind Hans Hmore Hlast Hfuel.
  unfold StmtSelect.Query. rewrite Hbind. fold (pageQuery s params "").
  destruct (pages ++ [lastp]) as [|first rest] eqn:Hpl.
  { destruct pages; discriminate. }
  simpl in Hans. destruct Hans as [Hfirst Hans].
  destruct (QueryDocuments (restClient env) (pageQuery s params "") w) as [r0 w0] eqn:Hq.
  simpl in Hfirst, Hans. subst r0.
  destruct (fetchPages_pages s params pages fuel "" [] w0
              [CallQueryDocuments (pageQuery s params "")] first rest lastp)
    as [w' Hw']; try assumption; [symmetry; exact Hpl|].
  rewrite Hw'. exists w'. unfold queryRows, queryError.
  cbn [List.map app]. rewrite List.map_map.
  destruct (RespQueryDocs.Error lastp) as [text|]; cbn [liftErr fmap option_fmap option_map];
    rewrite ?app_nil_r; reflexivity.
Qed.

End QueryProps.

(** Two runs of [query_pages]: the four pages of [Runs.fourPages], and one
    page with a token after which the service answers with an error. The
    second run ends at the error, after two calls, without rows. *)
Lemma query_pages_runs :
  (exists w',
     StmtSelect.Query Runs.queryEnv 3 Runs.selectOne [GString "k1"] Runs.fourPages =
       Some (mkRun
               (Returned
                  (Some (ResultSelect.mk 0
                           [Runs.doc "a"; Runs.doc "b"; Runs.doc "c"; Runs.doc "d";
                            Runs.doc "e"; Runs.doc "f"] 0 ["id"]),
                   None))
               w'
               (List.map (fun token =>
                            CallQueryDocuments (pageQuery Runs.selectOne Runs.oneParam token))
                  [""; "t1"; "t2"; "t3"]))) /\
  (exists w',
     StmtSelect.Query Runs.queryEnv 1 Runs.selectOne [GString "k1"]
       [Runs.page [Runs.doc "a"; Runs.doc "b"] 2 "t1"] =
       Some (mkRun (Returned (None, Some (transportError "no more responses"))) w'
               (List.map (fun token =>
                            CallQueryDocuments (pageQuery Runs.selectOne Runs.oneParam token))
                  [""; "t1"]))).
Proof.
  split.
  - apply (query_pages Runs.queryEnv 3 Runs.selectOne [GString "k1"] Runs.fourPages
             Runs.oneParam
             [ Runs.page [Runs.doc "a"; Runs.doc "b"] 2 "t1";
               Runs.page [Runs.doc "c"; Runs.doc "d"] 2 "t2";
               Runs.page [Runs.doc "e"; Runs.doc "f"] 2 "t3" ]
             (Runs.page [] 0 "")).
    + vm_compute. reflexivity.
    + simpl. repeat split.
    + repeat constructor; simpl; discriminate.
    + right. reflexivity.
    + simpl. lia.
  - apply (query_pages Runs.queryEnv 1 Runs.selectOne [GString "k1"]
             [Runs.page [Runs.doc "a"; Runs.doc "b"] 2 "t1"]
             Runs.oneParam
             [Runs.page [Runs.doc "a"; Runs.doc "b"] 2 "t1"]
             Stub.queryFailed).
    + vm_compute. reflexivity.
    + simpl. repeat split.
    + repeat constructor; simpl; discriminate.
    + left. discriminate.
    + simpl. lia.
Qed.

(** C5, as stated, fails in the code. A client serves 3 pages of 2
    documents each, with the continuation tokens [t1], [t2], [t3], and
    then a page without documents and without a token. [Query] issues
    the 4 query calls, the first without a token and the others with the
    token of the page before, and holds the 6 documents; but the count of
    the rows it returns is the count of the last page, 0, so that the
    first [Next] reports the end of the data: of the 6 documents none is
    returned. *)
Theorem select_pages_counted_by_last_page :
  exists rows,
    StmtSelect.Query Runs.queryEnv 3 Runs.selectOne [GString "k1"] Runs.fourPages =
      Some (mkRun (Returned (Some rows, None)) []
              [ CallQueryDocuments
                  (QueryReq.mk "db1" "coll1" "SELECT * FROM c WHERE c.k=@_1"
                     Runs.oneParam false "");
                CallQueryDocuments
                  (QueryReq.mk "db1" "coll1" "SELECT * FROM c WHERE c.k=@_1"
                     Runs.oneParam false "t1");
                CallQueryDocuments
                  (QueryReq.mk "db1" "coll1" "SELECT * FROM c WHERE c.k=@_1"
                     Runs.oneParam false "t2");
                CallQueryDocuments
                  (QueryReq.mk "db1" "coll1" "SELECT * FROM c WHERE c.k=@_1"
                     Runs.oneParam false "t3") ]) /\
    ResultSelect.documents rows =
      [Runs.doc "a"; Runs.doc "b"; Runs.doc "c"; Runs.doc "d"; Runs.doc "e"; Runs.doc "f"] /\
    ResultSelect.count rows = 0 /\
    ResultSelect.cursorCount rows = 0 /\
    forall dest, ResultSelect.Next rows dest = (Returned (Some EOF), rows, dest).
Proof.
  eexists. split; [vm_compute; reflexivity|].
  split; [reflexivity|]. split; [reflexivity|]. split; [reflexivity|].
  intros dest. reflexivity.
Qed.

(** ** SELECT: the cursor *)

Lemma index_Some_bounds {A} (l : list A) (i : Z) (x : A) :
  index l i = Some x -> 0 <= i < len l.
Proof.
  unfold index, len. destruct (Z.ltb_spec i 0); [discriminate|].
  intros Hl. apply lookup_lt_Some in Hl. lia.
Qed.

(** A call of [Next] that hands out a row reads a document that is there
    and moves the cursor by one. *)
Lemma Next_row (r r' : ResultSelect.t) dest dest' :
  ResultSelect.Next r dest = (Returned None, r', dest') ->
  0 <= ResultSelect.cursorCount r < len (ResultSelect.documents r) /\
  ResultSelect.cursorCount r < ResultSelect.count r /\
  ResultSelect.cursorCount r' = ResultSelect.cursorCount r + 1 /\
  ResultSelect.documents r' = ResultSelect.documents r /\
  ResultSelect.count r' = ResultSelect.count r.
Proof.
  unfold ResultSelect.Next.
  destruct (Z.geb_spec (ResultSelect.cursorCount r) (ResultSelect.count r)) as [|Hlt];
    [discriminate|].
  destruct (index _ _) as [rowData|] eqn:Hidx; [|discriminate].
  destruct (ResultSelect.fill _ _ _ _) as [[[]|p] d]; [|discriminate].
  intros H. injection H as <- <-. apply index_Some_bounds in Hidx. simpl. auto.
Qed.

Lemma pull_cursor (n : nat) :
  forall r dest r' dest',
    0 <= ResultSelect.cursorCount r ->
    pull n r dest = Some (r', dest') ->
    ResultSelect.cursorCount r' = ResultSelect.cursorCount r + Z.of_nat n /\
    ResultSelect.cursorCount r' <= Z.max (ResultSelect.cursorCount r)
                                     (len (ResultSelect.documents r)) /\
    ResultSelect.documents r' = ResultSelect.documents r.
Proof.
  induction n as [|n IH]; intros r dest r' dest' Hpos Hpull; simpl in Hpull.
  - injection Hpull as <- <-. repeat split; lia.
  - destruct (ResultSelect.Next r dest) as [[[[e|]|p] r1] d1] eqn:HN; try discriminate.
    apply Next_row in HN as (Hb & _ & Hc & Hd & _).
    apply IH in Hpull as (Hc' & Hle & Hd'); [|lia].
    rewrite Hd in *. split; [lia|]. split; [lia|congruence].
Qed.

(** However many rows a fresh cursor hands out, they are no more than the
    documents it holds. *)
Lemma cursor_rows_bounded (n : nat) (r r' : ResultSelect.t) dest dest' :
  ResultSelect.cursorCount r = 0 ->
  pull n r dest = Some (r', dest') ->
  (n <= length (ResultSelect.documents r))%nat.
Proof.
  intros H0 Hpull. apply pull_cursor in Hpull as (Hc & Hle & _); [|lia].
  unfold len in Hle. lia.
Qed.

(** At or beyond [count] the cursor reports the end of the data. *)
Lemma Next_EOF (r : ResultSelect.t) dest :
  ResultSelect.count r <= ResultSelect.cursorCount r ->
  ResultSelect.Next r dest = (Returned (Some EOF), r, dest).
Proof.
  intros H. unfold ResultSelect.Next.
  destruct (Z.geb_spec (ResultSelect.cursorCount r) (ResultSelect.count r)); [reflexivity|lia].
Qed.

(** C2 fails on the code where the transport reports, with the last page,
    a [Count] beyond the documents gathered: the cursor takes its end from
    that [Count]. With one page of one document and [Count = 2], the first
    [Next] hands out the document and the second one panics on
    [r.documents[1]] instead of reporting the end of the data. *)
Theorem cursor_count_beyond_documents :
  exists rows dest1 rows1,
    StmtSelect.Query Runs.queryEnv 0 Runs.selectAll [] Runs.countBeyond =
      Some (mkRun (Returned (Some rows, None)) []
              [CallQueryDocuments (firstQuery Runs.selectAll [])]) /\
    length (ResultSelect.documents rows) = 1%nat /\
    ResultSelect.Next rows [GNil] = (Returned None, rows1, dest1) /\
    ResultSelect.Next rows1 dest1 = (Panicked IndexOutOfRange, rows1, dest1).
Proof. eexists _, _, _. repeat split. Qed.

(** The same slip on a well-behaved transport: of the six documents of
    three pages, followed by an empty last page with [Count = 0], the
    cursor hands out none. *)
Lemma cursor_counts_last_page_only :
  exists rows,
    value <$> StmtSelect.Query Runs.queryEnv 3 Runs.selectAll [] Runs.fourPages =
      Some (Returned (Some rows, None)) /\
    length (ResultSelect.documents rows) = 6%nat /\
    ResultSelect.Next rows [GNil] = (Returned (Some EOF), rows, [GNil]).
Proof. eexists. repeat split. Qed.

(** ** SELECT: binding the arguments *)

Lemma rewrite_keys (ms : list (list string)) :
  forall q phs q' phs',
    StmtSelect.rewrite ms q phs = (q', phs', None) ->
    forall k, is_Some (phs' !! k) -> is_Some (phs !! k) \/ In k (indexesOf ms).
Proof.
  induction ms as [|m ms IH]; intros q phs q' phs' Hrw k Hk; simpl in Hrw.
  - injection Hrw as <- <-. auto.
  - destruct (strconv.Atoi (StmtSelect.sub m 1)) as [v [e|]] eqn:Hatoi; [discriminate|].
    destruct (IH _ _ _ _ Hrw k Hk) as [Hin|Hin].
    + destruct (decide (v = k)) as [->|Hne].
      * right. simpl. left. rewrite Hatoi. reflexivity.
      * left. rewrite lookup_insert_ne in Hin; assumption.
    + right. simpl. auto.
Qed.

Lemma bindParams_bound (phs : gmap Z string) (args : list GoValue) :
  forall i params out,
    StmtSelect.bindParams phs i args params = inr out ->
    forall j, i < j <= i + len args -> is_Some (phs !! j).
Proof.
  induction args as [|a args IH]; intros i params out Hb j Hj; unfold len in *;
    simpl in *; [lia|].
  destruct (phs !! (i + 1)) as [v|] eqn:Hl; [|discriminate].
  destruct (decide (j = i + 1)) as [->|Hne]; [eauto|].
  eapply IH; [exact Hb|]. lia.
Qed.

Lemma bindParams_inl (phs : gmap Z string) (args : list GoValue) :
  forall i params e,
    StmtSelect.bindParams phs i args params = inl e ->
    exists j, i < j <= i + len args /\ e = StmtSelect.errNoPlaceholder j.
Proof.
  induction args as [|a args IH]; intros i params e Hb; unfold len in *;
    simpl in *; [discriminate|].
  destruct (phs !! (i + 1)) as [v|] eqn:Hl.
  - destruct (IH _ _ _ Hb) as (j & Hj & He). exists j. split; [lia|assumption].
  - injection Hb as <-. exists (i + 1). split; [lia|reflexivity].
Qed.

(** A list of [n] numbers that holds each of 1, ..., [n] holds none
    twice. *)
Lemma all_indexes_nodup (idxs : list Z) :
  (forall j, 1 <= j <= len idxs -> In j idxs) -> List.NoDup idxs.
Proof.
  intros Hall.
  apply (NoDup_incl_NoDup (l := List.map Z.of_nat (seq 1 (length idxs)))).
  - apply Injective_map_NoDup; [intros x y; lia|apply List.seq_NoDup].
  - rewrite List.length_map, List.length_seq. lia.
  - intros j Hj. apply in_map_iff in Hj as (k & <- & Hk). apply in_seq in Hk.
    apply Hall. unfold len. lia.
Qed.

Section SelectParseProps.
Variable parseWithOpts : string -> gmap string string * option error.

(** What a [parse] without error leaves in the statement. *)
Lemma parse_ok (s s' : StmtSelect.t) (withOptsStr : string) :
  StmtSelect.parse parseWithOpts s withOptsStr = (s', None) ->
  let ms := FindAllStringSubmatch reValPlaceholder (StmtSelect.selectQuery s) in
  StmtSelect.rewrite ms (StmtSelect.selectQuery s) ∅ =
    (StmtSelect.selectQuery s', StmtSelect.placeholders s', None) /\
  StmtSelect.numInput s' = len ms.
Proof.
  unfold StmtSelect.parse. destruct (parseWithOpts withOptsStr) as [opts [e|]];
    [discriminate|].
  match goal with |- context [match ?c with inl _ => _ | inr _ => _ end] =>
    destruct c as [e|isCross] end; [discriminate|].
  destruct (StmtSelect.rewrite _ _ _) as [[query phs] err].
  intros H. injection H as <- ->. simpl. auto.
Qed.

(** The number of arguments a parsed SELECT requires is the number of
    matches of the placeholder pattern in its body, repeated indexes
    counted every time. *)
Lemma parse_counts_occurrences (s s' : StmtSelect.t) (withOptsStr : string) :
  StmtSelect.parse parseWithOpts s withOptsStr = (s', None) ->
  StmtSelect.numInput s' =
    len (FindAllStringSubmatch reValPlaceholder (StmtSelect.selectQuery s)).
Proof. intros H. apply (parse_ok _ _ _ H). Qed.

(** C10. When the body of a SELECT holds the same placeholder index twice
    or more, [Query] with as many arguments as the statement requires
    returns an error without any call of the transport: some argument
    position has no placeholder. *)
Theorem select_repeated_placeholder_unbindable {W} (env : Env W)
    (s s' : StmtSelect.t) (withOptsStr : string) args fuel w :
  StmtSelect.parse parseWithOpts s withOptsStr = (s', None) ->
  ~ List.NoDup (indexesOf (FindAllStringSubmatch reValPlaceholder (StmtSelect.selectQuery s))) ->
  len args = StmtSelect.numInput s' ->
  exists j,
    1 <= j <= len args /\
    StmtSelect.Query env fuel s' args w =
      Some (mkRun (Returned (None, Some (StmtSelect.errNoPlaceholder j))) w []).
Proof.
  intros Hparse Hdup Hlen. apply parse_ok in Hparse as [Hrw Hnum]. simpl in *.
  set (ms := FindAllStringSubmatch reValPlaceholder (StmtSelect.selectQuery s)) in *.
  clearbody ms. unfold StmtSelect.Query.
  destruct (StmtSelect.bindParams (StmtSelect.placeholders s') 0 args [])
    as [e|params] eqn:Hbind.
  - apply bindParams_inl in Hbind as (j & Hj & ->). exists j. split; [lia|reflexivity].
  - exfalso. apply Hdup. apply all_indexes_nodup. intros j Hj.
    assert (Hsome : is_Some (StmtSelect.placeholders s' !! j)).
    { eapply bindParams_bound; [exact Hbind|]. unfold indexesOf, len in *.
      rewrite List.length_map in Hj. lia. }
    destruct (rewrite_keys _ _ _ _ _ Hrw j Hsome) as [Habs|Hin]; [|exact Hin].
    rewrite lookup_empty in Habs. destruct Habs; discriminate.
Qed.

Lemma ParseBool_true (v : string) :
  strconv.ParseBool v = (true, None) <-> In v readsAsTrue.
Proof.
  unfold strconv.ParseBool, readsAsTrue.
  destruct (existsb (String.eqb v) ["1"; "t"; "T"; "TRUE"; "true"; "True"]) eqn:Hex.
  - split; [intros _|reflexivity].
    apply existsb_exists in Hex as (x & Hin & Heq).
    apply String.eqb_eq in Heq. subst x. exact Hin.
  - split.
    + destruct (existsb (String.eqb v) ["0"; "f"; "F"; "FALSE"; "false"; "False"]);
        intros H; discriminate H.
    + intros Hin. assert (Hex' : existsb (String.eqb v)
                                   ["1"; "t"; "T"; "TRUE"; "true"; "True"] = true).
      { apply existsb_exists. exists v. split; [exact Hin|apply String.eqb_refl]. }
      congruence.
Qed.

(** C7 (as amended). Take a SELECT whose WITH clauses give cross_partition
    the value [v]. When the statement does not have the cross-partition
    flag yet, [parse] sets the flag if [v] is one of the values
    [strconv.ParseBool] reads as true (1, t, T, TRUE, true, True) and
    returns the cross_partition error otherwise; so, the placeholders of
    the body being in order, [parse] succeeds exactly for these values.
    When the statement has the flag already, [v] is not looked at. *)
Theorem select_cross_partition_option (s : StmtSelect.t) (withOptsStr : string)
    (opts : gmap string string) (v : string) :
  parseWithOpts withOptsStr = (opts, None) ->
  opts !! "CROSS_PARTITION" = Some v ->
  let r := StmtSelect.parse parseWithOpts s withOptsStr in
  (StmtSelect.isCrossPartition s = false ->
     (In v readsAsTrue ->
        StmtSelect.isCrossPartition (fst r) = true /\
        snd r = snd (rewritten (StmtSelect.selectQuery s))) /\
     (~ In v readsAsTrue ->
        StmtSelect.isCrossPartition (fst r) = false /\
        snd r = Some (StmtSelect.errCrossPartition v)) /\
     (snd (rewritten (StmtSelect.selectQuery s)) = None ->
        (snd r = None <-> In v readsAsTrue))) /\
  (StmtSelect.isCrossPartition s = true ->
     StmtSelect.isCrossPartition (fst r) = true /\
     snd r = snd (rewritten (StmtSelect.selectQuery s))).
Proof.
  intros Hopts Hv r. subst r. unfold StmtSelect.parse, rewritten.
  rewrite Hopts, Hv. split.
  - intros Hflag. rewrite Hflag. simpl negb. cbv iota.
    assert (Hno : forall b e, strconv.ParseBool v = (b, e) -> (b, e) <> (true, None) ->
                              ~ In v readsAsTrue).
    { intros b e Hpb Hne Hin. apply ParseBool_true in Hin. congruence. }
    destruct (strconv.ParseBool v) as [[] [e|]] eqn:Hpb; simpl.
    + specialize (Hno _ _ eq_refl ltac:(discriminate)).
      split; [intros Hin; contradiction|]. split; [auto|].
      intros _. split; [discriminate|intros Hin; contradiction].
    + assert (Hin : In v readsAsTrue) by (apply ParseBool_true; exact Hpb).
      destruct (StmtSelect.rewrite _ _ _) as [[query phs] err]. simpl.
      split; [auto|]. split; [intros Hn; contradiction|].
      intros ->. split; auto.
    + specialize (Hno _ _ eq_refl ltac:(discriminate)).
      split; [intros Hin; contradiction|]. split; [auto|].
      intros _. split; [discriminate|intros Hin; contradiction].
    + specialize (Hno _ _ eq_refl ltac:(discriminate)).
      split; [intros Hin; contradiction|]. split; [auto|].
      intros _. split; [discriminate|intros Hin; contradiction].
  - intros Hflag. rewrite Hflag. simpl.
    destruct (StmtSelect.rewrite _ _ _) as [[query phs] err]. simpl. auto.
Qed.

End SelectParseProps.

(** The statements of the runs are the ones [parse] makes. *)
Lemma runs_are_parsed :
  StmtSelect.parse Runs.noOpts (Runs.selectStmt "SELECT * FROM c") ""
    = (Runs.selectAll, None) /\
  StmtSelect.parse Runs.noOpts (Runs.selectStmt "SELECT * FROM c WHERE c.k=$1") ""
    = (Runs.selectOne, None) /\
  StmtSelect.parse Runs.noOpts
    (Runs.selectStmt "SELECT * FROM c WHERE c.a=$1 AND c.b=$1") ""
    = (Runs.selectTwice, None).
Proof. repeat split; vm_compute; reflexivity. Qed.

(** [SELECT * FROM c WHERE c.a=$1 AND c.b=$1] with two arguments. *)
Lemma select_repeated_placeholder_unbindable_witness :
  exists j,
    1 <= j <= 2 /\
    StmtSelect.Query Runs.queryEnv 0 Runs.selectTwice [GString "x"; GString "y"] [] =
    Some (mkRun (Returned (None, Some (StmtSelect.errNoPlaceholder j))) [] []).
Proof.
  refine (select_repeated_placeholder_unbindable Runs.noOpts Runs.queryEnv
            (Runs.selectStmt "SELECT * FROM c WHERE c.a=$1 AND c.b=$1")
            Runs.selectTwice "" [GString "x"; GString "y"] 0%nat [] _ _ eq_refl).
  - vm_compute. reflexivity.
  - intros H. vm_compute in H. inversion H as [|x l Hnotin _]. apply Hnotin. left.
    reflexivity.
Defined.

(** [WITH cross_partition=true] on a statement without the flag. *)
Lemma select_cross_partition_option_witness :
  StmtSelect.isCrossPartition
    (fst (StmtSelect.parse (Runs.crossPartitionIs "true")
            (Runs.selectStmt "SELECT * FROM c") " WITH cross_partition=true")) = true.
Proof.
  refine (proj1 (proj1 (proj1 (select_cross_partition_option (Runs.crossPartitionIs "true")
                   (Runs.selectStmt "SELECT * FROM c") " WITH cross_partition=true"
                   {["CROSS_PARTITION" := "true"]} "true" eq_refl
                   ltac:(vm_compute; reflexivity)) eq_refl) _)).
  simpl. tauto.
Defined.

(** C7, as stated, fails: with [WITH cross_partition=1] the value is not
    the literal [true], yet [parse] succeeds and sets the flag. *)
Lemma select_cross_partition_accepts_1 :
  "1" <> "true" /\
  snd (StmtSelect.parse (Runs.crossPartitionIs "1")
         (Runs.selectStmt "SELECT * FROM c") " WITH cross_partition=1") = None /\
  StmtSelect.isCrossPartition
    (fst (StmtSelect.parse (Runs.crossPartitionIs "1")
            (Runs.selectStmt "SELECT * FROM c") " WITH cross_partition=1")) = true.
Proof. split; [discriminate|]. split; vm_compute; reflexivity. Qed.

(** ** SELECT: the placeholders of the body *)

Lemma star_greedy_class (f : ascii -> bool) (k : cont) (s : string) :
  forall fuel c,
    (String.length s <= fuel)%nat ->
    is_Some (k (dropWhile f s) c) ->
    star true (run (Class f)) k fuel s c = k (dropWhile f s) c.
Proof.
  induction s as [|a s IH]; intros fuel c Hfuel Hk.
  - destruct fuel; reflexivity.
  - simpl in Hfuel. destruct fuel as [|fuel]; [lia|].
    simpl. simpl in Hk. destruct (f a) eqn:Hfa.
    + assert (Hlt : (String.length s <? S (String.length s))%nat = true)
        by (apply Nat.ltb_lt; lia).
      rewrite Hlt. rewrite IH; [|lia|exact Hk].
      destruct Hk as [x Hx]. rewrite Hx. reflexivity.
    + reflexivity.
Qed.

Lemma run_Seq r1 r2 s c k :
  run (Seq r1 r2) s c k = run r1 s c (fun s' c' => run r2 s' c' k).
Proof. reflexivity. Qed.

Lemma run_Star g r s c k :
  run (Star g r) s c k = star g (run r) k (String.length s) s c.
Proof. reflexivity. Qed.

Lemma run_Group n r s c k :
  run (Group n r) s c k =
  run r s c (fun s' c' => k s' ((n, (String.length s, String.length s')) :: c')).
Proof. reflexivity. Qed.

Lemma run_Class f s c k :
  run (Class f) s c k =
  match s with
  | String a s' => if f a then k s' c else None
  | EmptyString => None
  end.
Proof. reflexivity. Qed.

Lemma run_Opt_chr a s c :
  run (Opt (chr a)) s c (fun s' c' => Some (s', c')) =
  Some (match s with
        | String b s' => if Ascii.eqb b a then s' else s
        | EmptyString => s
        end, c).
Proof.
  destruct s as [|b s']; [reflexivity|]. unfold Opt, chr. simpl.
  rewrite Ascii.eqb_sym. destruct (Ascii.eqb b a); reflexivity.
Qed.

Lemma run_reSep (s : string) (c : caps) :
  run reSep s c (fun s' c' => Some (s', c')) =
  Some (dropComma (dropWhile isPerlSpace s), c).
Proof.
  unfold reSep. rewrite run_Seq, run_Star.
  rewrite star_greedy_class; [|lia|].
  - rewrite run_Opt_chr. reflexivity.
  - rewrite run_Opt_chr. eauto.
Qed.

Lemma match_here_placeholder (s : string) :
  match_here reValPlaceholder s =
  match s with
  | String a s1 =>
      if isHead s
      then Some (afterToken s1,
                 [(1%nat, (String.length s1, String.length (dropWhile isDigit s1)))])
      else None
  | EmptyString => None
  end.
Proof.
  destruct s as [|a s1]; [reflexivity|].
  unfold match_here, reValPlaceholder. rewrite run_Seq, run_Class.
  unfold isHead. destruct (isSigil a); [|destruct s1; reflexivity].
  rewrite run_Seq, run_Group. unfold Plus. rewrite run_Seq, run_Class.
  destruct s1 as [|b s2]; [reflexivity|]. simpl andb.
  destruct (isDigit b) eqn:Hb; [|reflexivity].
  rewrite run_Star.
  rewrite star_greedy_class; [|lia|].
  - rewrite run_reSep. unfold afterToken. simpl dropWhile. rewrite Hb. reflexivity.
  - rewrite run_reSep. eauto.
Qed.

Lemma length_dropComma s : (String.length (dropComma s) <= String.length s)%nat.
Proof. destruct s as [|a s]; simpl; [lia|]. destruct (Ascii.eqb a ","); simpl; lia. Qed.

Lemma length_afterToken s : (String.length (afterToken s) <= String.length s)%nat.
Proof.
  unfold afterToken.
  pose proof (length_dropComma (dropWhile isPerlSpace (dropWhile isDigit s))).
  pose proof (length_dropWhile isPerlSpace (dropWhile isDigit s)).
  pose proof (length_dropWhile isDigit s). lia.
Qed.

Lemma take_drop_while f s :
  Str.take (String.length s - String.length (dropWhile f s)) (Str.drop (String.length s - String.length s) s)
  = takeWhile f s.
Proof.
  rewrite Nat.sub_diag. simpl Str.drop.
  induction s as [|a s IH]; [reflexivity|]. simpl.
  destruct (f a) eqn:Hfa.
  - pose proof (length_dropWhile f s).
    replace (S (String.length s) - String.length (dropWhile f s))%nat
      with (S (String.length s - String.length (dropWhile f s))) by lia.
    simpl. rewrite IH. reflexivity.
  - simpl. rewrite Nat.sub_diag. reflexivity.
Qed.

Lemma submatchHere_placeholder (s : string) :
  submatchHere reValPlaceholder s =
  if isHead s then
    Some (mkSubmatch "" (tokenAt s) [digitsAt s]
            (match s with String _ s1 => afterToken s1 | EmptyString => "" end))
  else None.
Proof.
  unfold submatchHere. rewrite match_here_placeholder.
  destruct s as [|a s1]; [reflexivity|].
  destruct (isHead (String a s1)); [|reflexivity].
  f_equal. f_equal. simpl. f_equal.
  unfold groupText. simpl.
  replace (S (String.length s1) - String.length s1)%nat with 1%nat by lia.
  simpl Str.drop.
  pose proof (take_drop_while isDigit s1) as H. rewrite Nat.sub_diag in H. exact H.
Qed.

Lemma digit_notSigil a : isDigit a = true -> notSigil a = true.
Proof. destruct a as [[] [] [] [] [] [] [] []]; vm_compute; congruence. Qed.

Lemma space_notSigil a : isPerlSpace a = true -> notSigil a = true.
Proof. destruct a as [[] [] [] [] [] [] [] []]; vm_compute; congruence. Qed.

Lemma commaAt_dropComma s : commaAt s +:+ dropComma s = s.
Proof.
  destruct s as [|a s]; [reflexivity|]. simpl.
  destruct (Ascii.eqb_spec a ",") as [->|]; reflexivity.
Qed.

Lemma tokenTail_afterToken s1 : tokenTail s1 +:+ afterToken s1 = s1.
Proof.
  unfold tokenTail, afterToken. rewrite !app_assoc_s, commaAt_dropComma.
  rewrite takeWhile_dropWhile. apply takeWhile_dropWhile.
Qed.

Lemma tokenTail_notSigil s1 : allb notSigil (tokenTail s1) = true.
Proof.
  unfold tokenTail. rewrite !allb_app.
  rewrite (allb_impl _ _ _ digit_notSigil (allb_takeWhile isDigit s1)).
  rewrite (allb_impl _ _ _ space_notSigil (allb_takeWhile isPerlSpace _)).
  unfold commaAt. destruct (dropWhile isPerlSpace (dropWhile isDigit s1)) as [|a s];
    [reflexivity|]. destruct (Ascii.eqb a ","); reflexivity.
Qed.

Lemma tokenAt_cons a s1 : tokenAt (String a s1) = String a (tokenTail s1).
Proof.
  unfold tokenAt.
  rewrite <- (tokenTail_afterToken s1) at 1 3.
  change (String a (tokenTail s1 +:+ afterToken s1))
    with (String a (tokenTail s1) +:+ afterToken s1).
  apply take_app_length.
Qed.

Lemma find_placeholder_cons a s1 :
  find reValPlaceholder (String a s1) =
  if isHead (String a s1)
  then Some (mkSubmatch "" (String a (tokenTail s1)) [takeWhile isDigit s1] (afterToken s1))
  else prepend a <$> find reValPlaceholder s1.
Proof.
  simpl find. rewrite submatchHere_placeholder, tokenAt_cons.
  destruct (isHead (String a s1)); [reflexivity|].
  destruct (find reValPlaceholder s1); reflexivity.
Qed.

Lemma findAll_S fuel r s abuts :
  findAll (S fuel) r s abuts =
  match find r s with
  | None => []
  | Some m =>
      match sm_text m with
      | EmptyString =>
          let here :=
            if abuts && Nat.eqb (String.length (sm_pre m)) 0 then [] else [m] in
          match sm_rest m with
          | EmptyString => here
          | String _ s' => here ++ findAll fuel r s' false
          end
      | String _ _ => m :: findAll fuel r (sm_rest m) true
      end
  end.
Proof. reflexivity. Qed.

Lemma find_None (s : string) :
  hasPlaceholder s = false -> find reValPlaceholder s = None.
Proof.
  induction s as [|a s IH]; [reflexivity|].
  intros H. change (isHead (String a s) || hasPlaceholder s = false) in H.
  apply orb_false_iff in H as [Hh Hs].
  rewrite find_placeholder_cons, Hh, (IH Hs). reflexivity.
Qed.

Lemma matches_None (s : string) :
  hasPlaceholder s = false -> FindAllStringSubmatch reValPlaceholder s = [].
Proof.
  intros H. unfold FindAllStringSubmatch, matches. rewrite findAll_S.
  rewrite (find_None _ H). reflexivity.
Qed.

Lemma AllHeads_impl (P Q : string -> Prop) s :
  (forall u, P u -> Q u) -> AllHeads P s -> AllHeads Q s.
Proof.
  intros HPQ. induction s as [|a s IH]; [trivial|]. intros [Hh Hs]. split; auto.
Qed.

Lemma AllHeads_app_r (P : string -> Prop) x r : AllHeads P (x +:+ r) -> AllHeads P r.
Proof.
  induction x as [|a x IH]; [trivial|]. rewrite append_cons. intros [_ H]. auto.
Qed.

Lemma isHead_notSigil a s : notSigil a = true -> isHead (String a s) = false.
Proof.
  unfold notSigil, isHead. destruct s; [reflexivity|].
  destruct (isSigil a); [discriminate|reflexivity].
Qed.

(** A stretch without sigils has no heads. *)
Lemma AllHeads_skip (P : string -> Prop) x r :
  allb notSigil x = true -> AllHeads P r -> AllHeads P (x +:+ r).
Proof.
  induction x as [|a x IH]; [trivial|]. rewrite append_cons. cbn [AllHeads allb].
  intros H Hr. apply andb_true_iff in H as [Ha Hx]. split; [|auto].
  rewrite (isHead_notSigil _ _ Ha). discriminate.
Qed.

Lemma AllHeads_none s : AllHeads (fun _ => False) s -> hasPlaceholder s = false.
Proof.
  induction s as [|a s IH]; [reflexivity|]. intros [Hh Hs].
  change (isHead (String a s) || hasPlaceholder s = false).
  rewrite (IH Hs). destruct (isHead (String a s)); [destruct (Hh eq_refl)|reflexivity].
Qed.

Lemma findAll_head fuel a s1 abuts :
  isHead (String a s1) = true ->
  findAll (S fuel) reValPlaceholder (String a s1) abuts =
  mkSubmatch "" (String a (tokenTail s1)) [takeWhile isDigit s1] (afterToken s1)
  :: findAll fuel reValPlaceholder (afterToken s1) true.
Proof.
  intros H. rewrite findAll_S, find_placeholder_cons, H. reflexivity.
Qed.

Lemma find_text_nonempty s m :
  find reValPlaceholder s = Some m -> sm_text m <> "".
Proof.
  revert m. induction s as [|a s IH]; intros m; [discriminate|].
  rewrite find_placeholder_cons. destruct (isHead (String a s)).
  - intros H. injection H as <-. discriminate.
  - destruct (find reValPlaceholder s) as [m'|]; [|discriminate].
    intros H. injection H as <-. simpl. apply IH. reflexivity.
Qed.

(** Skipping a byte that starts no placeholder leaves the matches as they
    are, but for the text before the first one. *)
Lemma findAll_skip fuel a s1 abuts abuts' :
  isHead (String a s1) = false ->
  List.map (fun m => sm_text m :: sm_groups m)
    (findAll (S fuel) reValPlaceholder (String a s1) abuts) =
  List.map (fun m => sm_text m :: sm_groups m)
    (findAll (S fuel) reValPlaceholder s1 abuts').
Proof.
  intros H. rewrite !findAll_S, find_placeholder_cons, H.
  destruct (find reValPlaceholder s1) as [m|] eqn:Hf; [|reflexivity].
  pose proof (find_text_nonempty _ _ Hf) as Hne. simpl.
  destruct (sm_text m) as [|b t] eqn:Ht; [contradiction|]. simpl. rewrite Ht. reflexivity.
Qed.

(** The placeholder at every head of [s] is among the matches of [s]. *)
Lemma matches_cover (n : nat) :
  forall s fuel abuts,
    (String.length s <= n)%nat -> (String.length s < fuel)%nat ->
    AllHeads (fun u =>
      exists m, In m (List.map (fun m => sm_text m :: sm_groups m)
                        (findAll fuel reValPlaceholder s abuts)) /\
                Str.HasPrefix u (StmtSelect.sub m 0) = true) s.
Proof.
  induction n as [|n IH]; intros s fuel abuts Hn Hfuel.
  - destruct s; [exact I|simpl in Hn; lia].
  - destruct s as [|a s1]; [exact I|]. simpl in Hn.
    destruct fuel as [|fuel]; [lia|]. simpl in Hfuel.
    destruct (isHead (String a s1)) eqn:Hh.
    + rewrite (findAll_head _ _ _ _ Hh). split.
      * intros _. eexists. split; [left; reflexivity|]. simpl.
        rewrite Ascii.eqb_refl. rewrite <- (tokenTail_afterToken s1) at 1.
        apply HasPrefix_app.
      * rewrite <- (tokenTail_afterToken s1) at 1.
        apply AllHeads_skip; [apply tokenTail_notSigil|].
        pose proof (length_afterToken s1).
        eapply AllHeads_impl; [|apply (IH (afterToken s1) fuel true); lia].
        intros u (m & Hin & Hp). exists m. split; [right; exact Hin|exact Hp].
    + split; [rewrite Hh; discriminate|].
      rewrite (findAll_skip _ _ _ abuts abuts Hh).
      apply IH; lia.
Qed.

Lemma matches_wf (n : nat) :
  forall s fuel abuts,
    (String.length s <= n)%nat ->
    Forall wfMatch (List.map (fun m => sm_text m :: sm_groups m)
                      (findAll fuel reValPlaceholder s abuts)).
Proof.
  induction n as [|n IH]; intros s fuel abuts Hn.
  - destruct s; [|simpl in Hn; lia]. destruct fuel; constructor.
  - destruct fuel as [|fuel]; [constructor|].
    destruct s as [|a s1]; [constructor|]. simpl in Hn.
    destruct (isHead (String a s1)) eqn:Hh.
    + rewrite (findAll_head _ _ _ _ Hh). simpl. constructor.
      * exists a, (tokenTail s1), (takeWhile isDigit s1).
        split; [reflexivity|]. unfold isHead in Hh. destruct s1 as [|b s2]; [discriminate|].
        apply andb_true_iff in Hh as [Ha _].
        split; [exact Ha|]. split; [apply tokenTail_notSigil|apply allb_takeWhile].
      * apply IH. pose proof (length_afterToken s1). lia.
    + rewrite (findAll_skip _ _ _ abuts abuts Hh). apply IH. lia.
Qed.

Lemma replaceFrom_drop old new :
  forall s n, Str.replaceFrom n s old new = Str.replaceFrom 0 (Str.drop n s) old new.
Proof.
  induction s as [|c s IH]; intros n.
  - destruct n; reflexivity.
  - destruct n as [|n]; [reflexivity|]. simpl. apply IH.
Qed.

Lemma replaceFrom_hit a old' new s :
  Str.HasPrefix s (String a old') = true ->
  Str.replaceFrom 0 s (String a old') new =
  new +:+ Str.replaceFrom 0 (Str.drop (String.length (String a old')) s) (String a old') new.
Proof.
  intros H. destruct s as [|c s]; [discriminate|].
  cbn [Str.replaceFrom]. rewrite H. rewrite replaceFrom_drop.
  simpl. rewrite Nat.sub_0_r. reflexivity.
Qed.

Lemma replaceFrom_miss c s old new :
  Str.HasPrefix (String c s) old = false ->
  Str.replaceFrom 0 (String c s) old new = String c (Str.replaceFrom 0 s old new).
Proof. intros H. cbn [Str.replaceFrom]. rewrite H. reflexivity. Qed.

Lemma HasPrefix_notSigil c s a t :
  isSigil a = true -> notSigil c = true -> Str.HasPrefix (String c s) (String a t) = false.
Proof.
  intros Ha Hc. simpl. destruct (Ascii.eqb_spec a c) as [->|]; [|reflexivity].
  unfold notSigil in Hc. rewrite Ha in Hc. discriminate.
Qed.

(** A stretch without sigils is copied: no occurrence of a text that opens
    with a sigil starts in it. *)
Lemma replaceFrom_through a t new x r :
  isSigil a = true -> allb notSigil x = true ->
  Str.replaceFrom 0 (x +:+ r) (String a t) new =
  x +:+ Str.replaceFrom 0 r (String a t) new.
Proof.
  intros Ha. induction x as [|c x IH]; [reflexivity|]. simpl allb.
  intros H. apply andb_true_iff in H as [Hc Hx].
  rewrite !append_cons, replaceFrom_miss; [|apply HasPrefix_notSigil; assumption].
  rewrite (IH Hx). reflexivity.
Qed.

(** Replacing the occurrences of a placeholder text [String a t] by a
    parameter name: the heads left are heads that were there, and they are
    not heads of that text. *)
Lemma replace_heads (Q : string -> Prop) (a : ascii) (t k : string) :
  isSigil a = true -> allb notSigil t = true -> allb notSigil k = true ->
  (forall u, Q u -> Str.HasPrefix u (String a t) = false ->
             Q (Str.replaceFrom 0 u (String a t) (String "@" (String "_" k)))) ->
  forall n q,
    (String.length q <= n)%nat ->
    AllHeads (fun u => Str.HasPrefix u (String a t) = true \/ Q u) q ->
    AllHeads Q (Str.replaceFrom 0 q (String a t) (String "@" (String "_" k))).
Proof.
  intros Ha Ht Hk Hstable. induction n as [|n IH]; intros q Hn Hq.
  - destruct q; [exact I|simpl in Hn; lia].
  - destruct q as [|c q']; [exact I|]. simpl in Hn.
    destruct (Str.HasPrefix (String c q') (String a t)) eqn:Hp.
    + rewrite (replaceFrom_hit _ _ _ _ Hp).
      pose proof (HasPrefix_split _ _ Hp) as Hsplit.
      set (r := Str.drop (String.length (String a t)) (String c q')) in *.
      rewrite !append_cons. cbn [AllHeads]. split; [discriminate|]. split.
      { rewrite isHead_notSigil; [discriminate|reflexivity]. }
      apply AllHeads_skip; [exact Hk|].
      apply IH.
      * assert (Hlen : String.length (String c q') =
                       (String.length (String a t) + String.length r)%nat).
        { rewrite Hsplit at 1. apply length_app_s. }
        simpl in Hlen. lia.
      * rewrite Hsplit in Hq. apply AllHeads_app_r in Hq. exact Hq.
    + rewrite (replaceFrom_miss _ _ _ _ Hp). destruct Hq as [Hh Hq']. split.
      * intros Hhead.
        assert (Hh0 : isHead (String c q') = true).
        { destruct q' as [|d q'']; [discriminate|].
          destruct (Str.HasPrefix (String d q'') (String a t)) eqn:Hp'.
          - rewrite (replaceFrom_hit _ _ _ _ Hp') in Hhead. rewrite !append_cons in Hhead.
            simpl in Hhead. rewrite andb_false_r in Hhead. discriminate.
          - rewrite (replaceFrom_miss _ _ _ _ Hp') in Hhead. exact Hhead. }
        destruct (Hh Hh0) as [Habs|HQ]; [congruence|].
        rewrite <- (replaceFrom_miss _ _ _ _ Hp). apply Hstable; assumption.
      * apply IH; [lia|exact Hq'].
Qed.

Lemma covered_stable (ms : list (list string)) (a : ascii) (t new : string) :
  Forall wfMatch ms -> isSigil a = true ->
  forall u, covered ms u -> Str.HasPrefix u (String a t) = false ->
            covered ms (Str.replaceFrom 0 u (String a t) new).
Proof.
  intros Hwf Ha u (m & Hin & Hp) Hmiss. exists m. split; [exact Hin|].
  rewrite Forall_forall in Hwf. destruct (Hwf m) as (a2 & tail2 & d2 & -> & Ha2 & Ht2 & _).
  { apply list_elem_of_In. exact Hin. }
  change (StmtSelect.sub [String a2 tail2; d2] 0) with (String a2 tail2) in *.
  rewrite (HasPrefix_split _ _ Hp) in Hmiss |- *.
  set (r := Str.drop (String.length (String a2 tail2)) u) in *.
  rewrite append_cons in Hmiss |- *.
  rewrite (replaceFrom_miss _ _ _ _ Hmiss).
  rewrite (replaceFrom_through _ _ _ _ _ Ha Ht2).
  rewrite <- append_cons. apply HasPrefix_app.
Qed.

Lemma digits_notSigil d : allb isDigit d = true -> allb notSigil d = true.
Proof. apply allb_impl. exact digit_notSigil. Qed.

Lemma replacement_shape (a : ascii) (tail d : string) :
  allb isDigit d = true ->
  exists k, StmtSelect.replacement [String a tail; d] = String "@" (String "_" k) /\
            allb notSigil k = true.
Proof.
  intros Hd. unfold StmtSelect.replacement, StmtSelect.paramName.
  change (StmtSelect.sub [String a tail; d] 1) with d.
  destruct (Str.HasSuffix _ " ").
  - exists (d +:+ " "). split; [reflexivity|].
    rewrite allb_app, (digits_notSigil _ Hd). reflexivity.
  - exists d. split; [reflexivity|]. apply digits_notSigil. exact Hd.
Qed.

(** After the loop of [parse] has gone through all matches without error,
    no placeholder is left in the query. *)
Lemma rewrite_no_placeholder (ms : list (list string)) :
  Forall wfMatch ms ->
  forall q phs q' phs',
    AllHeads (covered ms) q ->
    StmtSelect.rewrite ms q phs = (q', phs', None) ->
    hasPlaceholder q' = false.
Proof.
  induction ms as [|m ms IH]; intros Hwf q phs q' phs' Hcov Hrw.
  - simpl in Hrw. injection Hrw as <- <-. apply AllHeads_none.
    eapply AllHeads_impl; [|exact Hcov]. intros u (m & [] & _).
  - apply Forall_cons in Hwf as [Hm Hwf].
    destruct Hm as (a & tail & d & -> & Ha & Htail & Hd).
    simpl in Hrw.
    change (StmtSelect.sub [String a tail; d] 1) with d in Hrw.
    change (StmtSelect.sub [String a tail; d] 0) with (String a tail) in Hrw.
    destruct (strconv.Atoi d) as [v [e|]]; [discriminate|].
    destruct (replacement_shape a tail d Hd) as (k & Hkey & Hk). rewrite Hkey in Hrw.
    eapply IH; [exact Hwf| |exact Hrw].
    unfold Str.ReplaceAll.
    apply (replace_heads (covered ms) a tail k Ha Htail Hk
             (covered_stable ms a tail _ Hwf Ha) (String.length q) q (le_n _)).
    eapply AllHeads_impl; [|exact Hcov].
    intros u (m & [<-|Hin] & Hp); [left; exact Hp|right; exists m; auto].
Qed.

Section NoPlaceholderLeft.
Variable parseWithOpts : string -> gmap string string * option error.

(** X23. A [parse] without error leaves no placeholder of the forms [$n], [@n],
    [:n] in the query: the placeholder pattern has no match in the
    rewritten text. *)
Theorem parse_leaves_no_placeholder (s s' : StmtSelect.t) (withOptsStr : string) :
  StmtSelect.parse parseWithOpts s withOptsStr = (s', None) ->
  FindAllStringSubmatch reValPlaceholder (StmtSelect.selectQuery s') = [].
Proof.
  intros Hparse. apply parse_ok in Hparse as [Hrw _]. simpl in Hrw.
  apply matches_None.
  eapply rewrite_no_placeholder; [| |exact Hrw].
  - apply (matches_wf (String.length (StmtSelect.selectQuery s))). lia.
  - apply (matches_cover (String.length (StmtSelect.selectQuery s))); lia.
Qed.

End NoPlaceholderLeft.

(** C6 fails on the code where a placeholder is followed by a comma and a
    digit: [parse] replaces the placeholder together with the comma, and
    the number of the parameter runs into the digit. The body
    [... c.k IN ($1,2)] becomes [... c.k IN (@_12)]: the name bound to the
    first argument is [@_1], and the only parameter of the query is
    [@_12]. *)
Theorem select_rewrite_glues_digits :
  let r := StmtSelect.parse Runs.noOpts
             (Runs.selectStmt "SELECT * FROM c WHERE c.k IN ($1,2)") "" in
  snd r = None /\
  StmtSelect.numInput (fst r) = 1 /\
  StmtSelect.placeholders (fst r) !! 1 = Some "@_1" /\
  StmtSelect.selectQuery (fst r) = "SELECT * FROM c WHERE c.k IN (@_12)" /\
  paramNumbers (StmtSelect.selectQuery (fst r)) = ["12"].
Proof. cbv zeta. repeat split; vm_compute; reflexivity. Qed.

(** ** The value lexer *)

(** C8. The lexer makes the number 123 of the token ["123"] (between
    double quotes) and of the bare token [123], and the string [123] of the
    token ["\"123\""]; in general, where the patterns before the quoted one
    do not match, the quoted text is unquoted and then read as JSON, which
    decides the type of the value. *)
Theorem lexer_quoted_values_are_json :
  lexedValues (quoted "123") = Some ([VLiteral (GFloat64 (inject_Z 123))], None) /\
  lexedValues "123" = Some ([VLiteral (GFloat64 (inject_Z 123))], None) /\
  lexedValues (quoted (escaped (quoted ("123" +:+ escaped ""))))
    = Some ([VLiteral (GString "123")], None) /\
  (forall temp e,
     Lexer.matchAtStart reValPlaceholder temp = None ->
     Lexer.matchAtStart reValNull temp = None ->
     Lexer.matchAtStart reValNumber temp = None ->
     Lexer.matchAtStart reValBoolean temp = None ->
     Lexer.matchAtStart reValString temp = Some e ->
     Lexer.lexValue temp =
       match strconv.Unquote (Lexer.trimToken (Str.slice temp 0 e)) with
       | None => Lexer.LexError (Lexer.invalidToken "(unquote) " "")
       | Some token =>
           match json.Unmarshal token with
           | None => Lexer.LexError (Lexer.invalidToken "(unmarshal) " token)
           | Some data => Lexer.LexLiteral data (Str.drop e temp)
           end
       end).
Proof.
  split; [vm_compute; reflexivity|].
  split; [vm_compute; reflexivity|].
  split; [vm_compute; reflexivity|].
  intros temp e H1 H2 H3 H4 H5. unfold Lexer.lexValue.
  rewrite H1, H2, H3, H4, H5. reflexivity.
Qed.

(** The quoted token 123. *)
Lemma lexer_quoted_values_are_json_witness :
  Lexer.lexValue (quoted "123") = Lexer.LexLiteral (GFloat64 (inject_Z 123)) "".
Proof.
  refine (proj2 (proj2 (proj2 lexer_quoted_values_are_json)) (quoted "123") 5%nat
            _ _ _ _ _); vm_compute; reflexivity.
Defined.

(** ** The parsers of INSERT and UPDATE

    *** The text a pattern takes *)

Lemma Suffix_refl s : Suffix s s.
Proof. exists ""%string. reflexivity. Qed.

Lemma Suffix_trans a b c : Suffix a b -> Suffix b c -> Suffix a c.
Proof.
  intros [p ->] [q ->]. exists (q +:+ p). now rewrite app_assoc_s.
Qed.

Lemma Suffix_cons a s : Suffix s (String a s).
Proof. exists (String a ""). reflexivity. Qed.

Lemma Suffix_length rest s : Suffix rest s -> (String.length rest <= String.length s)%nat.
Proof. intros [p ->]. rewrite length_app_s. lia. Qed.

Lemma orElse_Some {A} (a b : option A) x :
  orElse a b = Some x -> a = Some x \/ b = Some x.
Proof. destruct a; cbn; auto. Qed.

Lemma star_entered g (body : string -> caps -> cont -> option (string * caps)) :
  (forall s c k res, body s c k = Some res -> entered false s k res) ->
  forall fuel k s c res,
    star g body k fuel s c = Some res -> entered false s k res.
Proof.
  intros Hbody fuel. induction fuel as [|fuel IH]; intros k s c res H.
  - cbn in H. destruct g; cbn in H; try discriminate.
    + exists s, c. split; [apply Suffix_refl|]. split; [discriminate|exact H].
    + destruct (k s c) eqn:Hk; cbn in H; [|discriminate].
      exists s, c. split; [apply Suffix_refl|]. split; [discriminate|congruence].
  - cbn [star] in H.
    assert (Hag : body s c (fun s' c' =>
              if (String.length s' <? String.length s)%nat
              then star g body k fuel s' c' else None) = Some res ->
            entered false s k res).
    { intros Hb. apply Hbody in Hb. destruct Hb as (s1 & c1 & Hs1 & _ & Hk1).
      destruct (String.length s1 <? String.length s)%nat; [|discriminate].
      apply IH in Hk1. destruct Hk1 as (s2 & c2 & Hs2 & _ & Hk2).
      exists s2, c2. split; [eapply Suffix_trans; eauto|]. split; [discriminate|exact Hk2]. }
    assert (Hk : k s c = Some res -> entered false s k res).
    { intros Hk. exists s, c. split; [apply Suffix_refl|]. split; [discriminate|exact Hk]. }
    destruct g; apply orElse_Some in H; destruct H; auto.
Qed.

Lemma entered_weaken b s k res : entered b s k res -> entered false s k res.
Proof.
  intros (s' & c' & H1 & _ & H3). exists s', c'. split; [exact H1|]. split; [discriminate|exact H3].
Qed.

Lemma run_entered (r : regex) :
  forall s c k res, run r s c k = Some res -> entered (negb (nullable r)) s k res.
Proof.
  induction r as [|f|r1 IH1 r2 IH2|r1 IH1 r2 IH2|g r IH|n r IH]; intros s c k res H.
  - exists s, c. split; [apply Suffix_refl|]. split; [discriminate|exact H].
  - cbn in H. destruct s as [|a s']; [discriminate|]. destruct (f a); [|discriminate].
    exists s', c. split; [apply Suffix_cons|]. split; [cbn; lia|exact H].
  - cbn [run] in H. apply IH1 in H. destruct H as (s1 & c1 & Hs1 & Hp1 & H).
    apply IH2 in H. destruct H as (s2 & c2 & Hs2 & Hp2 & H).
    exists s2, c2. split; [eapply Suffix_trans; eauto|]. split; [|exact H].
    cbn [nullable]. intros Hn. apply negb_true_iff, andb_false_iff in Hn.
    apply Suffix_length in Hs1, Hs2.
    destruct Hn as [Hn|Hn]; [specialize (Hp1 ltac:(now rewrite Hn))
                            |specialize (Hp2 ltac:(now rewrite Hn))]; lia.
  - cbn [run] in H. apply orElse_Some in H. cbn [nullable].
    destruct H as [H|H]; [apply IH1 in H|apply IH2 in H];
      destruct H as (s1 & c1 & Hs1 & Hp1 & H); exists s1, c1;
      (split; [exact Hs1|]); (split; [|exact H]); intros Hn;
      apply negb_true_iff, orb_false_iff in Hn; destruct Hn as [Hn1 Hn2];
      apply Hp1; [now rewrite Hn1|now rewrite Hn2].
  - cbn [run] in H. cbn [nullable negb].
    eapply star_entered; [|exact H]. intros s0 c0 k0 res0 H0.
    eapply entered_weaken. eapply IH. exact H0.
  - cbn [run] in H. apply IH in H. destruct H as (s1 & c1 & Hs1 & Hp1 & H).
    exists s1, (((n, (String.length s, String.length s1)) :: c1)).
    split; [exact Hs1|]. split; [exact Hp1|exact H].
Qed.

Lemma match_here_suffix r s rest c :
  match_here r s = Some (rest, c) ->
  Suffix rest s /\ (nullable r = false -> (String.length rest < String.length s)%nat).
Proof.
  intros H. apply run_entered in H. destruct H as (s' & c' & Hs & Hp & H).
  injection H as -> ->. split; [exact Hs|]. intros Hn. apply Hp. now rewrite Hn.
Qed.

Lemma submatchHere_split r s m :
  submatchHere r s = Some m ->
  sm_pre m = ""%string /\ s = sm_text m +:+ sm_rest m /\
  (nullable r = false -> sm_text m <> ""%string).
Proof.
  unfold submatchHere. destruct (match_here r s) as [[rest c]|] eqn:H; [|discriminate].
  intros E. injection E as <-. cbn [sm_pre sm_text sm_rest].
  apply match_here_suffix in H. destruct H as [[pre ->] Hp].
  rewrite take_app_length. split; [reflexivity|]. split; [reflexivity|].
  intros Hn Hpre. subst pre. specialize (Hp Hn). rewrite append_nil_l in Hp. lia.
Qed.

Lemma find_split r s : forall m,
  find r s = Some m ->
  s = sm_pre m +:+ (sm_text m +:+ sm_rest m) /\
  (nullable r = false -> sm_text m <> ""%string).
Proof.
  induction s as [|a s IH]; intros m; cbn [find].
  - destruct (submatchHere r "") as [m'|] eqn:H; [|discriminate].
    intros E. injection E as <-. apply submatchHere_split in H.
    destruct H as (-> & H & Hn). rewrite append_nil_l. auto.
  - destruct (submatchHere r (String a s)) as [m'|] eqn:H.
    + intros E. injection E as <-. apply submatchHere_split in H.
      destruct H as (-> & H & Hn). rewrite append_nil_l. auto.
    + destruct (find r s) as [m'|] eqn:Hf; [|discriminate].
      intros E. injection E as <-. cbn [sm_pre sm_text sm_rest].
      destruct (IH m' eq_refl) as [Hs Hn]. rewrite append_cons. split; [congruence|exact Hn].
Qed.

Lemma length_nonempty (s : string) : s <> ""%string -> (0 < String.length s)%nat.
Proof. destruct s; [congruence|cbn; lia]. Qed.

Lemma FindStringIndex_bounds r s lo hi :
  FindStringIndex r s = Some (lo, hi) ->
  (lo <= hi <= String.length s)%nat /\ (nullable r = false -> (lo < hi)%nat).
Proof.
  unfold FindStringIndex. destruct (find r s) as [m|] eqn:H; [|discriminate].
  intros E. injection E as <- <-. apply find_split in H. destruct H as [Hs Hn].
  split.
  - apply (f_equal String.length) in Hs. rewrite !length_app_s in Hs. lia.
  - intros Hr. specialize (Hn Hr). apply length_nonempty in Hn. lia.
Qed.

Lemma matchAtStart_bounds r s e :
  Lexer.matchAtStart r s = Some e ->
  (e <= String.length s)%nat /\ (nullable r = false -> (0 < e)%nat).
Proof.
  unfold Lexer.matchAtStart. destruct (FindStringIndex r s) as [[lo hi]|] eqn:H; [|discriminate].
  destruct lo; [|discriminate]. intros E. injection E as <-.
  apply FindStringIndex_bounds in H. destruct H as [H1 H2]. split; [lia|exact H2].
Qed.

Lemma length_drop n s : String.length (Str.drop n s) = (String.length s - n)%nat.
Proof.
  revert s. induction n as [|n IH]; intros s; cbn; [lia|].
  destruct s; cbn; [reflexivity|apply IH].
Qed.

Lemma length_rev_append s acc :
  String.length (Str.rev_append s acc) = (String.length s + String.length acc)%nat.
Proof.
  revert acc. induction s as [|a s IH]; intros acc; cbn; [reflexivity|].
  rewrite IH. cbn. lia.
Qed.

Lemma length_rev s : String.length (Str.rev s) = String.length s.
Proof. unfold Str.rev. rewrite length_rev_append. cbn. lia. Qed.

Lemma length_trimLeftSeqs seqs fuel s :
  (String.length (Str.trimLeftSeqs seqs fuel s) <= String.length s)%nat.
Proof.
  revert s. induction fuel as [|fuel IH]; intros s; cbn [Str.trimLeftSeqs]; [lia|].
  destruct (Str.startsWithAny seqs s) as [q|]; [|lia].
  destruct (0 <? String.length q)%nat; [|lia].
  pose proof (IH (Str.drop (String.length q) s)) as H.
  rewrite length_drop in H. lia.
Qed.

Lemma length_TrimFunc seqs s :
  (String.length (Str.TrimFunc seqs s) <= String.length s)%nat.
Proof.
  unfold Str.TrimFunc. rewrite length_rev.
  match goal with |- (String.length (Str.trimLeftSeqs ?a ?b ?c) <= _)%nat =>
    pose proof (length_trimLeftSeqs a b c) as H end.
  rewrite length_rev in H.
  pose proof (length_trimLeftSeqs seqs (String.length s) s). lia.
Qed.

Lemma length_TrimSpace s : (String.length (Str.TrimSpace s) <= String.length s)%nat.
Proof. apply length_TrimFunc. Qed.

Lemma lexValue_shrinks temp rest :
  restOf (Lexer.lexValue temp) = Some rest ->
  (String.length rest < String.length temp)%nat.
Proof.
  unfold Lexer.lexValue.
  assert (D : forall r e, nullable r = false -> Lexer.matchAtStart r temp = Some e ->
              (String.length (Str.drop e temp) < String.length temp)%nat).
  { intros r e Hn H. apply matchAtStart_bounds in H. destruct H as [H1 H2].
    specialize (H2 Hn). rewrite length_drop. lia. }
  destruct (Lexer.matchAtStart reValPlaceholder temp) eqn:H1.
  { cbn. intros E. injection E as <-. eapply D; [|exact H1]. reflexivity. }
  destruct (Lexer.matchAtStart reValNull temp) eqn:H2.
  { cbn. intros E. injection E as <-. eapply D; [|exact H2]. reflexivity. }
  destruct (Lexer.matchAtStart reValNumber temp) eqn:H3.
  { destruct (json.Unmarshal _); cbn; [|discriminate].
    intros E. injection E as <-. eapply D; [|exact H3]. reflexivity. }
  destruct (Lexer.matchAtStart reValBoolean temp) eqn:H4.
  { destruct (json.UnmarshalBool _); cbn; [|discriminate].
    intros E. injection E as <-. eapply D; [|exact H4]. reflexivity. }
  destruct (Lexer.matchAtStart reValString temp) eqn:H5.
  { destruct (strconv.Unquote _); cbn; [|discriminate].
    destruct (json.Unmarshal _); cbn; [|discriminate].
    intros E. injection E as <-. eapply D; [|exact H5]. reflexivity. }
  discriminate.
Qed.

Lemma lexValues_fuel fuel : forall temp values numInput,
  (String.length temp < fuel)%nat ->
  StmtInsert.lexValues fuel temp values numInput <> None.
Proof.
  induction fuel as [|fuel IH]; intros temp values numInput Hf; [lia|].
  cbn [StmtInsert.lexValues]. destruct temp as [|a temp']; [discriminate|].
  destruct (Lexer.lexValue (String a temp')) as [ph rest|v rest|e] eqn:H;
    [| |discriminate].
  - apply IH. pose proof (lexValue_shrinks (String a temp') rest) as Hs.
    rewrite H in Hs. specialize (Hs eq_refl).
    pose proof (length_TrimSpace rest). lia.
  - apply IH. pose proof (lexValue_shrinks (String a temp') rest) as Hs.
    rewrite H in Hs. specialize (Hs eq_refl).
    pose proof (length_TrimSpace rest). lia.
Qed.

(** X1. [parse] of an INSERT returns on every statement: every round of its
    loop takes at least one byte off the text that is left. *)
Theorem insert_parse_terminates (s : StmtInsert.t) :
  exists s' err, StmtInsert.parse s = Some (s', err).
Proof.
  unfold StmtInsert.parse.
  destruct (StmtInsert.lexValues _ _ _ _) as [[[values numInput] err]|] eqn:H.
  - eauto.
  - exfalso. revert H. apply lexValues_fuel. lia.
Qed.

Lemma parseClause_fuel fuel : forall temp fields values numInput,
  (String.length temp < fuel)%nat ->
  StmtUpdate.parseClause fuel temp fields values numInput <> None.
Proof.
  induction fuel as [|fuel IH]; intros temp fields values numInput Hf; [lia|].
  cbn [StmtUpdate.parseClause]. destruct temp as [|a temp']; [discriminate|].
  destruct (FindStringIndex reFieldPart (String a temp')) as [[lo hi]|] eqn:Hfi;
    [|discriminate].
  destruct lo; [|discriminate].
  apply FindStringIndex_bounds in Hfi. destruct Hfi as [Hb _].
  set (temp1 := Str.TrimSpace (Str.drop hi (String a temp'))).
  assert (H1 : (String.length temp1 <= String.length (String a temp'))%nat).
  { unfold temp1. pose proof (length_TrimSpace (Str.drop hi (String a temp'))) as Ht.
    rewrite length_drop in Ht. lia. }
  destruct (Lexer.lexValue temp1) as [ph rest|v rest|e] eqn:H; [| |discriminate].
  - apply IH. pose proof (lexValue_shrinks temp1 rest) as Hs.
    rewrite H in Hs. specialize (Hs eq_refl).
    pose proof (length_TrimSpace rest). lia.
  - apply IH. pose proof (lexValue_shrinks temp1 rest) as Hs.
    rewrite H in Hs. specialize (Hs eq_refl).
    pose proof (length_TrimSpace rest). lia.
Qed.

(** X4. [parse] of an UPDATE ends on every statement, with a result or a
    panic: every round of the loop of [_parseUpdateClause] takes at least
    one byte off the text that is left. *)
Theorem update_parse_terminates (s : StmtUpdate.t) :
  exists o, StmtUpdate.parse s = Some o.
Proof.
  unfold StmtUpdate.parse.
  destruct (StmtUpdate._parseId _) as [[s2 [e|]]|p]; eauto.
  unfold StmtUpdate._parseUpdateClause.
  destruct (StmtUpdate.parseClause _ _ _ _ _) as [[[[[f v] n] err]|p]|] eqn:H; eauto.
  exfalso. revert H. apply parseClause_fuel. lia.
Qed.

(** *** What the parsers count *)

Lemma placeholdersIn_app (xs ys : list StmtValue) :
  placeholdersIn (xs ++ ys) = placeholdersIn xs + placeholdersIn ys.
Proof.
  unfold placeholdersIn, len. rewrite List.filter_app, List.length_app. lia.
Qed.

Lemma placeholdersIn_placeholder ph : placeholdersIn [VPlaceholder ph] = 1.
Proof. reflexivity. Qed.

Lemma placeholdersIn_literal v : placeholdersIn [VLiteral v] = 0.
Proof. reflexivity. Qed.

Lemma len_single {A} (x : A) : len [x] = 1.
Proof. reflexivity. Qed.

Lemma len_app {A} (xs ys : list A) : len (xs ++ ys) = len xs + len ys.
Proof. unfold len. rewrite List.length_app. lia. Qed.

Lemma lexValues_counts fuel : forall temp values numInput values' numInput' err,
  StmtInsert.lexValues fuel temp values numInput = Some (values', numInput', err) ->
  numInput' - placeholdersIn values' = numInput - placeholdersIn values.
Proof.
  induction fuel as [|fuel IH]; intros temp values numInput values' numInput' err H;
    [discriminate|].
  cbn [StmtInsert.lexValues] in H. destruct temp as [|a temp'].
  { injection H as <- <- <-. reflexivity. }
  destruct (Lexer.lexValue (String a temp')) as [ph rest|v rest|e].
  - apply IH in H. rewrite placeholdersIn_app, placeholdersIn_placeholder in H. lia.
  - apply IH in H. rewrite placeholdersIn_app, placeholdersIn_literal in H. lia.
  - injection H as <- <- <-. reflexivity.
Qed.

(** X2. After [parse], with or without error, an INSERT expects one input for
    every placeholder among its values, and one more. *)
Theorem insert_parse_counts_placeholders (s s' : StmtInsert.t) (err : option error) :
  StmtInsert.parse s = Some (s', err) ->
  StmtInsert.numInput s' = placeholdersIn (StmtInsert.values s') + 1.
Proof.
  unfold StmtInsert.parse.
  destruct (StmtInsert.lexValues _ _ _ _) as [[[values numInput] e]|] eqn:H; [|discriminate].
  intros E. injection E as <- <-. cbn [StmtInsert.numInput StmtInsert.values].
  apply lexValues_counts in H. change (placeholdersIn []) with 0 in H. lia.
Qed.

Lemma parseClause_counts fuel : forall temp fields values numInput fields' values' numInput' err,
  StmtUpdate.parseClause fuel temp fields values numInput
    = Some (Returned (fields', values', numInput', err)) ->
  numInput' - placeholdersIn values' = numInput - placeholdersIn values /\
  (err = None -> len fields' - len values' = len fields - len values).
Proof.
  induction fuel as [|fuel IH];
    intros temp fields values numInput fields' values' numInput' err H; [discriminate|].
  cbn [StmtUpdate.parseClause] in H. destruct temp as [|a temp'].
  { injection H as <- <- <- <-. auto. }
  destruct (FindStringIndex reFieldPart (String a temp')) as [[lo hi]|]; [|discriminate].
  destruct lo.
  2:{ injection H as <- <- <- <-. split; [reflexivity|discriminate]. }
  destruct (Lexer.lexValue _) as [ph rest|v rest|e].
  - apply IH in H. destruct H as [H1 H2].
    rewrite placeholdersIn_app, placeholdersIn_placeholder in H1.
    rewrite !len_app, !len_single in H2. split; [lia|]. intros E. specialize (H2 E). lia.
  - apply IH in H. destruct H as [H1 H2].
    rewrite placeholdersIn_app, placeholdersIn_literal in H1.
    rewrite !len_app, !len_single in H2. split; [lia|]. intros E. specialize (H2 E). lia.
  - injection H as <- <- <- <-. split; [reflexivity|discriminate].
Qed.

Lemma parseId_numInput idStr id numInput idStr' id' numInput' :
  StmtDelete.parseId idStr id numInput = Returned (idStr', id', numInput', None) ->
  id = None ->
  numInput' = numInput + idInputs id'.
Proof.
  unfold StmtDelete.parseId. intros H ->.
  destruct (negb _); [discriminate|].
  destruct (_ && _).
  { destruct (_ <? _)%nat; [discriminate|]. injection H as <- <- <-. cbn. lia. }
  destruct (FindStringIndex _ _) as [[lo hi]|].
  2:{ injection H as <- <- <-. cbn. lia. }
  destruct (_ && _); [|discriminate].
  destruct (strconv.Atoi _) as [i [e|]]; [discriminate|].
  destruct (i <? 1); [discriminate|]. injection H as <- <- <-. reflexivity.
Qed.

(** X5. After an UPDATE is parsed without error, it has as many values as
    fields, so that of the checks of [validate] only the empty id and the
    empty SET clause are left; and it expects one input for the id, if
    that is a placeholder, one for every placeholder among its values, and
    one more. *)
Theorem update_parse_counts (s s' : StmtUpdate.t) :
  StmtUpdate.id s = None ->
  StmtUpdate.parse s = Some (Returned (s', None)) ->
  len (StmtUpdate.fields s') = len (StmtUpdate.values s') /\
  StmtUpdate.numInput s' =
    idInputs (StmtUpdate.id s') + placeholdersIn (StmtUpdate.values s') + 1 /\
  StmtUpdate.validate s' =
    (if String.eqb (StmtUpdate.idStr s') "" then Some (errorString "id value is missing")
     else if len (StmtUpdate.fields s') =? 0
          then Some (errorString "invalid query: SET clause is empty")
          else None).
Proof.
  intros Hid. unfold StmtUpdate.parse, StmtUpdate._parseId. cbn [StmtUpdate.idStr StmtUpdate.id
    StmtUpdate.numInput StmtUpdate.dbName StmtUpdate.collName StmtUpdate.updateStr
    StmtUpdate.fields StmtUpdate.values].
  destruct (StmtDelete.parseId _ _ _) as [[[[idStr' id'] n'] e]|p] eqn:Hp; [|discriminate].
  destruct e as [e|]; [discriminate|].
  apply parseId_numInput in Hp; [|exact Hid].
  unfold StmtUpdate._parseUpdateClause. cbn [StmtUpdate.idStr StmtUpdate.id
    StmtUpdate.numInput StmtUpdate.dbName StmtUpdate.collName StmtUpdate.updateStr
    StmtUpdate.fields StmtUpdate.values].
  destruct (StmtUpdate.parseClause _ _ _ _ _) as [[[[[f v] n] err]|p]|] eqn:H; try discriminate.
  intros E. injection E as <- ->. apply parseClause_counts in H. destruct H as [H1 H2].
  specialize (H2 eq_refl). change (placeholdersIn []) with 0 in H1.
  change (len (@nil string)) with 0 in H2. change (len (@nil StmtValue)) with 0 in H2.
  assert (Hlen : len f = len v) by lia.
  split; [exact Hlen|]. split; [cbn [StmtUpdate.numInput StmtUpdate.id StmtUpdate.values]; lia|].
  unfold StmtUpdate.validate. cbn [StmtUpdate.idStr StmtUpdate.fields StmtUpdate.values].
  rewrite Hlen, Z.eqb_refl. reflexivity.
Qed.

(** *** The id of a DELETE and of an UPDATE *)

Lemma rev_append_app s acc : Str.rev_append s acc = Str.rev s +:+ acc.
Proof.
  revert acc. induction s as [|a s IH]; intros acc; [reflexivity|].
  unfold Str.rev. cbn [Str.rev_append]. rewrite (IH (String a "")), IH.
  rewrite app_assoc_s. reflexivity.
Qed.

Lemma rev_cons a s : Str.rev (String a s) = Str.rev s +:+ String a "".
Proof. unfold Str.rev at 1. cbn [Str.rev_append]. apply rev_append_app. Qed.

Lemma append_nil_r (s : string) : s +:+ "" = s.
Proof. induction s as [|a s IH]; [reflexivity|]. rewrite append_cons. now f_equal. Qed.

Lemma rev_app x y : Str.rev (x +:+ y) = Str.rev y +:+ Str.rev x.
Proof.
  induction x as [|a x IH].
  - rewrite append_nil_l. change (Str.rev "") with ""%string. now rewrite append_nil_r.
  - rewrite append_cons, !rev_cons, IH, app_assoc_s. reflexivity.
Qed.

Lemma allb_rev f s : allb f (Str.rev s) = allb f s.
Proof.
  induction s as [|a s IH]; [reflexivity|].
  rewrite rev_cons, allb_app, IH. cbn. rewrite andb_true_r. apply andb_comm.
Qed.

Lemma HasSuffix_quoted x q : Str.HasSuffix (x +:+ String q "") (String q "") = true.
Proof.
  unfold Str.HasSuffix. rewrite rev_app. change (Str.rev (String q "")) with (String q "").
  rewrite append_cons, append_nil_l. cbn [Str.HasPrefix]. rewrite Ascii.eqb_refl.
  destruct (Str.rev x); reflexivity.
Qed.

Lemma HasSuffix_other (f : ascii -> bool) s q :
  allb f s = true -> f q = false -> Str.HasSuffix s (String q "") = false.
Proof.
  intros Hs Hq. unfold Str.HasSuffix. change (Str.rev (String q "")) with (String q "").
  rewrite <- allb_rev in Hs. destruct (Str.rev s) as [|h r]; [reflexivity|].
  cbn in Hs |- *. destruct (Ascii.eqb q h) eqn:E; [|reflexivity].
  apply Ascii.eqb_eq in E. subst h. rewrite Hq in Hs. discriminate.
Qed.

Lemma HasPrefix_char s q :
  Str.HasPrefix s (String q "") = true -> exists r, s = String q r.
Proof.
  destruct s as [|a r]; [discriminate|]. cbn.
  destruct (Ascii.eqb q a) eqn:E; [|discriminate]. apply Ascii.eqb_eq in E. subst. eauto.
Qed.

Lemma take_app_exact x r : Str.take (String.length x) (x +:+ r) = x.
Proof.
  induction x as [|a x IH]; [destruct r; reflexivity|].
  rewrite append_cons. cbn. now f_equal.
Qed.

Lemma parseId_quoted body id numInput :
  StmtDelete.parseId (quoted body) id numInput
    = Returned (Str.TrimSpace body, id, numInput, None).
Proof.
  unfold StmtDelete.parseId, quoted.
  assert (Hp : Str.HasPrefix (String dquote (body +:+ String dquote "")) (String dquote "") = true).
  { cbn [Str.HasPrefix]. rewrite Ascii.eqb_refl. destruct (body +:+ _); reflexivity. }
  assert (Hs : Str.HasSuffix (String dquote (body +:+ String dquote "")) (String dquote "") = true).
  { rewrite <- append_cons. apply HasSuffix_quoted. }
  rewrite Hp, Hs. cbn [Bool.eqb negb andb].
  cbn [String.length]. rewrite length_app_s. cbn [String.length].
  replace (S (String.length body + 1) - 1 <? 1)%nat with false
    by (symmetry; apply Nat.ltb_ge; lia).
  unfold Str.slice. cbn [Str.drop].
  replace (S (String.length body + 1) - 1 - 1)%nat with (String.length body) by lia.
  rewrite take_app_exact. reflexivity.
Qed.

Lemma parseId_panics idStr id numInput p :
  StmtDelete.parseId idStr id numInput = Panicked p <-> idStr = String dquote "" /\ p = IndexOutOfRange.
Proof.
  split.
  - unfold StmtDelete.parseId.
    destruct (negb _); [discriminate|].
    destruct (Str.HasPrefix idStr (String dquote "")) eqn:Hp; cbn [andb].
    2:{ destruct (FindStringIndex _ _) as [[lo hi]|]; [|discriminate].
        destruct (_ && _); [|discriminate].
        destruct (strconv.Atoi _) as [i [e|]]; [discriminate|].
        destruct (i <? 1); discriminate. }
    destruct (Str.HasSuffix _ _).
    2:{ destruct (FindStringIndex _ _) as [[lo hi]|]; [|discriminate].
        destruct (_ && _); [|discriminate].
        destruct (strconv.Atoi _) as [i [e|]]; [discriminate|].
        destruct (i <? 1); discriminate. }
    destruct (_ <? _)%nat eqn:Hl; [|discriminate].
    intros E. injection E as <-. apply HasPrefix_char in Hp. destruct Hp as [r ->].
    apply Nat.ltb_lt in Hl. cbn in Hl. destruct r; [auto|cbn in Hl; lia].
  - intros [-> ->]. reflexivity.
Qed.

Lemma takeWhile_all f d : allb f d = true -> takeWhile f d = d.
Proof.
  induction d as [|a d IH]; [reflexivity|]. cbn. destruct (f a); [|discriminate].
  cbn. intros H. now rewrite IH.
Qed.

Lemma dropWhile_all f d : allb f d = true -> dropWhile f d = ""%string.
Proof.
  induction d as [|a d IH]; [reflexivity|]. cbn. destruct (f a); [|discriminate].
  cbn. exact IH.
Qed.

Lemma tokenTail_digits d : allb isDigit d = true -> tokenTail d = d.
Proof.
  intros H. unfold tokenTail. rewrite (takeWhile_all _ _ H), (dropWhile_all _ _ H).
  cbn [dropWhile takeWhile commaAt]. rewrite append_nil_l. apply append_nil_r.
Qed.

Lemma FindStringIndex_placeholder c d :
  isSigil c = true -> d <> ""%string -> allb isDigit d = true ->
  FindStringIndex reValPlaceholder (String c d) = Some (O, String.length (String c d)).
Proof.
  intros Hc Hd Hall. unfold FindStringIndex. rewrite find_placeholder_cons.
  destruct d as [|b d']; [congruence|].
  assert (Hb : isDigit b = true) by (cbn in Hall; now apply andb_true_iff in Hall).
  unfold isHead. rewrite Hc, Hb. cbn [andb sm_pre sm_text].
  rewrite (tokenTail_digits _ Hall). reflexivity.
Qed.

Lemma digit_byte a : isDigit a = true -> 0 <= utf8.byte a - 48 <= 9.
Proof.
  destruct a as [[] [] [] [] [] [] [] []]; try discriminate; intros _; vm_compute;
    split; discriminate.
Qed.

Lemma digitsValue_digits d : forall acc,
  allb isDigit d = true ->
  strconv.digitsValue strconv.digitVal 10 d acc
    = Some (fold_left (fun acc a => acc * 10 + (utf8.byte a - 48)) (list_ascii_of_string d) acc).
Proof.
  induction d as [|a d IH]; intros acc H; [reflexivity|].
  cbn in H. apply andb_true_iff in H. destruct H as [Ha Hd].
  cbn [strconv.digitsValue list_ascii_of_string fold_left].
  unfold strconv.digitVal at 1. rewrite Ha. apply IH. exact Hd.
Qed.

Lemma fold_decimal_nonneg l : forall acc,
  0 <= acc -> Forall (fun a => isDigit a = true) l ->
  0 <= fold_left (fun acc a => acc * 10 + (utf8.byte a - 48)) l acc.
Proof.
  induction l as [|a l IH]; intros acc Hacc Hl; [exact Hacc|].
  inversion Hl as [|? ? Ha Hl']; subst. cbn [fold_left]. apply IH; [|exact Hl'].
  pose proof (digit_byte a Ha). lia.
Qed.

Lemma allb_Forall f d : allb f d = true -> Forall (fun a => f a = true) (list_ascii_of_string d).
Proof.
  induction d as [|a d IH]; [constructor|]. cbn. intros H. apply andb_true_iff in H.
  destruct H. constructor; auto.
Qed.

Lemma decimal_nonneg d : allb isDigit d = true -> 0 <= decimal d.
Proof. intros H. apply fold_decimal_nonneg; [lia|]. now apply allb_Forall. Qed.

Lemma Atoi_digits d :
  d <> ""%string -> allb isDigit d = true ->
  strconv.Atoi d =
    if strconv.maxInt <? decimal d then (strconv.maxInt, Some strconv.ErrRange)
    else (decimal d, None).
Proof.
  intros Hd Hall. destruct d as [|a d']; [congruence|].
  assert (Ha : isDigit a = true) by (cbn in Hall; now apply andb_true_iff in Hall).
  pose proof (decimal_nonneg _ Hall) as Hpos.
  assert (E : strconv.Atoi (String a d') =
    match strconv.digitsValue strconv.digitVal 10 (String a d') 0 with
    | None => (0, Some strconv.ErrSyntax)
    | Some n =>
        if strconv.maxInt <? n then (strconv.maxInt, Some strconv.ErrRange)
        else if n <? strconv.minInt then (strconv.minInt, Some strconv.ErrRange)
        else (n, None)
    end).
  { clear -Ha. destruct a as [[] [] [] [] [] [] [] []]; try discriminate Ha; reflexivity. }
  rewrite E, (digitsValue_digits _ 0 Hall). fold (decimal (String a d')).
  destruct (strconv.maxInt <? decimal (String a d')); [reflexivity|].
  replace (decimal (String a d') <? strconv.minInt) with false; [reflexivity|].
  symmetry. apply Z.ltb_ge. unfold strconv.minInt. lia.
Qed.

Lemma sigil_not_quote c : isSigil c = true -> Ascii.eqb c dquote = false.
Proof. destruct c as [[] [] [] [] [] [] [] []]; try discriminate; reflexivity. Qed.

Lemma digit_not_quote c : isDigit c = true -> Ascii.eqb c dquote = false.
Proof. destruct c as [[] [] [] [] [] [] [] []]; try discriminate; reflexivity. Qed.

Lemma parseId_placeholder c d id numInput :
  isSigil c = true -> d <> ""%string -> allb isDigit d = true ->
  StmtDelete.parseId (String c d) id numInput =
    if (1 <=? decimal d) && (decimal d <=? strconv.maxInt)
    then Returned (String c d, Some {| ph_index := decimal d |}, numInput + 1, None)
    else Returned (String c d, id, numInput, Some (errIdPlaceholder (String c d))).
Proof.
  intros Hc Hd Hall. unfold StmtDelete.parseId.
  assert (Hp : Str.HasPrefix (String c d) (String dquote "") = false).
  { cbn [Str.HasPrefix]. rewrite Ascii.eqb_sym, (sigil_not_quote _ Hc). reflexivity. }
  assert (Hs : Str.HasSuffix (String c d) (String dquote "") = false).
  { apply (HasSuffix_other (fun a => negb (Ascii.eqb a dquote))).
    - cbn [allb]. rewrite (sigil_not_quote _ Hc). cbn [negb andb].
      eapply allb_impl; [|exact Hall]. intros a Ha. now rewrite (digit_not_quote _ Ha).
    - now rewrite Ascii.eqb_refl. }
  rewrite Hp, Hs. cbn [Bool.eqb negb andb].
  rewrite (FindStringIndex_placeholder _ _ Hc Hd Hall). rewrite !Nat.eqb_refl. cbn [andb].
  change (Str.drop (0 + 1) (String c d)) with d. rewrite (Atoi_digits _ Hd Hall).
  unfold errIdPlaceholder.
  destruct (strconv.maxInt <? decimal d) eqn:Hmax.
  - apply Z.ltb_lt in Hmax. replace (decimal d <=? strconv.maxInt) with false
      by (symmetry; apply Z.leb_gt; lia). rewrite andb_false_r. reflexivity.
  - apply Z.ltb_ge in Hmax. replace (decimal d <=? strconv.maxInt) with true
      by (symmetry; apply Z.leb_le; lia). rewrite andb_true_r.
    destruct (decimal d <? 1) eqn:H1.
    + apply Z.ltb_lt in H1. replace (1 <=? decimal d) with false
        by (symmetry; apply Z.leb_gt; lia). reflexivity.
    + apply Z.ltb_ge in H1. replace (1 <=? decimal d) with true
        by (symmetry; apply Z.leb_le; lia). reflexivity.
Qed.

(** *** A SET clause without an equals sign *)

Lemma Suffix_allb f rest s : Suffix rest s -> allb f s = true -> allb f rest = true.
Proof. intros [pre ->]. rewrite allb_app. intros H. now apply andb_true_iff in H. Qed.

Lemma match_here_fieldPart s res :
  match_here reFieldPart s = Some res -> allb notEquals s = false.
Proof.
  unfold match_here, reFieldPart. intros H.
  rewrite run_Seq in H. apply run_entered in H. destruct H as (s1 & c1 & Hs1 & _ & H).
  rewrite run_Seq in H. apply run_entered in H. destruct H as (s2 & c2 & Hs2 & _ & H).
  rewrite run_Seq in H. apply run_entered in H. destruct H as (s3 & c3 & Hs3 & _ & H).
  unfold chr in H. cbn [run] in H. destruct s3 as [|a s4]; [discriminate|].
  destruct (Ascii.eqb "=" a) eqn:E; [|discriminate]. apply Ascii.eqb_eq in E. subst a.
  destruct (allb notEquals s) eqn:Hall; [|reflexivity].
  assert (Hsuf : Suffix (String "=" s4) s).
  { eapply Suffix_trans; [exact Hs3|]. eapply Suffix_trans; [exact Hs2|exact Hs1]. }
  apply (Suffix_allb _ _ _ Hsuf) in Hall. discriminate Hall.
Qed.

Lemma find_fieldPart_None s :
  allb notEquals s = true -> find reFieldPart s = None.
Proof.
  assert (Hh : forall t, allb notEquals t = true -> submatchHere reFieldPart t = None).
  { intros t Ht. unfold submatchHere.
    destruct (match_here reFieldPart t) as [res|] eqn:H; [|reflexivity].
    apply match_here_fieldPart in H. congruence. }
  induction s as [|a s IH]; intros H; cbn [find]; rewrite (Hh _ H); [reflexivity|].
  cbn in H. apply andb_true_iff in H. destruct H as [_ H]. now rewrite (IH H).
Qed.

Lemma allb_drop f n s : allb f s = true -> allb f (Str.drop n s) = true.
Proof.
  revert s. induction n as [|n IH]; intros s H; [exact H|].
  destruct s as [|a s]; [exact H|]. cbn in H |- *. apply andb_true_iff in H.
  apply IH. tauto.
Qed.

Lemma allb_trimLeftSeqs f seqs fuel s :
  allb f s = true -> allb f (Str.trimLeftSeqs seqs fuel s) = true.
Proof.
  revert s. induction fuel as [|fuel IH]; intros s H; cbn [Str.trimLeftSeqs]; [exact H|].
  destruct (Str.startsWithAny seqs s) as [q|]; [|exact H].
  destruct (0 <? String.length q)%nat; [|exact H].
  apply IH. now apply allb_drop.
Qed.

Lemma allb_TrimFunc f seqs s : allb f s = true -> allb f (Str.TrimFunc seqs s) = true.
Proof.
  intros H. unfold Str.TrimFunc. rewrite allb_rev. apply allb_trimLeftSeqs.
  rewrite allb_rev. now apply allb_trimLeftSeqs.
Qed.

(** X6. A SET clause that holds some text but no equals sign makes
    [_parseUpdateClause] panic: the pattern of a field has no match, and
    the error message is built from the bounds of the match that is not
    there. *)
Theorem update_clause_without_equals_panics (s : StmtUpdate.t) :
  Str.TrimSpace (StmtUpdate.updateStr s) <> ""%string ->
  allb notEquals (StmtUpdate.updateStr s) = true ->
  StmtUpdate._parseUpdateClause s = Some (Panicked IndexOutOfRange).
Proof.
  intros Hne Hall. unfold StmtUpdate._parseUpdateClause.
  apply (allb_TrimFunc _ Str.unicodeSpaces) in Hall. fold (Str.TrimSpace (StmtUpdate.updateStr s)) in Hall.
  destruct (Str.TrimSpace (StmtUpdate.updateStr s)) as [|a t] eqn:E; [congruence|].
  cbn [StmtUpdate.parseClause]. unfold FindStringIndex.
  rewrite (find_fieldPart_None _ Hall). reflexivity.
Qed.

(** ** INSERT and UPDATE: the document that is sent *)

Lemma overlay_keys (fields : list string) :
  forall values args data data',
    StmtUpdate.overlay fields values args data = Returned (inr data') ->
    (forall k, is_Some (data' !! k) <-> In k fields \/ is_Some (data !! k)) /\
    (forall k, ~ In k fields -> data' !! k = data !! k).
Proof.
  induction fields as [|f fields IH]; intros values args data data' H.
  - cbn in H. injection H as <-. split; [intros k; cbn; tauto|reflexivity].
  - cbn [StmtUpdate.overlay] in H. destruct values as [|[ph|v] values']; [discriminate| |].
    + destruct (invalid_index ph args); [discriminate|].
      destruct (index args (ph_index ph - 1)) as [a|]; [|discriminate].
      apply IH in H. destruct H as [H1 H2]. split.
      * intros k. rewrite H1. cbn [In]. destruct (decide (f = k)) as [->|Hne].
        -- rewrite lookup_insert_eq. split; [auto|intros _; right; eauto].
        -- rewrite lookup_insert_ne by exact Hne. tauto.
      * intros k Hk. cbn [In] in Hk. rewrite H2 by tauto.
        apply lookup_insert_ne. tauto.
    + apply IH in H. destruct H as [H1 H2]. split.
      * intros k. rewrite H1. cbn [In]. destruct (decide (f = k)) as [->|Hne].
        -- rewrite lookup_insert_eq. split; [auto|intros _; right; eauto].
        -- rewrite lookup_insert_ne by exact Hne. tauto.
      * intros k Hk. cbn [In] in Hk. rewrite H2 by tauto.
        apply lookup_insert_ne. tauto.
Qed.

Lemma overlay_values (fields : list string) :
  forall values args data data',
    StmtUpdate.overlay fields values args data = Returned (inr data') ->
    forall i f v,
      fields !! i = Some f -> values !! i = Some v ->
      (forall j, (i < j)%nat -> fields !! j <> Some f) ->
      data' !! f = bound args v.
Proof.
  induction fields as [|f0 fields IH]; intros values args data data' H i f v Hf Hv Hlast.
  - discriminate.
  - cbn [StmtUpdate.overlay] in H. destruct values as [|v0 values']; [discriminate|].
    assert (Hstep : exists a, bound args v0 = Some a /\
              StmtUpdate.overlay fields values' args (<[f0 := a]> data) = Returned (inr data')).
    { destruct v0 as [ph|x]; cbn [bound].
      - destruct (invalid_index ph args); [discriminate|].
        destruct (index args (ph_index ph - 1)) as [a|]; [eauto|discriminate].
      - eauto. }
    destruct Hstep as (a & Ha & Ho). clear H.
    destruct i as [|i].
    + cbn in Hf, Hv. injection Hf as ->. injection Hv as ->.
      rewrite (proj2 (overlay_keys _ _ _ _ _ Ho)).
      * rewrite lookup_insert_eq. symmetry. exact Ha.
      * intros Hin. apply list_elem_of_In, list_elem_of_lookup in Hin.
        destruct Hin as [j Hj]. apply (Hlast (S j)); [lia|exact Hj].
    + cbn in Hf, Hv. eapply IH; [exact Ho|exact Hf|exact Hv|].
      intros j Hj. apply (Hlast (S j)). lia.
Qed.

Section MoreExecProps.
Context {W : Type} (env : Env W).

(** X11. The one call of an INSERT creates a document of the collection of the
    statement that has the fields of the statement, and no other; the
    partition key is the argument at [numInput - 1] and the upsert flag is
    that of the statement. *)
Theorem insert_creates_listed_fields (s : StmtInsert.t) args w spec :
  In (CallCreateDocument spec) (calls (StmtInsert.Exec env s args w)) ->
  DocumentSpec.DbName spec = StmtInsert.dbName s /\
  DocumentSpec.CollName spec = StmtInsert.collName s /\
  DocumentSpec.IsUpsert spec = StmtInsert.isUpsert s /\
  (exists pk, index args (StmtInsert.numInput s - 1) = Some pk /\
              DocumentSpec.PartitionKeyValues spec = [pk]) /\
  (forall k, is_Some (DocumentSpec.DocumentData spec !! k) <-> In k (StmtInsert.fields s)).
Proof.
  unfold StmtInsert.Exec.
  destruct (index args (StmtInsert.numInput s - 1)) as [pk|]; [|intros []].
  destruct (StmtUpdate.overlay _ _ _ _) as [[e|data]|p] eqn:Ho; try (intros []).
  destruct (CreateDocument _ _ _) as [restResult w1].
  cbn [calls In]. intros [E|[]]. injection E as <-. cbn.
  repeat split; eauto.
  - intros Hk. apply (overlay_keys _ _ _ _ _ Ho) in Hk. destruct Hk as [Hk|Hk]; [exact Hk|].
    rewrite lookup_empty in Hk. destruct Hk; discriminate.
  - intros Hk. apply (overlay_keys _ _ _ _ _ Ho). auto.
Qed.

(** X12. In the document an INSERT creates, a field has the value that stands at
    its position in the value list, a placeholder [n] standing for the
    argument at [n - 1]; of a field that is listed more than once, the
    last position counts. *)
Theorem insert_field_values (s : StmtInsert.t) args w spec i f v :
  In (CallCreateDocument spec) (calls (StmtInsert.Exec env s args w)) ->
  StmtInsert.fields s !! i = Some f ->
  StmtInsert.values s !! i = Some v ->
  (forall j, (i < j)%nat -> StmtInsert.fields s !! j <> Some f) ->
  DocumentSpec.DocumentData spec !! f = bound args v /\
  is_Some (bound args v).
Proof.
  unfold StmtInsert.Exec.
  destruct (index args (StmtInsert.numInput s - 1)) as [pk|]; [|intros []].
  destruct (StmtUpdate.overlay _ _ _ _) as [[e|data]|p] eqn:Ho; try (intros []).
  destruct (CreateDocument _ _ _) as [restResult w1].
  cbn [calls In]. intros [E|[]] Hf Hv Hlast. injection E as <-. cbn.
  pose proof (overlay_values _ _ _ _ _ Ho i f v Hf Hv Hlast) as Hd.
  split; [exact Hd|]. rewrite <- Hd. apply (overlay_keys _ _ _ _ _ Ho).
  left. apply list_elem_of_In, list_elem_of_lookup. eauto.
Qed.

(** X13. An INSERT with a placeholder out of range among the values that
    stand at the position of a field calls nothing and leaves the remote
    state as it was: the values are checked before the one call. Where an
    argument for the partition key is there, the error names the first
    such placeholder; where it is not, [Exec] panics before the loop. *)
Theorem insert_placeholder_out_of_range (s : StmtInsert.t) args w :
  existsb (isInvalidValue args)
    (take (length (StmtInsert.fields s)) (StmtInsert.values s)) = true ->
  calls (StmtInsert.Exec env s args w) = [] /\
  world (StmtInsert.Exec env s args w) = w /\
  (is_Some (index args (StmtInsert.numInput s - 1)) ->
   exists ph,
     firstInvalid args (take (length (StmtInsert.fields s)) (StmtInsert.values s)) = Some ph /\
     In (VPlaceholder ph) (StmtInsert.values s) /\
     invalid_index ph args = true /\
     value (StmtInsert.Exec env s args w) = Returned (None, Some (errInvalidValueIndex ph))) /\
  (index args (StmtInsert.numInput s - 1) = None ->
   value (StmtInsert.Exec env s args w) = Panicked IndexOutOfRange).
Proof.
  intros Hex. unfold StmtInsert.Exec.
  destruct (firstInvalid_exists args _ Hex) as (ph & Hfirst & Hin & Hbad).
  destruct (index args (StmtInsert.numInput s - 1)) as [pk|].
  - rewrite (overlay_first_invalid _ _ _ _ ∅ Hfirst). cbn [calls world value].
    split; [reflexivity|]. split; [reflexivity|]. split; [|discriminate].
    intros _. exists ph. split; [exact Hfirst|]. split; [|auto].
    apply list_elem_of_In. apply list_elem_of_In in Hin.
    eapply subseteq_take. exact Hin.
  - cbn [calls world value]. split; [reflexivity|]. split; [reflexivity|].
    split; [intros [x Hx]; discriminate|reflexivity].
Qed.

(** X14. An INSERT that returns without error has made its one call and affected one row. *)
Theorem insert_without_error_affects_one_row (s : StmtInsert.t) args w res :
  value (StmtInsert.Exec env s args w) = Returned (res, None) ->
  exists r spec,
    res = Some r /\ ResultInsert.RowsAffected r = (1, None) /\
    calls (StmtInsert.Exec env s args w) = [CallCreateDocument spec] /\
    RespDoc.Error (fst (CreateDocument (restClient env) spec w)) = None.
Proof.
  unfold StmtInsert.Exec.
  destruct (index args (StmtInsert.numInput s - 1)) as [pk|]; [|discriminate].
  destruct (StmtUpdate.overlay _ _ _ _) as [[e|data]|p] eqn:Ho; try discriminate.
  set (spec := DocumentSpec.mk _ _ _ _ _).
  destruct (CreateDocument _ spec w) as [restResult w1] eqn:Hc. cbn [value calls].
  destruct (RespDoc.StatusCode restResult =? 403); [discriminate|].
  destruct (RespDoc.StatusCode restResult =? 404); [discriminate|].
  destruct (RespDoc.StatusCode restResult =? 409); [discriminate|].
  destruct (RespDoc.Error restResult) as [text|] eqn:He; [discriminate|].
  intros E. injection E as <-. eexists _, spec. split; [reflexivity|].
  rewrite Hc. cbn [fst]. split; [|split; [reflexivity|exact He]].
  reflexivity.
Qed.

(** X16. The replace call of an UPDATE carries the etag of the document that
    was fetched, and a document that differs from the fetched one, less
    its system attributes, in the fields of the SET clause only. *)
Theorem update_keeps_other_fields (s : StmtUpdate.t) args w req etag spec :
  calls (StmtUpdate.Exec env s args w) =
    [CallGetDocument req; CallReplaceDocument etag spec] ->
  let fetched := RespDoc.DocInfo (fst (GetDocument (restClient env) req w)) in
  etag = Etag env fetched /\
  DocumentSpec.IsUpsert spec = false /\
  (forall k, ~ In k (StmtUpdate.fields s) ->
     DocumentSpec.DocumentData spec !! k = RemoveSystemAttrs env fetched !! k) /\
  (forall k, In k (StmtUpdate.fields s) -> is_Some (DocumentSpec.DocumentData spec !! k)).
Proof.
  unfold StmtUpdate.Exec.
  destruct (resolveId _ _ _ _) as [e|[docId|p]]; try discriminate.
  destruct (index args (len args - 1)) as [pk|]; [|discriminate].
  destruct (GetDocument _ _ _) as [getDocResult w1] eqn:Hg.
  destruct (RespDoc.Error getDocResult) as [text|].
  { destruct (_ =? 404); [destruct (Str.Contains _ _)|]; discriminate. }
  unfold StmtUpdate.replacePhase.
  destruct (StmtUpdate.overlay _ _ _ _) as [[e|data]|p] eqn:Ho; try discriminate.
  destruct (ReplaceDocument _ _ _ _) as [resp w2].
  assert (Hcalls : forall (o : outcome (option error)),
            calls (match o with
                   | Panicked p => mkRun (Panicked p) w2
                       ([CallGetDocument (DocReq.mk (StmtUpdate.dbName s) (StmtUpdate.collName s) docId [pk])] ++
                        [CallReplaceDocument (Etag env (RespDoc.DocInfo getDocResult))
                           (DocumentSpec.mk (StmtUpdate.dbName s) (StmtUpdate.collName s) false [pk] data)])
                   | Returned e => mkRun (Returned (Some (ResultUpdate.mk (bool_decide (RespDoc.Error resp = None))), e)) w2
                       ([CallGetDocument (DocReq.mk (StmtUpdate.dbName s) (StmtUpdate.collName s) docId [pk])] ++
                        [CallReplaceDocument (Etag env (RespDoc.DocInfo getDocResult))
                           (DocumentSpec.mk (StmtUpdate.dbName s) (StmtUpdate.collName s) false [pk] data)])
                   end) =
            [CallGetDocument (DocReq.mk (StmtUpdate.dbName s) (StmtUpdate.collName s) docId [pk]);
             CallReplaceDocument (Etag env (RespDoc.DocInfo getDocResult))
               (DocumentSpec.mk (StmtUpdate.dbName s) (StmtUpdate.collName s) false [pk] data)]).
  { intros [e|p]; reflexivity. }
  cbv zeta. rewrite Hcalls. intros E. injection E as <- <- <-.
  rewrite Hg. cbn [fst DocumentSpec.DocumentData DocumentSpec.IsUpsert].
  destruct (overlay_keys _ _ _ _ _ Ho) as [H1 H2].
  repeat split; [exact H2|]. intros k Hk. apply H1. auto.
Qed.

End MoreExecProps.

(** ** SELECT: rows and columns *)

Lemma fill_spec (cols : list string) (rowData : DocInfo) :
  forall i dest dest',
    ResultSelect.fill cols i rowData dest = (Returned tt, dest') ->
    length dest' = length dest /\
    (i + length cols <= length dest \/ cols = [])%nat /\
    (forall j col, cols !! j = Some col ->
       dest' !! (i + j)%nat = Some (default GNil (rowData !! col))) /\
    (forall j, (j < i \/ i + length cols <= j)%nat -> dest' !! j = dest !! j).
Proof.
  induction cols as [|c cols IH]; intros i dest dest' H.
  - cbn in H. injection H as <-. repeat split; auto. intros j col Hj. discriminate.
  - cbn [ResultSelect.fill] in H. destruct (i <? length dest)%nat eqn:Hi; [|discriminate].
    apply Nat.ltb_lt in Hi. apply IH in H. destruct H as (Hlen & Hb & Hcols & Hrest).
    rewrite length_insert in Hlen, Hb.
    assert (Hkeep : forall j, (j < S i \/ S i + length cols <= j)%nat ->
              dest' !! j = <[i := default GNil (rowData !! c)]> dest !! j)
      by exact Hrest.
    split; [exact Hlen|]. split.
    { left. cbn [length]. destruct Hb as [Hb| ->]; cbn [length]; lia. }
    split.
    + intros j col Hj. destruct j as [|j].
      * cbn in Hj. injection Hj as <-. rewrite Nat.add_0_r.
        rewrite Hkeep by lia. apply list_lookup_insert_eq. exact Hi.
      * cbn in Hj. replace (i + S j)%nat with (S i + j)%nat by lia. now apply Hcols.
    + intros j Hj. cbn [length] in Hj. rewrite Hkeep by lia.
      apply list_lookup_insert_ne. lia.
Qed.

Lemma fill_fits (cols : list string) (rowData : DocInfo) :
  forall i dest,
    (i + length cols <= length dest)%nat ->
    exists dest', ResultSelect.fill cols i rowData dest = (Returned tt, dest') /\
                  length dest' = length dest.
Proof.
  induction cols as [|c cols IH]; intros i dest H.
  - eexists. split; reflexivity.
  - cbn [ResultSelect.fill]. cbn [length] in H.
    replace (i <? length dest)%nat with true by (symmetry; apply Nat.ltb_lt; lia).
    destruct (IH (S i) (<[i := default GNil (rowData !! c)]> dest)) as (dest' & Hf & Hl).
    { rewrite length_insert. lia. }
    exists dest'. split; [exact Hf|]. now rewrite length_insert in Hl.
Qed.

(** X17. A call of [Next] that hands out a row writes, for every column, the
    value the document at the cursor has under that column, or nil where
    it has none, and leaves the rest of [dest] as it was. *)
Theorem next_fills_columns_in_order (r r' : ResultSelect.t) dest dest' :
  ResultSelect.Next r dest = (Returned None, r', dest') ->
  exists doc,
    index (ResultSelect.documents r) (ResultSelect.cursorCount r) = Some doc /\
    length dest' = length dest /\
    (forall j col, ResultSelect.Columns r !! j = Some col ->
       dest' !! j = Some (default GNil (doc !! col))) /\
    (forall j, (length (ResultSelect.Columns r) <= j)%nat -> dest' !! j = dest !! j).
Proof.
  unfold ResultSelect.Next, ResultSelect.Columns.
  destruct (_ >=? _); [discriminate|].
  destruct (index _ _) as [doc|]; [|discriminate].
  destruct (ResultSelect.fill _ _ _ _) as [[[]|p] d] eqn:Hf; [|discriminate].
  intros E. injection E as <- <-. exists doc. apply fill_spec in Hf.
  destruct Hf as (Hlen & _ & Hcols & Hrest). split; [reflexivity|]. split; [exact Hlen|].
  split; [exact Hcols|]. intros j Hj. apply Hrest. lia.
Qed.

Lemma pull_S n r dest :
  pull (S n) r dest =
  match ResultSelect.Next r dest with
  | (Returned None, r', dest') => pull n r' dest'
  | _ => None
  end.
Proof. reflexivity. Qed.

Lemma pull_count (n : nat) :
  forall r dest,
    0 <= ResultSelect.cursorCount r ->
    ResultSelect.count r <= len (ResultSelect.documents r) ->
    (length (ResultSelect.columnList r) <= length dest)%nat ->
    (is_Some (pull n r dest) <->
     ResultSelect.cursorCount r + Z.of_nat n <= Z.max (ResultSelect.cursorCount r) (ResultSelect.count r)) /\
    (forall r' dest', pull n r dest = Some (r', dest') ->
       ResultSelect.cursorCount r' = ResultSelect.cursorCount r + Z.of_nat n /\
       ResultSelect.count r' = ResultSelect.count r /\
       length dest' = length dest).
Proof.
  induction n as [|n IH]; intros r dest Hc Hcount Hdest.
  - cbn [pull]. split; [split; [lia|eauto]|].
    intros r' dest' E. injection E as <- <-. repeat split; lia.
  - rewrite pull_S. unfold ResultSelect.Next.
    destruct (ResultSelect.cursorCount r >=? ResultSelect.count r) eqn:Hge.
    { apply Z.geb_le in Hge. split; [|discriminate].
      split; [intros [x Hx]; discriminate|lia]. }
    rewrite Z.geb_leb in Hge. apply Z.leb_gt in Hge.
    destruct (index (ResultSelect.documents r) (ResultSelect.cursorCount r)) as [doc|] eqn:Hi.
    2:{ exfalso. unfold index in Hi.
        destruct (ResultSelect.cursorCount r <? 0) eqn:Hneg; [apply Z.ltb_lt in Hneg; lia|].
        apply lookup_ge_None in Hi. unfold len in Hcount. lia. }
    destruct (fill_fits (ResultSelect.columnList r) doc 0 dest ltac:(lia)) as (d & Hf & Hl).
    rewrite Hf.
    set (r1 := ResultSelect.mk _ _ _ _).
    destruct (IH r1 d) as [H1 H2]; [cbn; lia|exact Hcount|cbn; lia|].
    cbn [r1 ResultSelect.cursorCount ResultSelect.count] in H1, H2.
    split.
    + rewrite H1. lia.
    + intros r' dest' E. apply H2 in E. destruct E as (E1 & E2 & E3). repeat split; lia.
Qed.

(** X18. Where the count of a result is within its documents and [dest] has
    room for the columns, the cursor hands out exactly [count] rows: [n]
    calls of [Next] in a row each give a row exactly when [n] is at most
    the count, and the call after the last row reports the end of the
    data. *)
Theorem cursor_hands_out_count_rows (r : ResultSelect.t) (dest : list GoValue) :
  ResultSelect.cursorCount r = 0 ->
  0 <= ResultSelect.count r <= len (ResultSelect.documents r) ->
  (length (ResultSelect.Columns r) <= length dest)%nat ->
  (forall n, is_Some (pull n r dest) <-> Z.of_nat n <= ResultSelect.count r) /\
  (forall r' dest', pull (Z.to_nat (ResultSelect.count r)) r dest = Some (r', dest') ->
     ResultSelect.Next r' dest' = (Returned (Some EOF), r', dest')).
Proof.
  intros H0 Hcount Hdest. split.
  - intros n. destruct (pull_count n r dest) as [H _]; [lia|lia|exact Hdest|].
    rewrite H, H0. lia.
  - intros r' dest' E. destruct (pull_count (Z.to_nat (ResultSelect.count r)) r dest) as [_ H];
      [lia|lia|exact Hdest|].
    apply H in E. destruct E as (E1 & E2 & _). apply Next_EOF. lia.
Qed.

(** *** The columns of a result *)

Section ColumnProps.
Context {W : Type} (env : Env W).

(** X19. The columns of a result are the field names of its first document, in
    ascending order, each once; a result without documents has no columns. *)
Theorem select_columns_sorted_first_document fuel (s : StmtSelect.t) args w run rows err :
  StmtSelect.Query env fuel s args w = Some run ->
  value run = Returned (Some rows, err) ->
  Sorted String.le (ResultSelect.Columns rows) /\
  List.NoDup (ResultSelect.Columns rows) /\
  match ResultSelect.documents rows with
  | doc :: _ => forall k, In k (ResultSelect.Columns rows) <-> is_Some (doc !! k)
  | [] => ResultSelect.Columns rows = []
  end.
Proof.
  unfold StmtSelect.Query.
  destruct (StmtSelect.bindParams _ _ _ _) as [e|params].
  { intros E. injection E as <-. discriminate. }
  destruct (QueryDocuments _ _ _) as [first w1].
  destruct (StmtSelect.fetchPages _ _ _ _ _ _ _) as [[[[restResult documents] w2] log]|];
    [|discriminate].
  intros E. injection E as <-. cbn [value].
  destruct (RespQueryDocs.Error restResult) as [text|]; cbn [liftErr fmap option_fmap option_map].
  { discriminate. }
  intros E. injection E as <- _. unfold ResultSelect.Columns.
  cbn [ResultSelect.columnList ResultSelect.documents].
  destruct documents as [|doc docs].
  { repeat split; constructor. }
  unfold StmtSelect.sortedKeys.
  assert (Hperm : merge_sort String.le (map_to_list doc).*1 ≡ₚ (map_to_list doc).*1)
    by apply merge_sort_Permutation.
  split; [apply Sorted_merge_sort; apply _|]. split.
  - apply NoDup_ListNoDup. rewrite Hperm. apply NoDup_fst_map_to_list.
  - intros k. rewrite <- list_elem_of_In, Hperm, list_elem_of_fmap. split.
    + intros [[k' v] [-> Hin]]. apply elem_of_map_to_list in Hin. cbn. eauto.
    + intros [v Hv]. exists (k, v). split; [reflexivity|]. now apply elem_of_map_to_list.
Qed.

End ColumnProps.

(** ** SELECT: the query that is sent *)

Lemma bindParams_order (phs : gmap Z string) (args : list GoValue) :
  forall i params out,
    StmtSelect.bindParams phs i args params = inr out ->
    exists new,
      out = params ++ new /\ length new = length args /\
      forall j arg, args !! j = Some arg ->
        exists v, phs !! (i + Z.of_nat j + 1) = Some v /\ new !! j = Some (param v arg).
Proof.
  induction args as [|a args IH]; intros i params out H.
  - cbn in H. injection H as <-. exists []. rewrite app_nil_r.
    split; [reflexivity|]. split; [reflexivity|]. intros j arg Hj. discriminate.
  - cbn [StmtSelect.bindParams] in H. destruct (phs !! (i + 1)) as [v|] eqn:Hv; [|discriminate].
    apply IH in H. destruct H as (new & -> & Hlen & Hnew).
    exists (param v a :: new). split; [now rewrite <- app_assoc|].
    split; [cbn; lia|]. intros j arg Hj. destruct j as [|j].
    + cbn in Hj. injection Hj as <-. exists v. split; [|reflexivity].
      rewrite <- Hv. f_equal. lia.
    + cbn in Hj. destruct (Hnew j arg Hj) as (v' & Hv' & Hn). exists v'.
      split; [|exact Hn]. rewrite <- Hv'. f_equal. lia.
Qed.

Lemma fetchPages_params {W} (env : Env W) fuel :
  forall query documents restResult w log restResult' documents' w' log',
    StmtSelect.fetchPages env fuel query documents restResult w log
      = Some (restResult', documents', w', log') ->
    forall q, In (CallQueryDocuments q) log' ->
      In (CallQueryDocuments q) log \/ QueryReq.Params q = QueryReq.Params query.
Proof.
  induction fuel as [|fuel IH];
    intros query documents restResult w log restResult' documents' w' log' H q Hq.
  - cbn in H. destruct (RespQueryDocs.Error restResult); [injection H as <- <- <- <-; auto|].
    destruct (String.eqb _ _); [injection H as <- <- <- <-; auto|discriminate].
  - cbn [StmtSelect.fetchPages] in H.
    destruct (RespQueryDocs.Error restResult); [injection H as <- <- <- <-; auto|].
    destruct (String.eqb _ _); [injection H as <- <- <- <-; auto|].
    destruct (QueryDocuments _ _ _) as [r1 w1].
    destruct (IH _ _ _ _ _ _ _ _ _ H q Hq) as [Hin|Hp].
    + apply in_app_or in Hin. destruct Hin as [Hin|[E|[]]]; [auto|].
      injection E as <-. right. reflexivity.
    + right. exact Hp.
Qed.

Section MoreQueryProps.
Context {W : Type} (env : Env W).

(** X20. Every query a SELECT sends, the first one and those for the pages
    after it, carries one parameter for every argument, in the order of
    the arguments: the argument at position [j] under the name of the
    placeholder number [j + 1]. *)
Theorem select_binds_arguments_in_order fuel (s : StmtSelect.t) args w run q :
  StmtSelect.Query env fuel s args w = Some run ->
  In (CallQueryDocuments q) (calls run) ->
  length (QueryReq.Params q) = length args /\
  forall j arg, args !! j = Some arg ->
    exists v, StmtSelect.placeholders s !! (Z.of_nat j + 1) = Some v /\
              QueryReq.Params q !! j = Some (param v arg).
Proof.
  unfold StmtSelect.Query.
  destruct (StmtSelect.bindParams _ _ _ _) as [e|params] eqn:Hb.
  { intros E. injection E as <-. intros []. }
  destruct (QueryDocuments _ _ _) as [first w1].
  destruct (StmtSelect.fetchPages _ _ _ _ _ _ _) as [[[[restResult documents] w2] log]|] eqn:Hf;
    [|discriminate].
  intros E. injection E as <-. cbn [calls]. intros Hq.
  assert (Hp : QueryReq.Params q = params).
  { destruct (fetchPages_params _ _ _ _ _ _ _ _ _ _ _ Hf q Hq) as [[E|[]]|E].
    - injection E as <-. reflexivity.
    - exact E. }
  rewrite Hp. apply bindParams_order in Hb. destruct Hb as (new & -> & Hlen & Hnew).
  cbn [app]. split; [exact Hlen|]. intros j arg Hj.
  destruct (Hnew j arg Hj) as (v & Hv & Hn). exists v. split; [|exact Hn].
  rewrite <- Hv. f_equal.
Qed.

(** X21. A SELECT never returns neither rows nor an error. *)
Theorem select_returns_rows_or_error fuel (s : StmtSelect.t) args w run :
  StmtSelect.Query env fuel s args w = Some run ->
  exists rows err,
    value run = Returned (rows, err) /\ (is_Some rows \/ is_Some err).
Proof.
  unfold StmtSelect.Query.
  destruct (StmtSelect.bindParams _ _ _ _) as [e|params].
  { intros E. injection E as <-. cbn. eauto 6. }
  destruct (QueryDocuments _ _ _) as [first w1].
  destruct (StmtSelect.fetchPages _ _ _ _ _ _ _) as [[[[restResult documents] w2] log]|];
    [|discriminate].
  intros E. injection E as <-. cbn [value]. eexists _, _. split; [reflexivity|].
  destruct (RespQueryDocs.Error restResult) as [text|]; cbn [liftErr fmap option_fmap option_map].
  - right. repeat destruct (_ =? _); eauto.
  - left. eauto.
Qed.

(** X22. Nothing bounds the paging of a SELECT: against a service that answers
    every query with a page and a continuation token, [Query] does not
    return, however many calls it is given. *)
Theorem select_paging_unbounded (s : StmtSelect.t) args w params :
  StmtSelect.bindParams (StmtSelect.placeholders s) 0 args [] = inr params ->
  (forall q w', morePages (fst (QueryDocuments (restClient env) q w'))) ->
  forall fuel, StmtSelect.Query env fuel s args w = None.
Proof.
  intros Hb Hmore fuel. unfold StmtSelect.Query. rewrite Hb.
  set (q0 := QueryReq.mk _ _ _ _ _ _).
  pose proof (Hmore q0 w) as H0.
  destruct (QueryDocuments (restClient env) q0 w) as [first w1]. cbn [fst] in H0.
  assert (Hloop : forall fuel query documents restResult w log,
            morePages restResult ->
            StmtSelect.fetchPages env fuel query documents restResult w log = None).
  { clear -Hmore. induction fuel as [|fuel IH]; intros query documents restResult w log [He Ht].
    - cbn. rewrite He. apply String.eqb_neq in Ht. now rewrite Ht.
    - cbn [StmtSelect.fetchPages]. rewrite He. apply String.eqb_neq in Ht. rewrite Ht.
      match goal with |- context [QueryDocuments ?rc ?q ?w] =>
        pose proof (Hmore q w) as H1; destruct (QueryDocuments rc q w) as [r1 w1] end.
      apply IH. exact H1. }
  rewrite (Hloop _ _ _ _ _ _ H0). reflexivity.
Qed.

End MoreQueryProps.

(** ** The id of a DELETE and of an UPDATE, as [parse] reads it *)

(** X7. [parse] of a DELETE and [_parseId] of an UPDATE panic on exactly one
    id: the text that is one double quote. It opens and closes with a
    double quote, and the slice between the two is taken from 1 to 0. *)
Theorem id_lone_quote_panics (s : StmtDelete.t) (u : StmtUpdate.t) :
  ((exists p, StmtDelete.parse s = Panicked p) <-> StmtDelete.idStr s = String dquote "") /\
  ((exists p, StmtUpdate._parseId u = Panicked p) <-> StmtUpdate.idStr u = String dquote "").
Proof.
  split.
  - unfold StmtDelete.parse. split.
    + intros [p H].
      destruct (StmtDelete.parseId _ _ _) as [[[[i d] n] e]|p'] eqn:Hp; [discriminate|].
      apply parseId_panics in Hp. tauto.
    + intros E. exists IndexOutOfRange.
      rewrite (proj2 (parseId_panics _ _ _ IndexOutOfRange) (conj E eq_refl)). reflexivity.
  - unfold StmtUpdate._parseId. split.
    + intros [p H].
      destruct (StmtDelete.parseId _ _ _) as [[[[i d] n] e]|p'] eqn:Hp; [discriminate|].
      apply parseId_panics in Hp. tauto.
    + intros E. exists IndexOutOfRange.
      rewrite (proj2 (parseId_panics _ _ _ IndexOutOfRange) (conj E eq_refl)). reflexivity.
Qed.

(** X8. An id between double quotes is taken as it is written there, less the
    white space around it, whatever it holds: a placeholder between
    quotes is the id itself and adds no input. *)
Theorem quoted_id_is_literal (body : string) (id : option placeholder)
    (n : Z) (db coll upd : string) (fields : list string) (values : list StmtValue) :
  StmtDelete.parse (StmtDelete.mk n db coll (quoted body) id)
    = Returned (StmtDelete.mk 1 db coll (Str.TrimSpace body) id, None) /\
  StmtUpdate._parseId (StmtUpdate.mk n db coll upd (quoted body) id fields values)
    = Returned (StmtUpdate.mk n db coll upd (Str.TrimSpace body) id fields values, None).
Proof.
  unfold StmtDelete.parse, StmtUpdate._parseId.
  cbn [StmtDelete.idStr StmtDelete.id StmtDelete.dbName StmtDelete.collName
       StmtUpdate.idStr StmtUpdate.id StmtUpdate.dbName StmtUpdate.collName
       StmtUpdate.numInput StmtUpdate.updateStr StmtUpdate.fields StmtUpdate.values].
  rewrite !parseId_quoted. split; reflexivity.
Qed.

(** X9. An id that is a sigil and decimal digits is a placeholder, never the
    id itself: with a number from 1 to the largest [int] it becomes the
    placeholder of that number and adds one input; with 0 or a number
    beyond the largest [int] the statement is rejected. *)
Theorem id_placeholder_range (c : ascii) (d : string) (id : option placeholder)
    (n : Z) (db coll upd : string) (fields : list string) (values : list StmtValue) :
  isSigil c = true -> d <> ""%string -> allb isDigit d = true ->
  StmtDelete.parse (StmtDelete.mk n db coll (String c d) id) =
    (if (1 <=? decimal d) && (decimal d <=? strconv.maxInt)
     then Returned (StmtDelete.mk 2 db coll (String c d) (Some {| ph_index := decimal d |}), None)
     else Returned (StmtDelete.mk 1 db coll (String c d) id,
                    Some (errIdPlaceholder (String c d)))) /\
  StmtUpdate._parseId (StmtUpdate.mk n db coll upd (String c d) id fields values) =
    (if (1 <=? decimal d) && (decimal d <=? strconv.maxInt)
     then Returned (StmtUpdate.mk (n + 1) db coll upd (String c d)
                      (Some {| ph_index := decimal d |}) fields values, None)
     else Returned (StmtUpdate.mk n db coll upd (String c d) id fields values,
                    Some (errIdPlaceholder (String c d)))).
Proof.
  intros Hc Hd Hall. unfold StmtDelete.parse, StmtUpdate._parseId.
  cbn [StmtDelete.idStr StmtDelete.id StmtDelete.dbName StmtDelete.collName
       StmtUpdate.idStr StmtUpdate.id StmtUpdate.dbName StmtUpdate.collName
       StmtUpdate.numInput StmtUpdate.updateStr StmtUpdate.fields StmtUpdate.values].
  rewrite !(parseId_placeholder _ _ _ _ Hc Hd Hall).
  destruct (_ && _); split; reflexivity.
Qed.

(** ** INSERT: from [parse] to [Exec] *)

Lemma overlay_no_panic (fields : list string) :
  forall values args data,
    length fields = length values ->
    exists r, StmtUpdate.overlay fields values args data = Returned r.
Proof.
  induction fields as [|f fields IH]; intros values args data Hlen.
  - eexists. reflexivity.
  - destruct values as [|[ph|v] values]; [discriminate| |]; cbn [StmtUpdate.overlay].
    + destruct (invalid_index ph args) eqn:Hinv; [eauto|].
      destruct (index_valid _ _ Hinv) as [a ->]. apply IH. cbn in Hlen. lia.
    + apply IH. cbn in Hlen. lia.
Qed.

Section InsertRunProps.
Context {W : Type} (env : Env W).

(** X15. An INSERT that was parsed without error and passed [validate] does
    not panic when it is run with as many arguments as it expects. *)
Theorem insert_exec_no_panic (s s' : StmtInsert.t) args w :
  StmtInsert.parse s = Some (s', None) ->
  StmtInsert.validate s' = None ->
  len args = StmtInsert.numInput s' ->
  exists res, value (StmtInsert.Exec env s' args w) = Returned res.
Proof.
  intros Hparse Hval Hargs. apply insert_parse_counts_placeholders in Hparse.
  assert (Hn : 0 <= placeholdersIn (StmtInsert.values s')) by (unfold placeholdersIn, len; lia).
  unfold StmtInsert.validate in Hval.
  destruct (len (StmtInsert.fields s') =? len (StmtInsert.values s')) eqn:Hlen;
    [|discriminate]. apply Z.eqb_eq in Hlen. unfold len in Hlen.
  unfold StmtInsert.Exec.
  destruct (index args (StmtInsert.numInput s' - 1)) as [pk|] eqn:Hi.
  2:{ exfalso. unfold index in Hi.
      destruct (StmtInsert.numInput s' - 1 <? 0) eqn:Hneg; [apply Z.ltb_lt in Hneg; lia|].
      apply lookup_ge_None in Hi. unfold len in Hargs. lia. }
  destruct (overlay_no_panic (StmtInsert.fields s') (StmtInsert.values s') args ∅ ltac:(lia))
    as [[e|data] ->].
  - eexists. reflexivity.
  - destruct (CreateDocument _ _ _) as [restResult w1]. eexists. reflexivity.
Qed.

End InsertRunProps.

(** ** The runes that are trimmed *)

Lemma isSpace_encodings :
  (forall r, _isSpace r = true -> In (utf8.EncodeRune r) spaceOrEquals) /\
  (forall t, In t spaceOrEquals -> exists r, _isSpace r = true /\ utf8.EncodeRune r = t) /\
  spaceOrComma = spaceOrEquals ++ [","%string].
Proof.
  split; [|split; [|reflexivity]].
  - intros r H. unfold _isSpace in H. apply existsb_exists in H.
    destruct H as (x & Hin & Hx). apply Z.eqb_eq in Hx. subst x.
    cbn [In] in Hin.
    repeat (destruct Hin as [<-|Hin]; [vm_compute; tauto|]). destruct Hin.
  - intros t H. cbn [spaceOrEquals In] in H.
    destruct H as [<-|[<-|[<-|[<-|[<-|[<-|[<-|[<-|[<-|[]]]]]]]]]];
      [exists 9|exists 10|exists 11|exists 12|exists 13|exists 32|exists 133|exists 160|exists 61];
      split; vm_compute; reflexivity.
Qed.

(** ** INSERT: the field list *)

Lemma take_while_length f s :
  Str.take (String.length s - String.length (dropWhile f s)) s = takeWhile f s.
Proof.
  pose proof (take_drop_while f s) as H. rewrite Nat.sub_diag in H. exact H.
Qed.

Lemma submatchHere_sep (s : string) :
  submatchHere reFieldSep s =
  match s with
  | String a s' =>
      if isSep a
      then Some (mkSubmatch "" (String a (takeWhile isSep s')) [] (dropWhile isSep s'))
      else None
  | EmptyString => None
  end.
Proof.
  unfold submatchHere, match_here, reFieldSep, Plus. rewrite run_Seq.
  destruct s as [|a s']; [reflexivity|]. rewrite run_Class.
  change (fun a0 : ascii => Ascii.eqb a0 "," || isPerlSpace a0) with isSep.
  change (Ascii.eqb a "," || isPerlSpace a) with (isSep a).
  destruct (isSep a) eqn:Ha; [|reflexivity].
  rewrite run_Star. rewrite star_greedy_class; [|lia|eauto].
  f_equal. f_equal.
  pose proof (length_dropWhile isSep s') as Hl. cbn [String.length].
  replace (S (String.length s') - String.length (dropWhile isSep s'))%nat
    with (S (String.length s' - String.length (dropWhile isSep s'))) by lia.
  cbn [Str.take]. now rewrite take_while_length.
Qed.

Lemma find_sep (s : string) :
  find reFieldSep s =
  if allb notSep s then None
  else Some (mkSubmatch (takeWhile notSep s)
               (takeWhile isSep (dropWhile notSep s)) []
               (dropWhile isSep (dropWhile notSep s))).
Proof.
  induction s as [|a s IH]; [reflexivity|].
  cbn [find]. rewrite submatchHere_sep. cbn [allb takeWhile dropWhile].
  assert (Hn : notSep a = negb (isSep a)) by reflexivity. rewrite !Hn.
  destruct (isSep a) eqn:Ha; cbn [negb andb].
  - cbn [takeWhile dropWhile]. rewrite Ha. reflexivity.
  - rewrite IH. destruct (allb notSep s); reflexivity.
Qed.

Lemma dropWhile_head f s : allb f s = false ->
  exists a r, dropWhile f s = String a r /\ f a = false.
Proof.
  induction s as [|a s IH]; [discriminate|]. cbn. destruct (f a) eqn:Ha; cbn; eauto.
Qed.

Lemma findAll_sep_pre fuel : forall s abuts,
  Forall (fun m => allb notSep (sm_pre m) = true) (findAll fuel reFieldSep s abuts).
Proof.
  induction fuel as [|fuel IH]; intros s abuts; [constructor|].
  rewrite findAll_S, find_sep. destruct (allb notSep s) eqn:Hs; [constructor|].
  cbn [sm_text sm_pre sm_rest].
  destruct (dropWhile_head _ _ Hs) as (a & r & -> & Ha).
  unfold notSep in Ha. apply negb_false_iff in Ha. cbn [takeWhile]. rewrite Ha.
  constructor; [apply allb_takeWhile|apply IH].
Qed.

Lemma last_cons {A} (x : A) l d : List.last (x :: l) d = List.last l x.
Proof.
  revert x d. induction l as [|y l IH]; intros x d; [reflexivity|].
  change (List.last (x :: y :: l) d) with (List.last (y :: l) d). rewrite !IH. reflexivity.
Qed.

Lemma findAll_sep_rest fuel : forall s abuts d,
  (String.length s < fuel)%nat ->
  (allb notSep s = true -> allb notSep (sm_rest d) = true) ->
  allb notSep (sm_rest (List.last (findAll fuel reFieldSep s abuts) d)) = true.
Proof.
  induction fuel as [|fuel IH]; intros s abuts d Hf Hd; [lia|].
  rewrite findAll_S, find_sep. destruct (allb notSep s) eqn:Hs; [cbn; auto|].
  cbn [sm_text sm_pre sm_rest].
  destruct (dropWhile_head _ _ Hs) as (a & r & E & Ha). rewrite E.
  unfold notSep in Ha. apply negb_false_iff in Ha. cbn [takeWhile dropWhile]. rewrite Ha.
  rewrite last_cons. apply IH; [|cbn [sm_rest]; auto].
  pose proof (length_dropWhile isSep r). pose proof (length_dropWhile notSep s) as H2.
  rewrite E in H2. cbn [String.length] in H2. lia.
Qed.

Lemma Split_sep (s : string) :
  Forall (fun x => allb notSep x = true) (Split reFieldSep s) /\ Split reFieldSep s <> [].
Proof.
  unfold Split. destruct s as [|a s'].
  - split; [repeat constructor|discriminate].
  - split.
    + apply Forall_app. split.
      * apply List.Forall_map. unfold matches. apply findAll_sep_pre.
      * constructor; [|constructor]. unfold matches. apply findAll_sep_rest; [lia|auto].
    + intros H. apply app_eq_nil in H. destruct H as [_ H]. discriminate.
Qed.

(** X3. After [parse], an INSERT has at least one field, and no field holds a
    comma or white space: the field list is cut at every run of them, so
    that a list that opens or closes with one gives an empty field
    there. *)
Theorem insert_fields_hold_no_separator (s s' : StmtInsert.t) (err : option error) :
  StmtInsert.parse s = Some (s', err) ->
  StmtInsert.fields s' <> [] /\
  Forall (fun f => allb notSep f = true) (StmtInsert.fields s') /\
  (forall a rest, StmtInsert.fieldsStr s = String a rest -> isSep a = true ->
     head (StmtInsert.fields s') = Some ""%string).
Proof.
  unfold StmtInsert.parse.
  destruct (StmtInsert.lexValues _ _ _ _) as [[[values numInput] e]|]; [|discriminate].
  intros E. injection E as <- <-. cbn [StmtInsert.fields].
  destruct (Split_sep (StmtInsert.fieldsStr s)) as [H1 H2].
  split; [exact H2|]. split; [exact H1|].
  intros a rest -> Ha. unfold Split, matches. rewrite findAll_S, find_sep.
  assert (Hn : notSep a = false) by (unfold notSep; now rewrite Ha).
  cbn [allb takeWhile dropWhile]. rewrite !Hn. cbn [andb sm_text sm_pre takeWhile dropWhile].
  rewrite Ha. reflexivity.
Qed.

(** [INSERT INTO db1.coll1 ( a, b) VALUES (1, 2)] has three fields. *)
Lemma insert_fields_hold_no_separator_witness :
  StmtInsert.fields Cases.insertLeadingParsed <> [] /\
  Forall (fun f => allb notSep f = true) (StmtInsert.fields Cases.insertLeadingParsed) /\
  (forall a rest, StmtInsert.fieldsStr Cases.insertLeading = String a rest -> isSep a = true ->
     head (StmtInsert.fields Cases.insertLeadingParsed) = Some ""%string).
Proof.
  apply (insert_fields_hold_no_separator Cases.insertLeading Cases.insertLeadingParsed None).
  vm_compute. reflexivity.
Defined.

(** ** DELETE: from [parse] to [Exec] *)

Section DeleteRunProps.
Context {W : Type} (env : Env W).

(** X10. The id of a DELETE can only be the placeholder number 1: [parse]
    accepts an id that is a placeholder with a number from 2 on and asks
    for two inputs, and with two arguments [Exec] then fails on that
    number without a call. *)
Theorem delete_id_placeholder_beyond_first (c : ascii) (d : string)
    (id : option placeholder) (n : Z) (db coll : string) :
  isSigil c = true -> d <> ""%string -> allb isDigit d = true ->
  2 <= decimal d <= strconv.maxInt ->
  exists s',
    StmtDelete.parse (StmtDelete.mk n db coll (String c d) id) = Returned (s', None) /\
    StmtDelete.numInput s' = 2 /\
    forall args w,
      len args = StmtDelete.numInput s' ->
      StmtDelete.Exec env s' args w =
        mkRun (Returned (None, Some (errInvalidValueIndex {| ph_index := decimal d |}))) w [].
Proof.
  intros Hc Hd Hall Hrange. eexists. unfold StmtDelete.parse.
  cbn [StmtDelete.idStr StmtDelete.id StmtDelete.dbName StmtDelete.collName].
  rewrite (parseId_placeholder _ _ _ _ Hc Hd Hall).
  replace (1 <=? decimal d) with true by (symmetry; apply Z.leb_le; lia).
  replace (decimal d <=? strconv.maxInt) with true by (symmetry; apply Z.leb_le; lia).
  cbn [andb]. split; [reflexivity|]. split; [reflexivity|].
  intros args w Hargs. cbn [StmtDelete.numInput] in Hargs.
  unfold StmtDelete.Exec, resolveId. cbn [StmtDelete.idStr StmtDelete.id].
  unfold invalid_index. cbn [ph_index]. rewrite Hargs.
  replace (decimal d >=? 1 + 1) with true by (symmetry; apply Z.geb_le; lia).
  rewrite orb_true_r. reflexivity.
Qed.

End DeleteRunProps.

(** [DELETE FROM db1.coll1 WHERE id=@2] *)
Lemma delete_id_placeholder_beyond_first_witness :
  exists s',
    StmtDelete.parse (StmtDelete.mk 0 "db1" "coll1" "@2" None) = Returned (s', None) /\
    StmtDelete.numInput s' = 2 /\
    forall args w,
      len args = StmtDelete.numInput s' ->
      StmtDelete.Exec Runs.storeEnv s' args w =
        mkRun (Returned (None, Some (errInvalidValueIndex {| ph_index := decimal "2" |}))) w [].
Proof.
  apply (delete_id_placeholder_beyond_first Runs.storeEnv "@" "2" None 0 "db1" "coll1").
  - reflexivity.
  - discriminate.
  - reflexivity.
  - vm_compute. split; discriminate.
Defined.

(** ** The statements above, on concrete runs *)

(** [INSERT INTO db1.coll1 (id, name, n) VALUES (:1, true, 2)] expects two
    inputs. *)
Lemma insert_parse_counts_placeholders_witness :
  StmtInsert.numInput Cases.insertParsed
    = placeholdersIn (StmtInsert.values Cases.insertParsed) + 1.
Proof.
  apply (insert_parse_counts_placeholders Cases.insertStmt Cases.insertParsed None).
  vm_compute. reflexivity.
Defined.

(** [UPDATE db1.coll1 SET a = :2, b = true WHERE id=:1] expects three
    inputs. *)
Lemma update_parse_counts_witness :
  len (StmtUpdate.fields Cases.updateParsed) = len (StmtUpdate.values Cases.updateParsed) /\
  StmtUpdate.numInput Cases.updateParsed =
    idInputs (StmtUpdate.id Cases.updateParsed)
    + placeholdersIn (StmtUpdate.values Cases.updateParsed) + 1 /\
  StmtUpdate.validate Cases.updateParsed =
    (if String.eqb (StmtUpdate.idStr Cases.updateParsed) ""
     then Some (errorString "id value is missing")
     else if len (StmtUpdate.fields Cases.updateParsed) =? 0
          then Some (errorString "invalid query: SET clause is empty")
          else None).
Proof.
  apply (update_parse_counts Cases.updateStmt Cases.updateParsed).
  - reflexivity.
  - vm_compute. reflexivity.
Defined.

(** [UPDATE db1.coll1 SET a 1 WHERE id=doc1] *)
Lemma update_clause_without_equals_panics_witness :
  StmtUpdate._parseUpdateClause Cases.updateNoEquals = Some (Panicked IndexOutOfRange).
Proof.
  apply (update_clause_without_equals_panics Cases.updateNoEquals).
  - vm_compute. discriminate.
  - vm_compute. reflexivity.
Defined.

(** [WHERE id=@12] *)
Lemma id_placeholder_range_witness :
  StmtDelete.parse (StmtDelete.mk 1 "db1" "coll1" "@12" None)
    = Returned (StmtDelete.mk 2 "db1" "coll1" "@12" (Some {| ph_index := 12 |}), None) /\
  StmtUpdate._parseId (StmtUpdate.mk 1 "db1" "coll1" "a=1" "@12" None [] [])
    = Returned (StmtUpdate.mk 2 "db1" "coll1" "a=1" "@12" (Some {| ph_index := 12 |}) [] [],
                None).
Proof.
  exact (id_placeholder_range "@" "12" None 1 "db1" "coll1" "a=1" [] []
           eq_refl ltac:(discriminate) eq_refl).
Defined.

(** [Cases.insertParsed], run with the id [doc1] and the partition key
    [pk1]. *)
Lemma insert_creates_listed_fields_witness :
  DocumentSpec.DbName Cases.insertSpec = StmtInsert.dbName Cases.insertParsed /\
  DocumentSpec.CollName Cases.insertSpec = StmtInsert.collName Cases.insertParsed /\
  DocumentSpec.IsUpsert Cases.insertSpec = StmtInsert.isUpsert Cases.insertParsed /\
  (exists pk, index Cases.insertArgs (StmtInsert.numInput Cases.insertParsed - 1) = Some pk /\
              DocumentSpec.PartitionKeyValues Cases.insertSpec = [pk]) /\
  (forall k, is_Some (DocumentSpec.DocumentData Cases.insertSpec !! k)
             <-> In k (StmtInsert.fields Cases.insertParsed)).
Proof.
  apply (insert_creates_listed_fields Runs.queryEnv Cases.insertParsed Cases.insertArgs []
           Cases.insertSpec).
  vm_compute. left. reflexivity.
Defined.

(** The field [id] of [Cases.insertParsed] is the first argument. *)
Lemma insert_field_values_witness :
  DocumentSpec.DocumentData Cases.insertSpec !! "id"
    = bound Cases.insertArgs (VPlaceholder {| ph_index := 1 |}) /\
  is_Some (bound Cases.insertArgs (VPlaceholder {| ph_index := 1 |})).
Proof.
  apply (insert_field_values Runs.queryEnv Cases.insertParsed Cases.insertArgs []
           Cases.insertSpec 0%nat).
  - vm_compute. left. reflexivity.
  - reflexivity.
  - reflexivity.
  - intros j Hj. destruct j as [|[|[|j]]]; [lia|discriminate|discriminate|discriminate].
Defined.

(** [INSERT INTO db1.coll1 (id, n) VALUES (:7, :9)], run with three
    arguments: of the two placeholders out of range the first, 7, is
    reported. *)
Lemma insert_placeholder_out_of_range_witness :
  calls (StmtInsert.Exec Runs.queryEnv Cases.insertBeyond Runs.threeArgs []) = [] /\
  world (StmtInsert.Exec Runs.queryEnv Cases.insertBeyond Runs.threeArgs []) = [] /\
  value (StmtInsert.Exec Runs.queryEnv Cases.insertBeyond Runs.threeArgs [])
    = Returned (None, Some (errorString "invalid value index 7")).
Proof.
  destruct (insert_placeholder_out_of_range Runs.queryEnv Cases.insertBeyond
              Runs.threeArgs [] ltac:(vm_compute; reflexivity))
    as (Hcalls & Hworld & Hvalue & _).
  split; [exact Hcalls|]. split; [exact Hworld|].
  destruct (Hvalue ltac:(vm_compute; eauto)) as (ph & Hfirst & _ & _ & Hv).
  vm_compute in Hfirst. injection Hfirst as <-. exact Hv.
Defined.

Lemma insert_without_error_affects_one_row_witness :
  exists r spec,
    Some (ResultInsert.mk true "") = Some r /\ ResultInsert.RowsAffected r = (1, None) /\
    calls (StmtInsert.Exec Runs.queryEnv Cases.insertParsed Cases.insertArgs [])
      = [CallCreateDocument spec] /\
    RespDoc.Error (fst (CreateDocument (restClient Runs.queryEnv) spec [])) = None.
Proof.
  apply (insert_without_error_affects_one_row Runs.queryEnv Cases.insertParsed
           Cases.insertArgs [] (Some (ResultInsert.mk true ""))).
  vm_compute. reflexivity.
Defined.

Lemma insert_exec_no_panic_witness :
  exists res,
    value (StmtInsert.Exec Runs.queryEnv Cases.insertParsed Cases.insertArgs [])
      = Returned res.
Proof.
  apply (insert_exec_no_panic Runs.queryEnv Cases.insertStmt Cases.insertParsed
           Cases.insertArgs []).
  - vm_compute. reflexivity.
  - vm_compute. reflexivity.
  - reflexivity.
Defined.

(** [UPDATE db1.coll1 SET a="x" WHERE id=doc1] on the document
    [{"id": "doc1", "_etag": "W/abc"}]. *)
Lemma update_keeps_other_fields_witness :
  "W/abc"%string = Etag Runs.fetchOk (RespDoc.DocInfo Runs.fetched) /\
  DocumentSpec.IsUpsert Cases.updateSpec = false /\
  (forall k, ~ In k (StmtUpdate.fields Runs.updateLiteral) ->
     DocumentSpec.DocumentData Cases.updateSpec !! k
       = RemoveSystemAttrs Runs.fetchOk (RespDoc.DocInfo Runs.fetched) !! k) /\
  (forall k, In k (StmtUpdate.fields Runs.updateLiteral) ->
     is_Some (DocumentSpec.DocumentData Cases.updateSpec !! k)).
Proof.
  apply (update_keeps_other_fields Runs.fetchOk Runs.updateLiteral [GString "pk1"] []
           Cases.updateReq "W/abc" Cases.updateSpec).
  vm_compute. reflexivity.
Defined.

(** The first row of [Cases.rows]. *)
Lemma next_fills_columns_in_order_witness :
  exists doc,
    index (ResultSelect.documents Cases.rows) (ResultSelect.cursorCount Cases.rows) = Some doc /\
    length [GString "a"; GInt64 1; GString "kept"] = length Cases.dest /\
    (forall j col, ResultSelect.Columns Cases.rows !! j = Some col ->
       [GString "a"; GInt64 1; GString "kept"] !! j = Some (default GNil (doc !! col))) /\
    (forall j, (length (ResultSelect.Columns Cases.rows) <= j)%nat ->
       [GString "a"; GInt64 1; GString "kept"] !! j = Cases.dest !! j).
Proof.
  apply (next_fills_columns_in_order Cases.rows
           (ResultSelect.mk 2 (ResultSelect.documents Cases.rows) 1 ["id"; "n"])
           Cases.dest [GString "a"; GInt64 1; GString "kept"]).
  vm_compute. reflexivity.
Defined.

(** [Cases.rows] hands out two of its three documents. *)
Lemma cursor_hands_out_count_rows_witness :
  (forall n, is_Some (pull n Cases.rows Cases.dest)
             <-> Z.of_nat n <= ResultSelect.count Cases.rows) /\
  (forall r' dest',
     pull (Z.to_nat (ResultSelect.count Cases.rows)) Cases.rows Cases.dest = Some (r', dest') ->
     ResultSelect.Next r' dest' = (Returned (Some EOF), r', dest')).
Proof.
  apply (cursor_hands_out_count_rows Cases.rows Cases.dest).
  - reflexivity.
  - vm_compute. split; discriminate.
  - vm_compute. lia.
Defined.

(** The columns of a page whose second document lacks the field [n]. *)
Lemma select_columns_sorted_first_document_witness :
  Sorted String.le (ResultSelect.Columns Cases.mixedRows) /\
  List.NoDup (ResultSelect.Columns Cases.mixedRows) /\
  (forall k, In k (ResultSelect.Columns Cases.mixedRows) <-> is_Some (Cases.row "a" 1 !! k)).
Proof.
  apply (select_columns_sorted_first_document Runs.queryEnv 3 Runs.selectAll []
           Cases.mixedPage Cases.mixedRun Cases.mixedRows None).
  - vm_compute. reflexivity.
  - reflexivity.
Defined.

(** The query for the second page carries the parameter as the first one
    does. *)
Lemma select_binds_arguments_in_order_witness :
  length (QueryReq.Params (Cases.boundQuery "t1")) = length [GString "k1"] /\
  forall j arg, [GString "k1"] !! j = Some arg ->
    exists v, StmtSelect.placeholders Runs.selectOne !! (Z.of_nat j + 1) = Some v /\
              QueryReq.Params (Cases.boundQuery "t1") !! j = Some (param v arg).
Proof.
  apply (select_binds_arguments_in_order Runs.queryEnv 3 Runs.selectOne [GString "k1"]
           Cases.boundPages Cases.boundRun (Cases.boundQuery "t1")).
  - vm_compute. reflexivity.
  - vm_compute. right. left. reflexivity.
Defined.

Lemma select_returns_rows_or_error_witness :
  exists rows err,
    value Cases.boundRun = Returned (rows, err) /\ (is_Some rows \/ is_Some err).
Proof.
  apply (select_returns_rows_or_error Runs.queryEnv 3 Runs.selectOne [GString "k1"]
           Cases.boundPages Cases.boundRun).
  vm_compute. reflexivity.
Defined.

(** [SELECT * FROM c] against [Cases.endless], given a thousand calls. *)
Lemma select_paging_unbounded_witness :
  StmtSelect.Query (Stub.env Cases.endless) 1000 Runs.selectAll [] tt = None.
Proof.
  apply (select_paging_unbounded (Stub.env Cases.endless) Runs.selectAll [] tt []).
  - reflexivity.
  - intros q w'. split; [reflexivity|discriminate].
Defined.

(** [SELECT * FROM c WHERE c.k=$1] *)
Lemma parse_leaves_no_placeholder_witness :
  FindAllStringSubmatch reValPlaceholder (StmtSelect.selectQuery Runs.selectOne) = [].
Proof.
  apply (parse_leaves_no_placeholder Runs.noOpts
           (Runs.selectStmt "SELECT * FROM c WHERE c.k=$1") Runs.selectOne "").
  vm_compute. reflexivity.
Defined.
